(** * deplex: plane extraction from organized point clouds

    A shallow embedding of the plane-extraction pipeline
    ([plane_extractor.cpp], [histogram.cpp]) and the properties of its
    region grower, plane merger, refiner and label writer.

    Conventions of the embedding.
    - [int32_t] and [size_t] values are integers in [Z]; the grids are
      far smaller than 2^31, so wrap-around is not modelled, except for
      the conversions the source performs implicitly (signed to
      [size_t], [size_t] to [label_t]).
    - [float] and [double] values are idealised as rationals in [Q];
      what the properties below depend on is only the order of the
      computed values.
    - [std::vector] and [cv::Mat] are lists in row-major order, read
      and written through [zget] and [zset].
    - [std::bitset<BITSET_SIZE>] is an integer whose bits are read with
      [Z.testbit].
    - A matrix that the source allocates without initialising it
      starts from an arbitrary content, which the functions take as an
      argument; a load or a store outside a buffer is undefined. *)

From Stdlib Require Import ZArith QArith Qround Lia Lqa Bool Sorted.
From stdpp Require Import base list.

Local Open Scope Z_scope.

(** ** Vectors indexed by machine integers *)

(** [v[i]] for a [std::vector] or a raw buffer.  Outside the buffer the
    C++ behaviour is undefined; the model reads [d] there. *)
Definition zget {A} (d : A) (l : list A) (i : Z) : A :=
  if i <? 0 then d else default d (l !! Z.to_nat i).

(** [v[i] = x].  Outside the buffer the model leaves [v] unchanged. *)
Definition zset {A} (l : list A) (i : Z) (x : A) : list A :=
  if i <? 0 then l else <[Z.to_nat i := x]> l.

(** The indices [lo, lo+1, ..., hi-1] of a counting [for] loop. *)
Definition zrange (lo hi : Z) : list Z :=
  map (fun k => lo + Z.of_nat k) (seq 0 (Z.to_nat (hi - lo))).

(** [std::vector::resize(n, v)]: truncates, or appends copies of [v];
    the elements already present are kept as they are. *)
Definition resize {A} (n : Z) (v : A) (l : list A) : list A :=
  firstn (Z.to_nat n) l ++ repeat v (Z.to_nat n - length l)%nat.

(** A buffer of [n] copies of [v]. *)
Definition filled {A} (n : Z) (v : A) : list A := repeat v (Z.to_nat n).

(** ** Bit sets *)

(** The positions of the set bits below [size], in ascending order:
    the sequence a [_Find_first] / [_Find_next] loop walks through. *)
Definition set_bits (size : Z) (b : Z) : list Z :=
  List.filter (Z.testbit b) (zrange 0 size).

(** [bitset::count()]. *)
Definition bit_count (size : Z) (b : Z) : Z := Z.of_nat (length (set_bits size b)).

(** Bits strictly after [pos]: the walk started by [_Find_next(pos)]. *)
Definition set_bits_after (size : Z) (pos : Z) (b : Z) : list Z :=
  List.filter (Z.testbit b) (zrange (pos + 1) size).

(** Conversion of a signed [int] to [size_t] in a mixed comparison. *)
Definition to_size_t (n : Z) : Z := n mod 2 ^ 64.

(** Conversion to [label_t].  The label buffers are created from
    [uchar] values and copied into a [CV_8U] image, so [label_t] is
    taken to be an unsigned byte. *)
Definition to_label_t (n : Z) : Z := n mod 256.

(** ** Outcomes of a call *)

Inductive error :=
| IndexOutOfRange     (* std::out_of_range, thrown by growSeed *)
| DimensionMismatch
| InvalidConfig
| InsufficientPoints.

Inductive outcome (A : Type) :=
| Done (a : A)        (* the call returns *)
| Throw (e : error)   (* the call throws *)
| Undefined           (* an indeterminate value or a null pointer is used,
                         or a buffer is left *)
| Timeout             (* the model ran out of fuel *)
| NotANumber.         (* a floating-point value is NaN, which the rationals
                         of the model do not follow *)
Arguments Done {A} a.
Arguments Throw {A} e.
Arguments Undefined {A}.
Arguments Timeout {A}.
Arguments NotANumber {A}.

Definition bind {A B} (m : outcome A) (k : A -> outcome B) : outcome B :=
  match m with
  | Done a => k a
  | Throw e => Throw e
  | Undefined => Undefined
  | Timeout => Timeout
  | NotANumber => NotANumber
  end.

Notation "'let*' x ':=' m 'in' k" := (bind m (fun x => k))
  (at level 10, x name, m at level 100, k at level 200).

(** A loop whose turns may fail: the turns are taken in order, and the
    first one that does not return ends the loop with its outcome. *)
Fixpoint fold_outcome {A B} (f : A -> B -> outcome A) (l : list B) (a : A) : outcome A :=
  match l with
  | [] => Done a
  | b :: l => let* a := f a b in fold_outcome f l a
  end.

(** A position of a buffer of [size] elements. *)
Definition in_buffer (size pos : Z) : bool := (0 <=? pos) && (pos <? size).

(** ** Configuration *)

Record Config := {
  patchSize : Z;
  histogramBinsPerCoord : Z;
  minCosAngleForMerge : Q;
  maxMergeDist : Q;
  minRegionGrowingCandidateSize : Z;
  minRegionGrowingCellsActivated : Z;
  minRegionPlanarityScore : Q;
  doRefinement : bool;
  refinementMultiplierCoeff : Q;
  depthSigmaCoeff : Q;
  depthSigmaMargin : Q;
  minPtsPerCell : Z;
  depthDiscontinuityThreshold : Q;
  maxNumberDepthDiscontinuity : Z
}.

(** [PlaneExtractor::kDefaultConfig]. *)
Definition kDefaultConfig : Config := {|
  patchSize := 12;
  histogramBinsPerCoord := 20;
  minCosAngleForMerge := 93 # 100;
  maxMergeDist := 500;
  minRegionGrowingCandidateSize := 5;
  minRegionGrowingCellsActivated := 4;
  minRegionPlanarityScore := 50;
  doRefinement := true;
  refinementMultiplierCoeff := 15;
  depthSigmaCoeff := 1425 # 1000000000;
  depthSigmaMargin := 10;
  minPtsPerCell := 3;
  depthDiscontinuityThreshold := 160;
  maxNumberDepthDiscontinuity := 1
|}.

(** ** Vectors in space *)

Definition Vec3 : Type := Q * Q * Q.

Definition dot (a b : Vec3) : Q :=
  let '(ax, ay, az) := a in
  let '(bx, by_, bz) := b in
  (ax * bx + ay * by_ + az * bz)%Q.

Definition Qsq (q : Q) : Q := (q * q)%Q.

Definition Qltb (a b : Q) : bool := negb (Qle_bool b a).

Definition Qmax' (a b : Q) : Q := if Qltb a b then b else a.   (* std::max *)
Definition Qmin' (a b : Q) : Q := if Qltb b a then b else a.   (* std::min *)

(** [static_cast<int32_t>] of a real: truncation toward zero. *)
Definition Qtrunc (q : Q) : Z := Z.quot (Qnum q) (Zpos (Qden q)).

(** ** External numerics *)

(** The functions of [<cmath>] the pipeline calls, and [M_PI]. *)
Class Libm := {
  sqrtQ : Q -> Q;
  acosQ : Q -> Q;
  atan2Q : Q -> Q -> Q;
  M_PI : Q
}.

(** [Eigen::MatrixXf]: a column-major buffer of [rows * cols]
    values. *)
Record Matrix := { rows : Z; cols : Z; data : list Q }.

Definition coeff (m : Matrix) (r c : Z) : Q := zget 0%Q (data m) (c * rows m + r).

(** The interface of [CellSegment] as [plane_extractor.cpp] uses it.
    The pipeline is stated over any implementation of it: the fitting
    of a plane to the points of a cell (an eigen-decomposition in
    floating point) is not embedded. *)
Class CellSegmentOps (C : Type) := {
  newCellSegment : Z -> Z -> Z -> Matrix -> Config -> C;
  isPlanar : C -> bool;
  getNormal : C -> Vec3;
  getMean : C -> Vec3;
  getD : C -> Q;
  getMSE : C -> Q;
  getScore : C -> Q;
  cell_add : C -> C -> C;          (* operator+= *)
  calculateStats : C -> C
}.

(** ** Histogram ([histogram.cpp]) *)

Definition INT_MAX : Z := 2147483647.
Definition INT_MIN : Z := -2147483648.

(** A value of [int32_t]: what a [static_cast<int32_t>] of a real and
    an [int32_t] product need in order to be defined. *)
Definition fits_int32 (z : Z) : bool := (INT_MIN <=? z) && (z <=? INT_MAX).

Record Histogram := {
  nr_bins_per_coord_ : Z;
  nr_points_ : Z;
  hist_ : list Z;
  bins_ : list Z
}.

Section HistogramModel.
Context `{Libm}.
Variable BITSET_SIZE : Z.

Definition polar_q (B : Z) (normal : Vec3) : Z :=
  let '(nx, ny, nz) := normal in
  let min_X := 0%Q in
  let max_X := M_PI in
  let polar_angle := acosQ (- nz)%Q in
  Qtrunc ((inject_Z (B - 1) * (polar_angle - min_X) / (max_X - min_X))%Q).

Definition azimuth_q (B : Z) (normal : Vec3) : Z :=
  let '(nx, ny, nz) := normal in
  let min_Y := (- M_PI)%Q in
  let max_Y := M_PI in
  let n_proj_norm := sqrtQ (Qsq nx + Qsq ny)%Q in
  let azimuth_angle := atan2Q (nx / n_proj_norm)%Q (ny / n_proj_norm)%Q in
  Qtrunc ((inject_Z (B - 1) * (azimuth_angle - min_Y) / (max_Y - min_Y))%Q).

(** The bin the constructor computes for one normal. *)
Definition bin_of (B : Z) (normal : Vec3) : Z :=
  let X_q := polar_q B normal in
  let Y_q := if 0 <? X_q then azimuth_q B normal else 0 in
  Y_q * B + X_q.

(** One turn of the constructor's loop over the mask. *)
Definition addPoint (normals : list Vec3) (h : Histogram) (i : Z) : Histogram :=
  let bin := bin_of (nr_bins_per_coord_ h) (zget (0, 0, 0)%Q normals i) in
  {| nr_bins_per_coord_ := nr_bins_per_coord_ h;
     nr_points_ := nr_points_ h;
     hist_ := zset (hist_ h) bin (zget 0 (hist_ h) bin + 1);
     bins_ := zset (bins_ h) i bin |}.

(** The histogram that [Histogram::Histogram] builds from the normals
    of the points when each of its statements is defined (see
    [constructHistogram] for the conditions). *)
Definition newHistogram (nr_bins_per_coord : Z) (normals : list Vec3) (mask : Z) : Histogram :=
  let nr_points := Z.of_nat (length normals) in
  fold_left (addPoint normals) (set_bits BITSET_SIZE mask)
    {| nr_bins_per_coord_ := nr_bins_per_coord;
       nr_points_ := nr_points;
       hist_ := filled (nr_bins_per_coord * nr_bins_per_coord) 0;
       bins_ := filled nr_points (-1) |}.

(** [Eigen::Vector3f normal = normals.row(i)]: row [i] of the matrix
    read as a vector of three coefficients.  It is defined for a row
    of the matrix, and the matrix must have three columns. *)
Definition row3 (m : Matrix) (i : Z) : outcome Vec3 :=
  if in_buffer (rows m) i && (cols m =? 3)
  then Done (coeff m i 0, coeff m i 1, coeff m i 2)
  else Undefined.

(** The rows of a matrix of three columns. *)
Definition matrix_rows (m : Matrix) : list Vec3 :=
  map (fun i => (coeff m i 0, coeff m i 1, coeff m i 2)) (zrange 0 (rows m)).

(** The two conversions to [int32_t] in the constructor are defined.
    They need a number in the range of [int32_t].  The polar angle is
    NaN when [acos] is taken outside of [[-1, 1]]; the azimuth angle
    is NaN when the projection of the normal has norm 0 (the division
    is [0 / 0]), and it is converted only if [X_q > 0]. *)
Definition bin_defined (B : Z) (normal : Vec3) : bool :=
  let '(nx, ny, nz) := normal in
  let n_proj_norm := sqrtQ (Qsq nx + Qsq ny)%Q in
  Qle_bool (- (1)) nz && Qle_bool nz 1
  && fits_int32 (polar_q B normal)
  && (negb (0 <? polar_q B normal)
      || (negb (Qeq_bool n_proj_norm 0) && fits_int32 (azimuth_q B normal))).

(** One turn of the constructor's loop over the mask, with the
    conditions under which it is defined: the row is read as above,
    the angles are converted as above, [bins_[i]] is an element of
    [bins_] and [hist_[bin]] an element of [hist_].  The turn is then
    the one of [addPoint], which finds the same normal in the list of
    the rows of the matrix. *)
Definition addPoint_checked (normals : Matrix) (h : Histogram) (i : Z) : outcome Histogram :=
  let* normal := row3 normals i in
  if bin_defined (nr_bins_per_coord_ h) normal
     && in_buffer (Z.of_nat (length (bins_ h))) i
     && in_buffer (Z.of_nat (length (hist_ h))) (bin_of (nr_bins_per_coord_ h) normal)
  then Done (addPoint (matrix_rows normals) h i)
  else Undefined.

(** [Histogram::Histogram].  The size of [hist_] is a product of two
    [int32_t] values. *)
Definition constructHistogram (nr_bins_per_coord : Z) (normals : Matrix) (mask : Z)
  : outcome Histogram :=
  let nr_points := rows normals in
  if fits_int32 (nr_bins_per_coord * nr_bins_per_coord)
  then
    fold_outcome (addPoint_checked normals) (set_bits BITSET_SIZE mask)
      {| nr_bins_per_coord_ := nr_bins_per_coord;
         nr_points_ := nr_points;
         hist_ := filled (nr_bins_per_coord * nr_bins_per_coord) 0;
         bins_ := filled nr_points (-1) |}
  else Undefined.
End HistogramModel.

(** [std::max_element]: the position of the first largest element. *)
Definition max_element (l : list Z) : Z :=
  fst (fold_left
         (fun '(best, k) v =>
            (if zget 0 l best <? v then k else best, k + 1))
         l (0, 0)).

(** [Histogram::getPointsFromMostFrequentBin]. *)
Definition getPointsFromMostFrequentBin (h : Histogram) : list Z :=
  let max_bin_id := max_element (hist_ h) in
  let max_nr_occurrences := zget 0 (hist_ h) max_bin_id in
  if 0 <? max_nr_occurrences
  then List.filter (fun i => to_size_t (zget 0 (bins_ h) i) =? max_bin_id)
         (zrange 0 (nr_points_ h))
  else [].

(** [Histogram::removePoint]. *)
Definition removePoint (h : Histogram) (point_id : Z) : Histogram :=
  let b := zget 0 (bins_ h) point_id in
  {| nr_bins_per_coord_ := nr_bins_per_coord_ h;
     nr_points_ := nr_points_ h;
     hist_ := zset (hist_ h) b (zget 0 (hist_ h) b - 1);
     bins_ := zset (bins_ h) point_id (-1) |}.

(** ** The extractor ([plane_extractor.cpp]) *)

Record PlaneExtractor (C : Type) := {
  config_ : Config;
  nr_horizontal_cells_ : Z;
  nr_vertical_cells_ : Z;
  nr_total_cells_ : Z;
  nr_pts_per_cell_ : Z;
  image_height_ : Z;
  image_width_ : Z;
  cell_grid_ : list (option C);          (* vector<shared_ptr<CellSegment>> *)
  grid_plane_seg_map_ : list Z;          (* cv::Mat_<int32_t>, cells *)
  grid_plane_seg_map_eroded_ : list Z;   (* cv::Mat_<uchar>, cells *)
  seg_map_stacked_ : list Z              (* vector<label_t>, pixels *)
}.
Arguments config_ {C} _.
Arguments nr_horizontal_cells_ {C} _.
Arguments nr_vertical_cells_ {C} _.
Arguments nr_total_cells_ {C} _.
Arguments nr_pts_per_cell_ {C} _.
Arguments image_height_ {C} _.
Arguments image_width_ {C} _.
Arguments cell_grid_ {C} _.
Arguments grid_plane_seg_map_ {C} _.
Arguments grid_plane_seg_map_eroded_ {C} _.
Arguments seg_map_stacked_ {C} _.

Section Updates.
Context {C : Type}.

Definition with_cell_grid (pe : PlaneExtractor C) (v : list (option C)) :=
  {| config_ := config_ pe;
     nr_horizontal_cells_ := nr_horizontal_cells_ pe;
     nr_vertical_cells_ := nr_vertical_cells_ pe;
     nr_total_cells_ := nr_total_cells_ pe;
     nr_pts_per_cell_ := nr_pts_per_cell_ pe;
     image_height_ := image_height_ pe;
     image_width_ := image_width_ pe;
     cell_grid_ := v;
     grid_plane_seg_map_ := grid_plane_seg_map_ pe;
     grid_plane_seg_map_eroded_ := grid_plane_seg_map_eroded_ pe;
     seg_map_stacked_ := seg_map_stacked_ pe |}.

Definition with_seg_map (pe : PlaneExtractor C) (v : list Z) :=
  {| config_ := config_ pe;
     nr_horizontal_cells_ := nr_horizontal_cells_ pe;
     nr_vertical_cells_ := nr_vertical_cells_ pe;
     nr_total_cells_ := nr_total_cells_ pe;
     nr_pts_per_cell_ := nr_pts_per_cell_ pe;
     image_height_ := image_height_ pe;
     image_width_ := image_width_ pe;
     cell_grid_ := cell_grid_ pe;
     grid_plane_seg_map_ := v;
     grid_plane_seg_map_eroded_ := grid_plane_seg_map_eroded_ pe;
     seg_map_stacked_ := seg_map_stacked_ pe |}.

Definition with_seg_map_eroded (pe : PlaneExtractor C) (v : list Z) :=
  {| config_ := config_ pe;
     nr_horizontal_cells_ := nr_horizontal_cells_ pe;
     nr_vertical_cells_ := nr_vertical_cells_ pe;
     nr_total_cells_ := nr_total_cells_ pe;
     nr_pts_per_cell_ := nr_pts_per_cell_ pe;
     image_height_ := image_height_ pe;
     image_width_ := image_width_ pe;
     cell_grid_ := cell_grid_ pe;
     grid_plane_seg_map_ := grid_plane_seg_map_ pe;
     grid_plane_seg_map_eroded_ := v;
     seg_map_stacked_ := seg_map_stacked_ pe |}.

Definition with_stacked (pe : PlaneExtractor C) (v : list Z) :=
  {| config_ := config_ pe;
     nr_horizontal_cells_ := nr_horizontal_cells_ pe;
     nr_vertical_cells_ := nr_vertical_cells_ pe;
     nr_total_cells_ := nr_total_cells_ pe;
     nr_pts_per_cell_ := nr_pts_per_cell_ pe;
     image_height_ := image_height_ pe;
     image_width_ := image_width_ pe;
     cell_grid_ := cell_grid_ pe;
     grid_plane_seg_map_ := grid_plane_seg_map_ pe;
     grid_plane_seg_map_eroded_ := grid_plane_seg_map_eroded_ pe;
     seg_map_stacked_ := v |}.

(** [PlaneExtractor::PlaneExtractor]. *)
Definition newPlaneExtractor (image_height image_width : Z) (config : Config)
  : PlaneExtractor C :=
  let nr_horizontal_cells := image_width ÷ patchSize config in
  let nr_vertical_cells := image_height ÷ patchSize config in
  let nr_total_cells := nr_horizontal_cells * nr_vertical_cells in
  {| config_ := config;
     nr_horizontal_cells_ := nr_horizontal_cells;
     nr_vertical_cells_ := nr_vertical_cells;
     nr_total_cells_ := nr_total_cells;
     nr_pts_per_cell_ := patchSize config ^ 2;
     image_height_ := image_height;
     image_width_ := image_width;
     cell_grid_ := filled nr_total_cells None;
     grid_plane_seg_map_ := filled (nr_vertical_cells * nr_horizontal_cells) 0;
     grid_plane_seg_map_eroded_ := filled (nr_vertical_cells * nr_horizontal_cells) 0;
     seg_map_stacked_ := filled (image_height * image_width) 0 |}.

(** [*cell_grid_[i]]: a null pointer must not be dereferenced. *)
Definition deref (cells : list (option C)) (i : Z) : outcome C :=
  match zget None cells i with
  | Some c => Done c
  | None => Undefined
  end.

(** Element [(r, c)] of a cell-level [cv::Mat]. *)
Definition cell_at (pe : PlaneExtractor C) (m : list Z) (r c : Z) : Z :=
  zget 0 m (r * nr_horizontal_cells_ pe + c).
End Updates.

Section Pipeline.
Context {C : Type} `{CellSegmentOps C} `{Libm}.
Variable BITSET_SIZE : Z.

Implicit Type pe : PlaneExtractor C.

(** The position [shift] that [organizeByCell] computes for the pixel
    at row [r] and column [c]. *)
Definition cell_shift pe (r c : Z) : Z :=
  let patch_size := patchSize (config_ pe) in
  let cell_r := r ÷ patch_size in
  let local_r := Z.rem r patch_size in
  let cell_c := c ÷ patch_size in
  let local_c := Z.rem c patch_size in
  (cell_r * nr_horizontal_cells_ pe + cell_c) * patch_size * patch_size
  + local_r * patch_size + local_c.

(** [*(out + dst) = *(src + from)] for two buffers of [size] values:
    both positions must lie in their buffer. *)
Definition copy_value (size : Z) (src out : list Q) (dst from : Z) : outcome (list Q) :=
  if in_buffer size from && in_buffer size dst
  then Done (zset out dst (zget 0%Q src from))
  else Undefined.

(** [PlaneExtractor::organizeByCell], called as [process] does: the
    output [organized_array] is a matrix of the dimensions of
    [pcd_array] that was allocated without initialisation, so that it
    starts from an arbitrary content [fresh].  The three coordinate
    columns are reached through the raw buffers, at offsets [0], [mxn]
    and [2 mxn], whatever the dimensions of the matrices are; both
    buffers hold [rows * cols] values.  The divisions by [patch_size]
    are made as soon as the image has a row. *)
Definition organizeByCell pe (fresh : Z -> Q) (pcd_array : Matrix) : outcome Matrix :=
  let patch_size := patchSize (config_ pe) in
  let mxn := image_width_ pe * image_height_ pe in
  let mxn2 := 2 * mxn in
  let size := rows pcd_array * cols pcd_array in
  let src := data pcd_array in
  let body (st : list Q * Z) (rc : Z * Z) : outcome (list Q * Z) :=
    let '(out, stacked_id) := st in
    let '(r, c) := rc in
    let shift := cell_shift pe r c in
    let* out := copy_value size src out shift stacked_id in
    let* out := copy_value size src out (mxn + shift) (mxn + stacked_id) in
    let* out := copy_value size src out (mxn2 + shift) (mxn2 + stacked_id) in
    Done (out, stacked_id + 1) in
  let pixels :=
    flat_map (fun r => map (fun c => (r, c)) (zrange 0 (image_width_ pe)))
      (zrange 0 (image_height_ pe)) in
  if (patch_size =? 0) && (0 <? image_height_ pe) then Undefined
  else
    let* st := fold_outcome body pixels (map fresh (zrange 0 size), 0) in
    Done {| rows := rows pcd_array; cols := cols pcd_array; data := fst st |}.

(** The cells of the grid in row-major order, as the nested loops
    over [(row, col)] visit them. *)
Definition grid_cells pe : list (Z * Z) :=
  flat_map (fun r => map (fun c => (r, c)) (zrange 0 (nr_horizontal_cells_ pe)))
    (zrange 0 (nr_vertical_cells_ pe)).

(** [planar_flags[i] = b]. *)
Definition assign_bit (b : Z) (i : Z) (v : bool) : Z :=
  if v then Z.setbit b i else Z.clearbit b i.

(** [PlaneExtractor::findPlanarCells].  [cell_grid_[stacked_cell_id]]
    must be an element of the vector and [planar_flags[stacked_cell_id]]
    a bit of the [std::bitset<BITSET_SIZE>]: [operator[]] checks
    neither. *)
Definition findPlanarCells pe (pcd_array : Matrix) : outcome (PlaneExtractor C * Z) :=
  let cell_width := patchSize (config_ pe) in
  let cell_height := patchSize (config_ pe) in
  let body (st : list (option C) * Z * Z) (_ : Z * Z)
    : outcome (list (option C) * Z * Z) :=
    let '(cells, planar_flags, stacked_cell_id) := st in
    if in_buffer (Z.of_nat (length cells)) stacked_cell_id
       && in_buffer BITSET_SIZE stacked_cell_id
    then
      let cell :=
        newCellSegment stacked_cell_id cell_width cell_height pcd_array (config_ pe) in
      Done (zset cells stacked_cell_id (Some cell),
            assign_bit planar_flags stacked_cell_id (isPlanar cell),
            stacked_cell_id + 1)
    else Undefined in
  let* st := fold_outcome body (grid_cells pe) (cell_grid_ pe, 0, 0) in
  let '(cells, planar_flags, _) := st in
  Done (with_cell_grid pe cells, planar_flags).

(** The histogram that the constructor of [histogram.cpp] builds when
    it is given the normals of the cells of the grid. *)
Definition histogram_of_cells pe (planar_flags : Z) : Histogram :=
  let normals :=
    map (fun oc => match oc with
                   | Some c => getNormal c
                   | None => (0, 0, 0)%Q
                   end)
      (firstn (Z.to_nat (nr_total_cells_ pe)) (cell_grid_ pe)) in
  newHistogram BITSET_SIZE (histogramBinsPerCoord (config_ pe)) normals planar_flags.

(** [PlaneExtractor::initializeHistogram].  The function fills the
    matrix [spherical_coord], of [nr_total_cells_] rows and two
    columns, with the polar and the azimuth angle of the normal of each
    planar cell, and hands this matrix to the constructor of
    [Histogram].  The matrix is allocated without initialisation: it
    starts from an arbitrary content [fresh].  The constructor of
    [histogram.cpp] reads each row of the mask as a normal of three
    coefficients ([row3]), which a row of [spherical_coord] does not
    have: Eigen compares the sizes in an assertion only, and the third
    coefficient is read behind the matrix.  (An angle that is NaN in
    the source is stored as some rational here; no defined run reads
    it.) *)
Definition initializeHistogram pe (fresh : Z -> Q) (planar_flags : Z) : outcome Histogram :=
  let N := nr_total_cells_ pe in
  let body (coord : list Q) (cell_id : Z) : outcome (list Q) :=
    let* cell := deref (cell_grid_ pe) cell_id in
    let '(nx, ny, nz) := getNormal cell in
    let n_proj_norm := sqrtQ (Qsq nx + Qsq ny)%Q in
    if in_buffer N cell_id
    then Done (zset (zset coord cell_id (acosQ (- nz)%Q))
                 (N + cell_id) (atan2Q (nx / n_proj_norm)%Q (ny / n_proj_norm)%Q))
    else Undefined in
  let* coord :=
    fold_outcome body (set_bits BITSET_SIZE planar_flags) (map fresh (zrange 0 (N * 2))) in
  let nr_bins_per_coord := histogramBinsPerCoord (config_ pe) in
  constructHistogram BITSET_SIZE nr_bins_per_coord
    {| rows := N; cols := 2; data := coord |} planar_flags.

(** [pcd_array.block(row, 0, 1, 3)]: a row of the matrix, which has at
    least three columns. *)
Definition in_block (m : Matrix) (row : Z) : bool := in_buffer (rows m) row && (3 <=? cols m).

(** [PlaneExtractor::computeCellDistTols].  The two rows of a cell must
    be rows of [pcd_array] and [cell_dist_tols[cell_id]] an element of
    the vector.  When [minCosAngleForMerge] is above 1 in absolute
    value, [sin_angle_for_merge] is the square root of a negative
    number: NaN, which [std::max] and [std::min] let through (they
    return their first argument when a comparison with it is false),
    so that the tolerance stored for a planar cell is NaN. *)
Definition computeCellDistTols pe (pcd_array : Matrix) (planar_flags : Z)
  : outcome (list Q) :=
  let cos_angle_for_merge := minCosAngleForMerge (config_ pe) in
  let sin_angle_for_merge := sqrtQ (1 - Qsq cos_angle_for_merge)%Q in
  let min_merge_dist := 20%Q in
  let max_merge_dist := maxMergeDist (config_ pe) in
  let npc := nr_pts_per_cell_ pe in
  fold_outcome
    (fun cell_dist_tols cell_id =>
       let last := cell_id * npc + npc - 1 in
       let first := cell_id * npc in
       if in_block pcd_array last && in_block pcd_array first
          && in_buffer (Z.of_nat (length cell_dist_tols)) cell_id
       then
         if Qltb 1 (Qsq cos_angle_for_merge) then NotANumber
         else
           let dx := (coeff pcd_array last 0 - coeff pcd_array first 0)%Q in
           let dy := (coeff pcd_array last 1 - coeff pcd_array first 1)%Q in
           let dz := (coeff pcd_array last 2 - coeff pcd_array first 2)%Q in
           let cell_diameter := sqrtQ (Qsq dx + Qsq dy + Qsq dz)%Q in
           let truncated_distance :=
             Qmin' (Qmax' (cell_diameter * sin_angle_for_merge)%Q min_merge_dist)
               max_merge_dist in
           Done (zset cell_dist_tols cell_id (Qsq truncated_distance))
       else Undefined)
    (set_bits BITSET_SIZE planar_flags)
    (filled (nr_total_cells_ pe) 0%Q).
End Pipeline.

(** ** Region growing *)

(** The state of one flood: the activation map, and a ghost log of the
    calls of [growSeed] made so far (latest first), each with its
    arguments [(x, y, prev_index)]. *)
Record Flood := { activation_map : Z; calls : list (Z * Z * Z) }.

(** The state of the loop of [createPlaneSegments].  [g_segments] holds
    the shared pointers of [plane_segments] as indices into the cell
    grid, where the pointed cells live; [g_removed] is a ghost log of
    the [removePoint] calls made so far, in order. *)
Record Growth (C : Type) := {
  g_hist : Histogram;
  g_unassigned : Z;
  g_remaining : Z;
  g_segments : list Z;
  g_pe : PlaneExtractor C;
  g_removed : list Z
}.
Arguments g_hist {C} _.
Arguments g_unassigned {C} _.
Arguments g_remaining {C} _.
Arguments g_segments {C} _.
Arguments g_pe {C} _.
Arguments g_removed {C} _.

Section Grower.
Context {C : Type} `{CellSegmentOps C}.
Variable BITSET_SIZE : Z.

Implicit Type pe : PlaneExtractor C.

Definition log_call (x y prev_index : Z) (fl : Flood) : Flood :=
  {| activation_map := activation_map fl; calls := (x, y, prev_index) :: calls fl |}.

(** [activation_map->set(index)].  [growSeed] reaches it with
    [index < nr_total_cells_] only, and in [process] the cell count is
    not above [BITSET_SIZE] then ([findPlanarCells] has written the
    flag of every cell), so that [index] is a position of the bit set:
    [set] does not throw and [unassigned[index]] is defined. *)
Definition activate (index : Z) (fl : Flood) : Flood :=
  {| activation_map := Z.setbit (activation_map fl) index; calls := calls fl |}.

(** The compatibility test of [growSeed] between the parent cell and
    the candidate cell: [true] when the candidate is rejected. *)
Definition incompatible pe (cell_dist_tols : list Q) (parent cand : C) (index : Z) : bool :=
  let d_1 := getD parent in
  let normal_1 := getNormal parent in
  let normal_2 := getNormal cand in
  let mean_2 := getMean cand in
  let cos_angle := dot normal_1 normal_2 in
  let merge_dist := Qsq (dot normal_1 mean_2 + d_1)%Q in
  Qltb cos_angle (minCosAngleForMerge (config_ pe))
  || Qltb (zget 0%Q cell_dist_tols index) merge_dist.

(** [PlaneExtractor::growSeed].  [fuel] bounds the depth of the
    recursion. *)
Fixpoint growSeed (fuel : nat) pe (x y prev_index : Z) (unassigned : Z)
    (fl : Flood) (cell_dist_tols : list Q) {struct fuel} : outcome Flood :=
  match fuel with
  | O => Timeout
  | S fuel =>
    let fl := log_call x y prev_index fl in
    let index := x + nr_horizontal_cells_ pe * y in
    if nr_total_cells_ pe <=? index then Throw IndexOutOfRange
    else if negb (Z.testbit unassigned index) || Z.testbit (activation_map fl) index
    then Done fl
    else
      let* parent := deref (cell_grid_ pe) prev_index in
      let* cand := deref (cell_grid_ pe) index in
      if incompatible pe cell_dist_tols parent cand index then Done fl
      else
        let fl := activate index fl in
        let* fl := if 0 <? x
                   then growSeed fuel pe (x - 1) y index unassigned fl cell_dist_tols
                   else Done fl in
        let* fl := if x <? nr_horizontal_cells_ pe - 1
                   then growSeed fuel pe (x + 1) y index unassigned fl cell_dist_tols
                   else Done fl in
        let* fl := if 0 <? y
                   then growSeed fuel pe x (y - 1) index unassigned fl cell_dist_tols
                   else Done fl in
        if y <? nr_vertical_cells_ pe - 1
        then growSeed fuel pe x (y + 1) index unassigned fl cell_dist_tols
        else Done fl
  end.

(** Depth that the recursion of [growSeed] cannot exceed: one frame
    per cell, and the frame of the call that returns at once. *)
Definition grow_depth pe : nat := S (Z.to_nat (nr_total_cells_ pe)).

(** Seed selection: the loop over [seed_candidates] that keeps the
    candidate whose MSE is strictly below the running minimum.
    [seed_id] starts out uninitialised ([None]). *)
Fixpoint selectSeed (cells : list (option C)) (seed_candidates : list Z)
    (seed_id : option Z) (min_mse : Q) : outcome (option Z) :=
  match seed_candidates with
  | [] => Done seed_id
  | seed_candidate :: rest =>
    let* cell := deref cells seed_candidate in
    if Qltb (getMSE cell) min_mse
    then selectSeed cells rest (Some seed_candidate) (getMSE cell)
    else selectSeed cells rest seed_id min_mse
  end.

(** Step 4 of the loop body: every activated cell is merged into the
    seed's cell and removed from the histogram. *)
Fixpoint mergeActivated (seed_id : Z) (activated : list Z) (g : Growth C)
  : outcome (Growth C) :=
  match activated with
  | [] => Done g
  | i :: rest =>
    let cells := cell_grid_ (g_pe g) in
    let* new_segment := deref cells seed_id in
    let* cell_i := deref cells i in
    mergeActivated seed_id rest
      {| g_hist := removePoint (g_hist g) i;
         g_unassigned := g_unassigned g;
         g_remaining := g_remaining g - 1;
         g_segments := g_segments g;
         g_pe := with_cell_grid (g_pe g)
                   (zset cells seed_id (Some (cell_add new_segment cell_i)));
         g_removed := g_removed g ++ [i] |}
  end.

(** The "Mark cells" loop: the cells of the activation map receive
    the number of the new plane. *)
Definition markCells pe (activation : Z) (nr_curr_planes : Z) : list Z :=
  fst (fold_left
         (fun '(grid, stacked_cell_id) '(row_id, col_id) =>
            ((if Z.testbit activation stacked_cell_id
              then zset grid (row_id * nr_horizontal_cells_ pe + col_id) nr_curr_planes
              else grid),
             stacked_cell_id + 1))
         (grid_cells pe) (grid_plane_seg_map_ pe, 0)).

(** Step 5 of the loop body, after the activated cells were merged. *)
Definition fitModel (seed_id : Z) (activation : Z) (g : Growth C) : outcome (Growth C) :=
  let pe := g_pe g in
  let nr_cells_activated := bit_count BITSET_SIZE activation in
  if nr_cells_activated <? to_size_t (minRegionGrowingCellsActivated (config_ pe))
  then Done g
  else
    let* new_segment := deref (cell_grid_ pe) seed_id in
    let new_segment := calculateStats new_segment in
    let pe := with_cell_grid pe (zset (cell_grid_ pe) seed_id (Some new_segment)) in
    if Qltb (minRegionPlanarityScore (config_ pe)) (getScore new_segment)
    then
      let plane_segments := g_segments g ++ [seed_id] in
      let nr_curr_planes := Z.of_nat (length plane_segments) in
      Done {| g_hist := g_hist g;
              g_unassigned := g_unassigned g;
              g_remaining := g_remaining g;
              g_segments := plane_segments;
              g_pe := with_seg_map pe (markCells pe activation nr_curr_planes);
              g_removed := g_removed g |}
    else
      Done {| g_hist := g_hist g;
              g_unassigned := g_unassigned g;
              g_remaining := g_remaining g;
              g_segments := g_segments g;
              g_pe := pe;
              g_removed := g_removed g |}.

Definition clear_unassigned (activation : Z) (g : Growth C) : Growth C :=
  {| g_hist := g_hist g;
     g_unassigned := Z.ldiff (g_unassigned g) activation;
     g_remaining := g_remaining g;
     g_segments := g_segments g;
     g_pe := g_pe g;
     g_removed := g_removed g |}.

(** The flood of one iteration, from its seed. *)
Definition growFrom (g : Growth C) (cell_dist_tols : list Q) (seed_id : Z) : outcome Flood :=
  let pe := g_pe g in
  let y := seed_id ÷ nr_horizontal_cells_ pe in
  let x := Z.rem seed_id (nr_horizontal_cells_ pe) in
  growSeed (grow_depth pe) pe x y seed_id (g_unassigned g)
    {| activation_map := 0; calls := [] |} cell_dist_tols.

(** One turn of the [while] loop of [createPlaneSegments], entered
    with [remaining_planar_cells > 0].  The result is [(true, g')]
    when the loop goes on and [(false, g')] when the function
    returns from inside the loop. *)
Definition growthStep (cell_dist_tols : list Q) (g : Growth C) : outcome (bool * Growth C) :=
  let pe := g_pe g in
  let seed_candidates := getPointsFromMostFrequentBin (g_hist g) in
  if Z.of_nat (length seed_candidates)
     <? to_size_t (minRegionGrowingCandidateSize (config_ pe))
  then Done (false, g)
  else
    let* seed := selectSeed (cell_grid_ pe) seed_candidates None (inject_Z INT_MAX) in
    match seed with
    | None => Undefined
    | Some seed_id =>
      let* fl := growFrom g cell_dist_tols seed_id in
      let activation := activation_map fl in
      let* g := mergeActivated seed_id (set_bits BITSET_SIZE activation) g in
      let g := clear_unassigned activation g in
      let* g := fitModel seed_id activation g in
      Done (true, g)
    end.

Fixpoint growthLoop (fuel : nat) (cell_dist_tols : list Q) (g : Growth C)
  : outcome (Growth C) :=
  match fuel with
  | O => Timeout
  | S fuel =>
    if 0 <? g_remaining g
    then
      let* r := growthStep cell_dist_tols g in
      if fst r then growthLoop fuel cell_dist_tols (snd r) else Done (snd r)
    else Done g
  end.

Definition growthStart pe (hist : Histogram) (planar_flags : Z) : Growth C :=
  {| g_hist := hist;
     g_unassigned := planar_flags;
     g_remaining := bit_count BITSET_SIZE planar_flags;
     g_segments := [];
     g_pe := pe;
     g_removed := [] |}.

(** [PlaneExtractor::createPlaneSegments]; [fuel] bounds the number
    of turns of its loop. *)
Definition createPlaneSegments (fuel : nat) pe (hist : Histogram) (planar_flags : Z)
    (cell_dist_tols : list Q) : outcome (Growth C) :=
  growthLoop fuel cell_dist_tols (growthStart pe hist planar_flags).

(** The states in which the loop of [createPlaneSegments] starts a
    turn. *)
Inductive LoopHead pe (hist : Histogram) (planar_flags : Z) (cell_dist_tols : list Q)
  : Growth C -> Prop :=
| head_start :
    LoopHead pe hist planar_flags cell_dist_tols (growthStart pe hist planar_flags)
| head_next g g' :
    LoopHead pe hist planar_flags cell_dist_tols g ->
    0 < g_remaining g ->
    growthStep cell_dist_tols g = Done (true, g') ->
    LoopHead pe hist planar_flags cell_dist_tols g'.
End Grower.

(** ** Plane merging *)

(** [m[a][b] = v] on a vector of bit sets. *)
Definition assoc_set (m : list Z) (a b : Z) (v : bool) : list Z :=
  zset m a (assign_bit (zget 0 m a) b v).

Definition assoc_get (m : list Z) (a b : Z) : bool := Z.testbit (zget 0 m a) b.

Section Merger.
Context {C : Type} `{CellSegmentOps C}.
Variable BITSET_SIZE : Z.

Implicit Type pe : PlaneExtractor C.

(** [PlaneExtractor::getConnectedComponents]. *)
Definition getConnectedComponents pe (nr_planes : Z) : list Z :=
  let grid := grid_plane_seg_map_ pe in
  let grid_rows := nr_vertical_cells_ pe in
  let grid_cols := nr_horizontal_cells_ pe in
  let scan (m : list Z) (rc : Z * Z) :=
    let '(row_id, col_id) := rc in
    let plane_id := cell_at pe grid row_id col_id in
    if 0 <? plane_id then
      let right := cell_at pe grid row_id (col_id + 1) in
      let m := if (0 <? right) && negb (plane_id =? right)
               then assoc_set m (plane_id - 1) (right - 1) true else m in
      let down := cell_at pe grid (row_id + 1) col_id in
      if (0 <? down) && negb (plane_id =? down)
      then assoc_set m (plane_id - 1) (down - 1) true else m
    else m in
  let scanned :=
    flat_map (fun r => map (fun c => (r, c)) (zrange 0 (grid_cols - 1)))
      (zrange 0 (grid_rows - 1)) in
  let m := fold_left scan scanned (filled nr_planes 0) in
  let size := Z.of_nat (length m) in
  let symmetrize (m : list Z) (rc : Z * Z) :=
    let '(row_id, col_id) := rc in
    assoc_set m row_id col_id (assoc_get m row_id col_id || assoc_get m col_id row_id) in
  fold_left symmetrize
    (flat_map (fun r => map (fun c => (r, c)) (zrange 0 size)) (zrange 0 size)) m.

(** The state of [mergePlanes]: the extractor (whose cells the plane
    segments point to), the merge labels, the association matrix. *)
Definition MergeState : Type := PlaneExtractor C * list Z * list Z.

(** The inner loop of [mergePlanes] for one row. *)
Fixpoint mergeRow (plane_segments : list Z) (row_id plane_id : Z) (col_ids : list Z)
    (st : MergeState) (plane_expanded : bool) : outcome (MergeState * bool) :=
  match col_ids with
  | [] => Done (st, plane_expanded)
  | col_id :: rest =>
    let '(pe, plane_merge_labels, mx) := st in
    let p := zget 0 plane_segments plane_id in
    let q := zget 0 plane_segments col_id in
    let* seg_p := deref (cell_grid_ pe) p in
    let* seg_q := deref (cell_grid_ pe) q in
    let cos_angle := dot (getNormal seg_p) (getNormal seg_q) in
    let distance := Qsq (dot (getNormal seg_p) (getMean seg_q) + getD seg_p)%Q in
    if Qltb (minCosAngleForMerge (config_ pe)) cos_angle
       && Qltb distance (maxMergeDist (config_ pe))
    then
      mergeRow plane_segments row_id plane_id rest
        (with_cell_grid pe (zset (cell_grid_ pe) p (Some (cell_add seg_p seg_q))),
         zset plane_merge_labels col_id plane_id, mx) true
    else
      mergeRow plane_segments row_id plane_id rest
        (pe, plane_merge_labels, assoc_set mx row_id col_id false) plane_expanded
  end.

Fixpoint mergeRows (plane_segments : list Z) (row_ids : list Z) (st : MergeState)
  : outcome MergeState :=
  match row_ids with
  | [] => Done st
  | row_id :: rest =>
    let '(pe, plane_merge_labels, mx) := st in
    let plane_id := zget 0 plane_merge_labels row_id in
    let col_ids := set_bits_after BITSET_SIZE row_id (zget 0 mx row_id) in
    let* r := mergeRow plane_segments row_id plane_id col_ids st false in
    let '(pe, plane_merge_labels, mx) := fst r in
    if snd r then
      let p := zget 0 plane_segments plane_id in
      let* seg := deref (cell_grid_ pe) p in
      mergeRows plane_segments rest
        (with_cell_grid pe (zset (cell_grid_ pe) p (Some (calculateStats seg))),
         plane_merge_labels, mx)
    else mergeRows plane_segments rest (pe, plane_merge_labels, mx)
  end.

(** [PlaneExtractor::mergePlanes]. *)
Definition mergePlanes pe (plane_segments : list Z) : outcome (PlaneExtractor C * list Z) :=
  let nr_planes := Z.of_nat (length plane_segments) in
  let planes_association_mx := getConnectedComponents pe nr_planes in
  let plane_merge_labels := zrange 0 nr_planes in     (* std::iota *)
  let* st := mergeRows plane_segments (zrange 0 nr_planes)
               (pe, plane_merge_labels, planes_association_mx) in
  Done (fst (fst st), snd (fst st)).
End Merger.

(** ** Refinement *)

Definition MAXFLOAT : Q := inject_Z 340282346638528859811704183484516925440.

(** [cv::saturate_cast<uchar>]. *)
Definition saturate_uchar (n : Z) : Z := Z.max 0 (Z.min 255 n).

(** The 3x3 structuring elements of [refinePlanes], as offsets from the
    anchor at the centre. *)
Definition mask_square_kernel : list (Z * Z) :=
  [(-1, -1); (-1, 0); (-1, 1); (0, -1); (0, 0); (0, 1); (1, -1); (1, 0); (1, 1)].

Definition mask_cross_kernel : list (Z * Z) :=
  [(-1, 0); (0, -1); (0, 0); (0, 1); (1, 0)].

Section Refiner.
Context {C : Type} `{CellSegmentOps C}.

Implicit Type pe : PlaneExtractor C.

(** [mask.setTo(v, grid == k)]. *)
Definition setTo_eq (v : Z) (grid : list Z) (k : Z) (mask : list Z) : list Z :=
  zip_with (fun m g => if g =? k then v else m) mask grid.

(** [mask.setTo(v, sel > 0)]. *)
Definition setTo_pos (v : Z) (sel : list Z) (mask : list Z) : list Z :=
  zip_with (fun m s => if 0 <? s then v else m) mask sel.

(** [cv::erode] and [cv::dilate] with their default border: a
    neighbour outside the image does not take part in the minimum
    (maximum). *)
Definition morph (pick : Z -> Z -> Z) (start : Z) (kernel : list (Z * Z))
    pe (src : list Z) : list Z :=
  map (fun '(r, c) =>
         fold_left
           (fun acc '(dr, dc) =>
              let r' := r + dr in
              let c' := c + dc in
              if (0 <=? r') && (r' <? nr_vertical_cells_ pe)
                 && (0 <=? c') && (c' <? nr_horizontal_cells_ pe)
              then pick acc (cell_at pe src r' c') else acc)
           kernel start)
    (grid_cells pe).

Definition erode pe (src : list Z) (kernel : list (Z * Z)) : list Z :=
  morph Z.min 255 kernel pe src.

Definition dilate pe (src : list Z) (kernel : list (Z * Z)) : list Z :=
  morph Z.max 0 kernel pe src.

(** The squared residual of the point in row [pt] of the organized
    cloud with respect to a plane. *)
Definition residual (plane : C) (pcd_array : Matrix) (pt : Z) : Q :=
  let '(nx, ny, nz) := getNormal plane in
  Qsq (coeff pcd_array pt 0 * nx + coeff pcd_array pt 1 * ny
       + coeff pcd_array pt 2 * nz + getD plane)%Q.

(** [PlaneExtractor::refineCells].  [distances_stacked] is a local of
    the function: every call starts it from [MAXFLOAT]. *)
Definition refineCells pe (plane : C) (label : Z) (mask : list Z) (pcd_array : Matrix)
  : PlaneExtractor C :=
  let refinement_coeff := refinementMultiplierCoeff (config_ pe) in
  let distances_stacked := filled (image_width_ pe * image_height_ pe) MAXFLOAT in
  let cell (st : list Z * list Q * Z) (rc : Z * Z) :=
    let '(seg_map_stacked, distances_stacked, stacked_cell_id) := st in
    let '(row_id, col_id) := rc in
    if cell_at pe mask row_id col_id =? 0
    then (seg_map_stacked, distances_stacked, stacked_cell_id + 1)
    else
      let offset := stacked_cell_id * nr_pts_per_cell_ pe in
      let next_offset := offset + nr_pts_per_cell_ pe in
      let max_dist := (refinement_coeff * getMSE plane)%Q in
      let '(seg_map_stacked, distances_stacked) :=
        fold_left
          (fun '(seg, dists) pt =>
             let dist := residual plane pcd_array pt in
             if Qltb dist max_dist && Qltb dist (zget 0%Q dists pt)
             then (zset seg pt label, zset dists pt dist)
             else (seg, dists))
          (zrange offset next_offset) (seg_map_stacked, distances_stacked) in
      (seg_map_stacked, distances_stacked, stacked_cell_id + 1) in
  let '(seg_map_stacked, _, _) :=
    fold_left cell (grid_cells pe) (seg_map_stacked_ pe, distances_stacked, 0) in
  with_stacked pe seg_map_stacked.

(** The cell mask of plane [i]: the cells stamped with the label
    [j + 1] of a segment [j >= i] merged into [i]. *)
Definition planeMask pe (plane_segments merge_labels : list Z) (i : Z) : list Z :=
  fold_left
    (fun mask j =>
       if zget 0 merge_labels j =? zget 0 merge_labels i
       then setTo_eq 1 (grid_plane_seg_map_ pe) (j + 1) mask
       else mask)
    (zrange i (Z.of_nat (length plane_segments)))
    (filled (nr_vertical_cells_ pe * nr_horizontal_cells_ pe) 0).

(** [mask_diff]: the dilated mask minus the eroded mask. *)
Definition boundaryMask pe (mask : list Z) : list Z :=
  zip_with (fun a b => saturate_uchar (a - b))
    (dilate pe mask mask_square_kernel) (erode pe mask mask_cross_kernel).

(** The body of the loop of [refinePlanes] for plane [i]; the second
    component counts [plane_segments_final]. *)
Definition refinePlane (plane_segments merge_labels : list Z) (pcd_array : Matrix)
    (st : PlaneExtractor C * Z) (i : Z) : outcome (PlaneExtractor C * Z) :=
  let '(pe, nr_final) := st in
  if negb (i =? zget 0 merge_labels i) then Done st
  else
    let mask := planeMask pe plane_segments merge_labels i in
    let mask_eroded := erode pe mask mask_cross_kernel in
    let max := fold_left Z.max mask_eroded 0 in
    if max =? 0 then Done st
    else
      let nr_final := nr_final + 1 in
      let mask_diff := boundaryMask pe mask in
      let pe := with_seg_map_eroded pe
                  (setTo_pos (saturate_uchar nr_final) mask_eroded
                     (grid_plane_seg_map_eroded_ pe)) in
      let* plane := deref (cell_grid_ pe) (zget 0 plane_segments i) in
      Done (refineCells pe plane (to_label_t nr_final) mask_diff pcd_array, nr_final).

Fixpoint refineLoop (plane_segments merge_labels : list Z) (pcd_array : Matrix)
    (ids : list Z) (st : PlaneExtractor C * Z) : outcome (PlaneExtractor C * Z) :=
  match ids with
  | [] => Done st
  | i :: rest =>
    let* st := refinePlane plane_segments merge_labels pcd_array st i in
    refineLoop plane_segments merge_labels pcd_array rest st
  end.

(** [PlaneExtractor::refinePlanes]. *)
Definition refinePlanes pe (plane_segments merge_labels : list Z) (pcd_array : Matrix)
  : outcome (PlaneExtractor C) :=
  let* st := refineLoop plane_segments merge_labels pcd_array
               (zrange 0 (Z.of_nat (length plane_segments))) (pe, 0) in
  Done (fst st).
End Refiner.

(** ** Label images and cleanup *)

(** A [cv::Mat] of labels with its dimensions, in row-major order. *)
Record Image := { img_rows : Z; img_cols : Z; img_data : list Z }.

(** The label at row [r] and column [c] of an image. *)
Definition pixel (im : Image) (r c : Z) : Z := zget 0 (img_data im) (r * img_cols im + c).

Section LabelWriter.
Context {C : Type}.

Implicit Type pe : PlaneExtractor C.

(** [seg_out(cv::Rect(x, y, w, h)).setTo(v)]. *)
Definition fillRect (width : Z) (seg_out : list Z) (x y w h : Z) (v : Z) : list Z :=
  fold_left
    (fun out r => fold_left (fun out c => zset out (r * width + c) v) (zrange x (x + w)) out)
    (zrange y (y + h)) seg_out.

(** The pixel-by-pixel branch of [toLabels] for one cell. *)
Definition copyCell pe (seg_out : list Z) (r_offset r_limit c_offset c_limit : Z) (idx : Z)
  : list Z :=
  fst (fold_left
         (fun st r =>
            fold_left
              (fun '(out, idx) c =>
                 ((if 0 <? zget 0 (seg_map_stacked_ pe) idx
                   then zset out (r * image_width_ pe + c) (zget 0 (seg_map_stacked_ pe) idx)
                   else out),
                  idx + 1))
              (zrange c_offset c_limit) st)
         (zrange r_offset r_limit) (seg_out, idx)).

(** [PlaneExtractor::toLabels]. *)
Definition toLabels pe : Image :=
  let seg_out := filled (image_height_ pe * image_width_ pe) 0 in
  let cell_width := patchSize (config_ pe) in
  let cell_height := patchSize (config_ pe) in
  let cell (seg_out : list Z) (rc : Z * Z) :=
    let '(cell_r, cell_c) := rc in
    let r_offset := cell_r * cell_height in
    let r_limit := r_offset + cell_height in
    let c_offset := cell_c * cell_width in
    let c_limit := c_offset + cell_width in
    let label := cell_at pe (grid_plane_seg_map_eroded_ pe) cell_r cell_c in
    if 0 <? label
    then fillRect (image_width_ pe) seg_out c_offset r_offset cell_width cell_height label
    else
      let idx := nr_pts_per_cell_ pe * cell_r * nr_horizontal_cells_ pe
                 + nr_pts_per_cell_ pe * cell_c in
      copyCell pe seg_out r_offset r_limit c_offset c_limit idx in
  {| img_rows := image_height_ pe;
     img_cols := image_width_ pe;
     img_data := fold_left cell (grid_cells pe) seg_out |}.

(** [m.setTo(v, m == k)], in place. *)
Definition replace_label (v k : Z) (m : list Z) : list Z :=
  map (fun x => if x =? k then v else x) m.

(** [PlaneExtractor::coarseToLabels]. *)
Definition coarseToLabels pe (labels : list Z) : Image :=
  let grid_plane_seg_map_merged := grid_plane_seg_map_ pe in
  {| img_rows := nr_vertical_cells_ pe;
     img_cols := nr_horizontal_cells_ pe;
     img_data :=
       fold_left
         (fun merged i =>
            if negb (zget 0 labels i =? i)
            then replace_label (zget 0 labels i) i merged
            else merged)
         (zrange 0 (Z.of_nat (length labels))) grid_plane_seg_map_merged |}.

(** [PlaneExtractor::cleanArtifacts]. *)
Definition cleanArtifacts pe : PlaneExtractor C :=
  {| config_ := config_ pe;
     nr_horizontal_cells_ := nr_horizontal_cells_ pe;
     nr_vertical_cells_ := nr_vertical_cells_ pe;
     nr_total_cells_ := nr_total_cells_ pe;
     nr_pts_per_cell_ := nr_pts_per_cell_ pe;
     image_height_ := image_height_ pe;
     image_width_ := image_width_ pe;
     cell_grid_ := resize (nr_total_cells_ pe) None (cell_grid_ pe);
     grid_plane_seg_map_ := map (fun _ => 0) (grid_plane_seg_map_ pe);
     grid_plane_seg_map_eroded_ := map (fun _ => 0) (grid_plane_seg_map_eroded_ pe);
     seg_map_stacked_ := resize (image_height_ pe * image_width_ pe) 0 (seg_map_stacked_ pe) |}.
End LabelWriter.

(** ** The pipeline *)

Section Process.
Context {C : Type} `{CellSegmentOps C} `{Libm}.
Variable BITSET_SIZE : Z.

Implicit Type pe : PlaneExtractor C.

(** Stage 6 of [process]: the label image, with or without
    refinement. *)
Definition emitLabels pe (plane_segments merge_labels : list Z) (organized_array : Matrix)
  : outcome (PlaneExtractor C * Image) :=
  if doRefinement (config_ pe)
  then
    let* pe := refinePlanes pe plane_segments merge_labels organized_array in
    Done (pe, toLabels pe)
  else Done (pe, coarseToLabels pe merge_labels).

(** [PlaneExtractor::process]: the extractor after the call, and the
    labels it returns (the label image, row by row).  [fuel] bounds
    the number of turns of the region-growing loop; [organized_fresh]
    and [spherical_fresh] are the contents from which the two matrices
    start that the call allocates without initialising them. *)
Definition process (fuel : nat) pe (organized_fresh spherical_fresh : Z -> Q)
    (pcd_array : Matrix)
  : outcome (PlaneExtractor C * list Z) :=
  let* organized_array := organizeByCell pe organized_fresh pcd_array in
  let* r := findPlanarCells BITSET_SIZE pe organized_array in
  let '(pe, planar_flags) := r in
  let* hist := initializeHistogram BITSET_SIZE pe spherical_fresh planar_flags in
  let* cell_dist_tols :=
    computeCellDistTols BITSET_SIZE pe organized_array planar_flags in
  let* g := createPlaneSegments BITSET_SIZE fuel pe hist planar_flags cell_dist_tols in
  let plane_segments := g_segments g in
  let* r := mergePlanes BITSET_SIZE (g_pe g) plane_segments in
  let '(pe, merge_labels) := r in
  let* r := emitLabels pe plane_segments merge_labels organized_array in
  let '(pe, labels) := r in
  Done (cleanArtifacts pe, img_data labels).
End Process.

(** ** Concrete frames

    The frames below are run through the stages above.  They use a
    stand-in for [CellSegment] whose statistics are given directly, and
    rational approximations of the [<cmath>] functions. *)

Record SimpleCell := {
  sc_planar : bool;
  sc_normal : Vec3;
  sc_mean : Vec3;
  sc_d : Q;
  sc_mse : Q;
  sc_score : Q
}.

(** A cell facing the camera at the depth of its first point. *)
Definition frontal_cell (id w h : Z) (pcd_array : Matrix) (_ : Config) : SimpleCell :=
  let first := id * w * h in
  let z := coeff pcd_array first 2 in
  {| sc_planar := Qltb 0 z;
     sc_normal := (0, 0, -1)%Q;
     sc_mean := (coeff pcd_array first 0, coeff pcd_array first 1, z);
     sc_d := z;
     sc_mse := 1;
     sc_score := 100 |}.

#[export] Instance simple_cell_ops : CellSegmentOps SimpleCell := {|
  newCellSegment := frontal_cell;
  isPlanar := sc_planar;
  getNormal := sc_normal;
  getMean := sc_mean;
  getD := sc_d;
  getMSE := sc_mse;
  getScore := sc_score;
  cell_add := fun a _ => a;
  calculateStats := fun a => a
|}.

Definition Qclamp (lo hi q : Q) : Q := Qmax' lo (Qmin' q hi).

#[export] Instance coarse_libm : Libm := {|
  sqrtQ := fun q => inject_Z (Z.sqrt (Qfloor q));
  acosQ := fun v => Qclamp 0 (355 # 113) ((1 - v) * (355 # 226))%Q;
  atan2Q := fun a b => Qclamp (- (355 # 113)) (355 # 113) (a - b)%Q;
  M_PI := 355 # 113
|}.

(** A plane facing the camera at depth [z], with fit error [mse]. *)
Definition plane_at (z mse : Q) : SimpleCell :=
  {| sc_planar := true;
     sc_normal := (0, 0, -1)%Q;
     sc_mean := (0, 0, z)%Q;
     sc_d := z;
     sc_mse := mse;
     sc_score := 100 |}.

(** An organized cloud of [n] points given by their depths. *)
Definition cloud_of_depths (zs : list Q) : Matrix :=
  let n := Z.of_nat (length zs) in
  {| rows := n; cols := 3; data := filled n 0%Q ++ filled n 0%Q ++ zs |}.

(** The bit set with the given bits. *)
Definition bits_of (l : list Z) : Z := fold_left Z.setbit l 0.

(** A 2 x 8 grid of cells of 2 x 2 pixels (a 4 x 16 image). *)
Definition config_2x8 (refine : bool) : Config := {|
  patchSize := 2;
  histogramBinsPerCoord := 20;
  minCosAngleForMerge := 93 # 100;
  maxMergeDist := 500;
  minRegionGrowingCandidateSize := 5;
  minRegionGrowingCellsActivated := 4;
  minRegionPlanarityScore := 50;
  doRefinement := refine;
  refinementMultiplierCoeff := 15;
  depthSigmaCoeff := 1425 # 1000000000;
  depthSigmaMargin := 10;
  minPtsPerCell := 3;
  depthDiscontinuityThreshold := 160;
  maxNumberDepthDiscontinuity := 1
|}.

Definition extractor_2x8 (refine : bool) (cells : list (option SimpleCell)) (grid : list Z)
  : PlaneExtractor SimpleCell :=
  with_seg_map (with_cell_grid (newPlaneExtractor 4 16 (config_2x8 refine)) cells) grid.

(** Frame A: the left half of the grid is plane 1 (depth 1000), the
    right half plane 2 (depth 1030); the pixels of columns 3 and 4 of
    the cell grid lie at depth 1012, nearer to plane 1. *)
Definition cells_A : list (option SimpleCell) :=
  map (fun i => Some (if Z.rem i 8 <? 4 then plane_at 1000 10 else plane_at 1030 25))
    (zrange 0 16).

Definition grid_A : list Z :=
  map (fun i => if Z.rem i 8 <? 4 then 1 else 2) (zrange 0 16).

Definition cloud_A : Matrix :=
  cloud_of_depths
    (flat_map (fun i =>
                 let col := Z.rem i 8 in
                 repeat (if col <? 3 then 1000%Q else if col <? 5 then 1012%Q else 1030%Q) 4)
       (zrange 0 16)).

Definition frame_A : PlaneExtractor SimpleCell := extractor_2x8 true cells_A grid_A.

(** Frame B: two patches of one and the same plane, grown from the
    seeds in cells 0 and 4 and stamped by [markCells]. *)
Definition cells_B : list (option SimpleCell) :=
  map (fun _ => Some (plane_at 1000 10)) (zrange 0 16).

Definition frame_B : PlaneExtractor SimpleCell :=
  let pe := extractor_2x8 false cells_B (filled 16 0) in
  let pe := with_seg_map pe (markCells pe (bits_of [0; 1; 2; 3; 8; 9; 10; 11]) 1) in
  with_seg_map pe (markCells pe (bits_of [4; 5; 6; 7; 12; 13; 14; 15]) 2).

(** Frame D: plane 1 fills the left half, plane 2 the right half of the
    bottom row only; the two planes touch between the cells (1, 3) and
    (1, 4) of the last row. *)
Definition frame_D : PlaneExtractor SimpleCell :=
  let pe := extractor_2x8 false cells_B (filled 16 0) in
  let pe := with_seg_map pe (markCells pe (bits_of [0; 1; 2; 3; 8; 9; 10; 11]) 1) in
  with_seg_map pe (markCells pe (bits_of [12; 13; 14; 15]) 2).

(** Frame E: five planar cells with the same normal whose fit error is
    3000000000, above [INT_MAX]. *)
Definition cells_E : list (option SimpleCell) :=
  map (fun i => Some (if i <? 5 then plane_at 1000 3000000000
                      else {| sc_planar := false; sc_normal := (0, 0, -1)%Q;
                              sc_mean := (0, 0, 0)%Q; sc_d := 0; sc_mse := 0;
                              sc_score := 0 |}))
    (zrange 0 16).

Definition frame_E : PlaneExtractor SimpleCell := extractor_2x8 true cells_E (filled 16 0).

(** ** Predicates used in the statements *)

(** Two extractor states have the same configuration and dimensions. *)
Definition same_geometry {C} (pe pe' : PlaneExtractor C) : Prop :=
  config_ pe' = config_ pe /\
  nr_horizontal_cells_ pe' = nr_horizontal_cells_ pe /\
  nr_vertical_cells_ pe' = nr_vertical_cells_ pe /\
  nr_total_cells_ pe' = nr_total_cells_ pe /\
  nr_pts_per_cell_ pe' = nr_pts_per_cell_ pe /\
  image_height_ pe' = image_height_ pe /\
  image_width_ pe' = image_width_ pe.

(** The dimensions are those the constructor computes from the image
    size and a positive patch size. *)
Definition well_sized {C} (pe : PlaneExtractor C) : Prop :=
  0 < patchSize (config_ pe) /\
  0 <= image_height_ pe /\
  0 <= image_width_ pe /\
  nr_horizontal_cells_ pe = image_width_ pe ÷ patchSize (config_ pe) /\
  nr_vertical_cells_ pe = image_height_ pe ÷ patchSize (config_ pe).

(** The coordinates of a cell of the grid. *)
Definition in_grid {C} (pe : PlaneExtractor C) (x y : Z) : Prop :=
  0 <= x < nr_horizontal_cells_ pe /\ 0 <= y < nr_vertical_cells_ pe.

(** The cell count is the product of the grid dimensions, as the
    constructor sets it, and the dimensions are not negative. *)
Definition grid_shaped {C} (pe : PlaneExtractor C) : Prop :=
  nr_total_cells_ pe = nr_horizontal_cells_ pe * nr_vertical_cells_ pe /\
  0 <= nr_horizontal_cells_ pe /\ 0 <= nr_vertical_cells_ pe.

(** Every cell of the grid has been created ([findPlanarCells] does
    so for each frame). *)
Definition cells_present {C} (pe : PlaneExtractor C) : Prop :=
  forall i, 0 <= i < nr_total_cells_ pe -> zget None (cell_grid_ pe) i <> None.

Definition no_throw {A} (m : outcome A) : Prop := forall e, m <> Throw e.

(** Inclusion of bit sets. *)
Definition bits_sub (a b : Z) : Prop :=
  forall i, Z.testbit a i = true -> Z.testbit b i = true.

(** The number of cells a flood may still activate. *)
Definition unclaimed {C} (pe : PlaneExtractor C) (unassigned activation : Z) : nat :=
  length (List.filter (fun i => Z.testbit unassigned i && negb (Z.testbit activation i))
            (zrange 0 (nr_total_cells_ pe))).

(** A logged call of [growSeed] has its coordinates inside the grid
    and its linear index below the cell count. *)
Definition call_in_grid {C} (pe : PlaneExtractor C) (c : Z * Z * Z) : Prop :=
  let '(x, y, _) := c in
  in_grid pe x y /\ x + nr_horizontal_cells_ pe * y < nr_total_cells_ pe.

(** The compatibility test of region growing, as the specification
    states it. *)
Definition compatible {C} `{CellSegmentOps C} (pe : PlaneExtractor C)
    (cell_dist_tols : list Q) (parent cand : C) (index : Z) : Prop :=
  (minCosAngleForMerge (config_ pe) <= dot (getNormal parent) (getNormal cand))%Q /\
  (Qsq (dot (getNormal parent) (getMean cand) + getD parent)
   <= zget 0%Q cell_dist_tols index)%Q.

(** The flood goes on from cell [index] at [(x, y)] to its left, right,
    upper and lower neighbour, in this order, each visit starting from
    the state the previous one left, with [index] as the parent. *)
Definition floods_neighbours {C} `{CellSegmentOps C} (fuel : nat) (pe : PlaneExtractor C)
    (x y index unassigned : Z) (cell_dist_tols : list Q) (fl0 fl' : Flood) : Prop :=
  exists fl1 fl2 fl3,
    (if 0 <? x
     then growSeed fuel pe (x - 1) y index unassigned fl0 cell_dist_tols
     else Done fl0) = Done fl1 /\
    (if x <? nr_horizontal_cells_ pe - 1
     then growSeed fuel pe (x + 1) y index unassigned fl1 cell_dist_tols
     else Done fl1) = Done fl2 /\
    (if 0 <? y
     then growSeed fuel pe x (y - 1) index unassigned fl2 cell_dist_tols
     else Done fl2) = Done fl3 /\
    (if y <? nr_vertical_cells_ pe - 1
     then growSeed fuel pe x (y + 1) index unassigned fl3 cell_dist_tols
     else Done fl3) = Done fl'.

(** A cloud of 80 points at depth 1000, for an image of 5 x 16
    pixels: with cells of 2 x 2 pixels, the last pixel row is a bottom
    margin. *)
Definition cloud_5x16 : Matrix := cloud_of_depths (repeat 1000%Q 80).

(** Frame M: the cells and labels of frame A in a 5 x 17 image, which
    leaves a margin of one pixel row and one pixel column. *)
Definition frame_M : PlaneExtractor SimpleCell :=
  with_seg_map (with_cell_grid (newPlaneExtractor 5 17 (config_2x8 true)) cells_A) grid_A.

(** All sixteen cells of the 2 x 8 grid unassigned, and the tolerance
    of 20^2 for each of them. *)
Definition all_unassigned : Z := 65535.
Definition tols_2x8 : list Q := filled 16 400%Q.

(** The histogram and the loop state with which [createPlaneSegments]
    starts on frame E, whose planar cells are the cells 0 to 4. *)
Definition hist_E : Histogram := histogram_of_cells 64 frame_E 31.
Definition growth_E : Growth SimpleCell := growthStart 64 frame_E hist_E 31.

(** The fit error of candidate [c] is related by [R] to [bound]. *)
Definition error_of {C} `{CellSegmentOps C} (cells : list (option C))
    (R : Q -> Q -> Prop) (bound : Q) (c : Z) : Prop :=
  exists cell, deref cells c = Done cell /\ R bound (getMSE cell).

(** What the histogram relies on from [<cmath>]: [acos] yields an
    angle in [[0, pi]] and [atan2] one in [[-pi, pi]]. *)
Class LibmRanges `{Libm} : Prop := {
  pi_positive : (0 < M_PI)%Q;
  acos_lower : forall v, (0 <= acosQ v)%Q;
  acos_upper : forall v, (acosQ v <= M_PI)%Q;
  atan2_lower : forall a b, (- M_PI <= atan2Q a b)%Q;
  atan2_upper : forall a b, (atan2Q a b <= M_PI)%Q
}.

(** Cell [i] is currently in the histogram: the constructor added it
    (its bit is set in the mask) and no [removePoint] took it out. *)
Definition in_histogram (mask : Z) (removed : list Z) (i : Z) : Prop :=
  Z.testbit mask i = true /\ ~ In i removed.

(** The test of [in_histogram]. *)
Definition in_histogramb (mask : Z) (removed : list Z) (i : Z) : bool :=
  Z.testbit mask i && negb (existsb (Z.eqb i) removed).

(** The invariant of the histogram of the cells whose normals are
    [normals] (one cell per normal), built with [B] bins per
    coordinate.  The histogram has kept [B] and the number of cells;
    [bins] has one entry per cell and [hist] one entry per bin.  For
    every cell [i] of the input: [bins[i] = -1] iff [i] is not in the
    histogram; otherwise [bins[i]] is the bin computed for the normal
    of [i], a position of [hist], and [hist[bins[i]] > 0].  Every
    entry [hist[b]] is the number of cells in the histogram whose bin
    is [b]. *)
Definition hist_ok `{Libm} (B : Z) (normals : list Vec3) (mask : Z) (removed : list Z)
    (h : Histogram) : Prop :=
  let n := Z.of_nat (length normals) in
  let bin i := bin_of B (zget (0, 0, 0)%Q normals i) in
  nr_bins_per_coord_ h = B /\ nr_points_ h = n /\
  Z.of_nat (length (bins_ h)) = n /\ Z.of_nat (length (hist_ h)) = B * B /\
  (forall i, 0 <= i < n ->
     (zget 0 (bins_ h) i = -1 <-> ~ in_histogram mask removed i) /\
     (in_histogram mask removed i ->
      zget 0 (bins_ h) i = bin i /\
      0 <= zget 0 (bins_ h) i < B * B /\
      0 < zget 0 (hist_ h) (zget 0 (bins_ h) i))) /\
  (forall b, 0 <= b < B * B ->
     zget 0 (hist_ h) b
     = Z.of_nat (length (List.filter
                           (fun i => in_histogramb mask removed i && (bin i =? b))
                           (zrange 0 n)))).

(** The angles of the normal are numbers: its third coefficient lies
    in [[-1, 1]], where [acos] is defined, and its projection has a
    norm other than 0 whenever the azimuth angle is used. *)
Definition angles_defined `{Libm} (B : Z) (normal : Vec3) : Prop :=
  let '(nx, ny, nz) := normal in
  (- (1) <= nz)%Q /\ (nz <= 1)%Q /\
  (0 < polar_q B normal -> ~ (sqrtQ (Qsq nx + Qsq ny) == 0)%Q).

(** Sixteen normals that face the camera, as the matrix that the
    constructor of the histogram reads. *)
Definition normals_2x8 : Matrix :=
  {| rows := 16; cols := 3; data := filled 32 0%Q ++ filled 16 (- (1))%Q |}.

(** The histogram holds exactly the cells of the list [M]: [bins] maps
    them to their bin and all others to -1, and [hist] counts them per
    bin. *)
Definition hist_inv (bin : Z -> Z) (B n : Z) (M : list Z) (h : Histogram) : Prop :=
  nr_bins_per_coord_ h = B /\ nr_points_ h = n /\
  Z.of_nat (length (bins_ h)) = n /\ Z.of_nat (length (hist_ h)) = B * B /\
  List.NoDup M /\ (forall i, In i M -> 0 <= i < n) /\
  (forall i, 0 <= i < n ->
     zget 0 (bins_ h) i = if in_dec Z.eq_dec i M then bin i else -1) /\
  (forall b, 0 <= b < B * B ->
     zget 0 (hist_ h) b = Z.of_nat (length (List.filter (fun i => bin i =? b) M))).

(** The list [M] without the cell [i]. *)
Definition without (i : Z) (M : list Z) : list Z :=
  List.filter (fun j => negb (j =? i)) M.

(** The invariant of the loop of [createPlaneSegments] that ties the
    histogram to the removals made so far and to the unassigned mask. *)
Definition growth_inv {C} (bin : Z -> Z) (B n : Z) (mask : Z) (g : Growth C) : Prop :=
  exists M,
    hist_inv bin B n M (g_hist g) /\
    (forall i, In i M <-> in_histogram mask (g_removed g) i) /\
    (forall i, Z.testbit (g_unassigned g) i = true <-> In i M).

(** The normals of the cells of frame E, as the histogram receives
    them. *)
Definition normals_E : list Vec3 := filled 16 (0, 0, -1)%Q.




(** ** Further predicates *)

(** The cell that [findPlanarCells] creates at position [j]. *)
Definition fresh_cell {C} `{CellSegmentOps C} (pe : PlaneExtractor C) (pcd_array : Matrix)
    (j : Z) : C :=
  newCellSegment j (patchSize (config_ pe)) (patchSize (config_ pe)) pcd_array (config_ pe).

(** The image is covered by the cells: its height and its width are
    multiples of the patch size. *)
Definition no_margin {C} (pe : PlaneExtractor C) : Prop :=
  0 < patchSize (config_ pe) /\
  0 <= nr_horizontal_cells_ pe /\ 0 <= nr_vertical_cells_ pe /\
  image_width_ pe = nr_horizontal_cells_ pe * patchSize (config_ pe) /\
  image_height_ pe = nr_vertical_cells_ pe * patchSize (config_ pe).

(** The image has no bottom margin, and a right margin that is
    narrower than a cell; when there is a right margin, the grid has at
    least [patchSize] rows of cells. *)
Definition right_margin_fits {C} (pe : PlaneExtractor C) : Prop :=
  0 < patchSize (config_ pe) /\
  0 <= nr_horizontal_cells_ pe /\ 0 <= nr_vertical_cells_ pe /\
  image_height_ pe = nr_vertical_cells_ pe * patchSize (config_ pe) /\
  nr_horizontal_cells_ pe * patchSize (config_ pe) <= image_width_ pe
    < (nr_horizontal_cells_ pe + 1) * patchSize (config_ pe) /\
  (image_width_ pe = nr_horizontal_cells_ pe * patchSize (config_ pe)
   \/ patchSize (config_ pe) <= nr_vertical_cells_ pe).

(** A cloud for an image of 4 x 17 pixels: the point of pixel [j] lies
    at depth [j + 1]. *)
Definition cloud_4x17 : Matrix := cloud_of_depths (map inject_Z (zrange 1 69)).

(** A cloud of 63 points, one fewer than an image of 4 x 16 pixels
    has. *)
Definition cloud_63 : Matrix := cloud_of_depths (repeat 1000%Q 63).

(** The cell of the pixel at row [r] and column [c]. *)
Definition cell_of_pixel {C} (pe : PlaneExtractor C) (r c : Z) : Z :=
  (r / patchSize (config_ pe)) * nr_horizontal_cells_ pe + c / patchSize (config_ pe).

(** The state of the loop of [createPlaneSegments] agrees with its
    ghost log: the cells removed so far are planar cells, each removed
    once; the unassigned cells are the planar cells not yet removed,
    and [remaining_planar_cells] counts them; the segments are cells of
    the grid; a cell of the segment map carries the number of a segment
    found so far, and only a removed cell carries one. *)
Definition loop_inv {C} (BITSET_SIZE : Z) (pe0 : PlaneExtractor C) (mask : Z)
    (g : Growth C) : Prop :=
  same_geometry pe0 (g_pe g) /\
  nr_points_ (g_hist g) <= nr_total_cells_ pe0 /\
  List.NoDup (g_removed g) /\
  (forall i, In i (g_removed g) ->
     Z.testbit mask i = true /\ 0 <= i < nr_total_cells_ pe0) /\
  (forall i, Z.testbit (g_unassigned g) i = true <-> in_histogram mask (g_removed g) i) /\
  g_remaining g = bit_count BITSET_SIZE mask - Z.of_nat (length (g_removed g)) /\
  (forall s, In s (g_segments g) -> 0 <= s < nr_total_cells_ pe0) /\
  length (grid_plane_seg_map_ (g_pe g)) = length (grid_plane_seg_map_ pe0) /\
  (forall i, 0 <= i < nr_total_cells_ pe0 ->
     0 <= zget 0 (grid_plane_seg_map_ (g_pe g)) i <= Z.of_nat (length (g_segments g)) /\
     (zget 0 (grid_plane_seg_map_ (g_pe g)) i <> 0 -> In i (g_removed g))).

(** Frame F: the cells of frame A before region growing (the segment
    map is still zero), and the state in which the loop of
    [createPlaneSegments] starts on it with all sixteen cells planar. *)
Definition frame_F : PlaneExtractor SimpleCell := extractor_2x8 true cells_A (filled 16 0).
Definition hist_F : Histogram := histogram_of_cells 64 frame_F all_unassigned.
Definition growth_F : Growth SimpleCell := growthStart 64 frame_F hist_F all_unassigned.

(** The state after the first turn of the loop on frame F. *)
Definition growth_F1 : Growth SimpleCell :=
  match growthStep 64 tols_2x8 growth_F with
  | Done (_, g) => g
  | _ => growth_F
  end.

(** Every planar cell can start a region: it passes the test of
    [growSeed] against itself, and its fit error is below
    [INT_MAX]. *)
Definition seedable {C} `{CellSegmentOps C} (pe0 : PlaneExtractor C) (tols : list Q)
    (mask : Z) : Prop :=
  forall i c, Z.testbit mask i = true -> zget None (cell_grid_ pe0) i = Some c ->
    incompatible pe0 tols c c i = false /\ (getMSE c < inject_Z INT_MAX)%Q.

(** All cells exist, and the unassigned cells are still the cells
    that [findPlanarCells] created. *)
Definition cells_kept {C} (pe0 : PlaneExtractor C) (g : Growth C) : Prop :=
  cells_present (g_pe g) /\
  forall i, Z.testbit (g_unassigned g) i = true ->
    zget None (cell_grid_ (g_pe g)) i = zget None (cell_grid_ pe0) i.

(** The seed candidates are fewer than [minRegionGrowingCandidateSize]. *)
Definition too_few_candidates {C} (g : Growth C) : Prop :=
  Z.of_nat (length (getPointsFromMostFrequentBin (g_hist g)))
  < to_size_t (minRegionGrowingCandidateSize (config_ (g_pe g))).

(** Frame G: the cells of frame B under a configuration whose
    [minCosAngleForMerge] is above 1, which no pair of unit normals
    reaches; the loop of [createPlaneSegments] starts with all sixteen
    cells planar. *)
Definition config_G : Config := {|
  patchSize := 2;
  histogramBinsPerCoord := 20;
  minCosAngleForMerge := 101 # 100;
  maxMergeDist := 500;
  minRegionGrowingCandidateSize := 5;
  minRegionGrowingCellsActivated := 4;
  minRegionPlanarityScore := 50;
  doRefinement := true;
  refinementMultiplierCoeff := 15;
  depthSigmaCoeff := 1425 # 1000000000;
  depthSigmaMargin := 10;
  minPtsPerCell := 3;
  depthDiscontinuityThreshold := 160;
  maxNumberDepthDiscontinuity := 1
|}.

Definition frame_G : PlaneExtractor SimpleCell :=
  with_cell_grid (newPlaneExtractor 4 16 config_G) cells_B.

Definition growth_G : Growth SimpleCell :=
  growthStart 64 frame_G (histogram_of_cells 64 frame_G all_unassigned) all_unassigned.


(** A scanned cell of the segment map holds [a], and its right or its
    lower neighbour holds [b]. *)
Definition scanned_adjacent {C} (pe : PlaneExtractor C) (a b : Z) : Prop :=
  exists r c,
    0 <= r < nr_vertical_cells_ pe - 1 /\ 0 <= c < nr_horizontal_cells_ pe - 1 /\
    cell_at pe (grid_plane_seg_map_ pe) r c = a /\
    (cell_at pe (grid_plane_seg_map_ pe) r (c + 1) = b
     \/ cell_at pe (grid_plane_seg_map_ pe) (r + 1) c = b).

(** The innermost step of [refineCells], for the point [pt]. *)
Definition refine_point {C} `{CellSegmentOps C} (plane : C) (label : Z) (max_dist : Q)
    (pcd_array : Matrix) : list Z * list Q -> Z -> list Z * list Q :=
  fun '(seg, dists) pt =>
    let dist := residual plane pcd_array pt in
    if Qltb dist max_dist && Qltb dist (zget 0%Q dists pt)
    then (zset seg pt label, zset dists pt dist)
    else (seg, dists).

(** * Properties *)

(** ** The coarse label image *)

(** C3 (defect of the code).  With refinement disabled, segment 1 of
    frame B is merged into segment 0 ([labels = [0; 0]]), and
    [coarseToLabels] replaces the occurrences of the value [i = 1] in
    the grid.  The grid holds the 1-based stamps, so the value 1 is the
    stamp of segment 0: the root's cells are overwritten with 0, while
    the cells stamped for segment 1 (stamp 2) keep their stamp and do
    not carry the root's id. *)
Theorem C3_coarseToLabels_replaces_the_wrong_stamp :
  grid_plane_seg_map_ frame_B = [1; 1; 1; 1; 2; 2; 2; 2; 1; 1; 1; 1; 2; 2; 2; 2] /\
  exists pe,
    mergePlanes 64 frame_B [0; 4] = Done (pe, [0; 0]) /\
    img_data (coarseToLabels pe [0; 0])
    = [0; 0; 0; 0; 2; 2; 2; 2; 0; 0; 0; 0; 2; 2; 2; 2] /\
    pixel (coarseToLabels pe [0; 0]) 0 4 <> pixel (coarseToLabels pe [0; 0]) 0 0.
Proof.
  split; [vm_compute; reflexivity|].
  eexists. split; [vm_compute; reflexivity|].
  split; [vm_compute; reflexivity|].
  vm_compute. discriminate.
Qed.

(** ** The association matrix *)

(** C4 (defect of the code).  In frame D the planes 1 and 2 are
    adjacent in the cell-label grid, between the cells (1, 3) and
    (1, 4) of the last row.  The scan of [getConnectedComponents] stops
    one row and one column short, never visits a cell of the last row,
    and leaves the association matrix empty. *)
Theorem C4_adjacency_in_last_row_is_missed :
  cell_at frame_D (grid_plane_seg_map_ frame_D) 1 3 = 1 /\
  cell_at frame_D (grid_plane_seg_map_ frame_D) 1 4 = 2 /\
  getConnectedComponents frame_D 2 = [0; 0] /\
  assoc_get (getConnectedComponents frame_D 2) 0 1 = false /\
  assoc_get (getConnectedComponents frame_D 2) 1 0 = false.
Proof. repeat split; vm_compute; reflexivity. Qed.

(** ** Refinement *)

(** C1 (defect of the code).  In frame A the first pixel of cell (0, 3)
    (row 12 of the organized cloud) lies in the boundary mask of both
    planes and passes the gate of both.  Its squared residual is 144
    for plane 1 and 324 for plane 2, yet the stacked segment map, and
    the label image, give it to plane 2: [refineCells] starts its
    distance array afresh for every plane, so the plane refined last
    wins. *)
Theorem C1_plane_refined_last_wins :
  exists pe plane1 plane2,
    refinePlanes frame_A [0; 7] [0; 1] cloud_A = Done pe /\
    deref (cell_grid_ frame_A) 0 = Done plane1 /\
    deref (cell_grid_ frame_A) 7 = Done plane2 /\
    cell_at frame_A (boundaryMask frame_A (planeMask frame_A [0; 7] [0; 1] 0)) 0 3 = 1 /\
    cell_at frame_A (boundaryMask frame_A (planeMask frame_A [0; 7] [0; 1] 1)) 0 3 = 1 /\
    (residual plane1 cloud_A 12 == 144)%Q /\
    (residual plane2 cloud_A 12 == 324)%Q /\
    (residual plane1 cloud_A 12
     < refinementMultiplierCoeff (config_ frame_A) * getMSE plane1)%Q /\
    (residual plane2 cloud_A 12
     < refinementMultiplierCoeff (config_ frame_A) * getMSE plane2)%Q /\
    zget 0 (seg_map_stacked_ pe) 12 = 2 /\
    pixel (toLabels pe) 0 6 = 2.
Proof.
  do 3 eexists.
  split; [vm_compute; reflexivity|].
  split; [vm_compute; reflexivity|].
  split; [vm_compute; reflexivity|].
  repeat split; vm_compute; reflexivity.
Qed.

(** ** Cleanup *)

Section Cleanup.
Context {C : Type}.

Lemma resize_same {A} (n : Z) (v : A) (l : list A) :
  length l = Z.to_nat n -> resize n v l = l.
Proof.
  intros Hl. unfold resize. rewrite <- Hl, firstn_all, Nat.sub_diag.
  simpl. apply app_nil_r.
Qed.

(** On a buffer that already has its full size, the [resize] of
    [cleanArtifacts] changes nothing. *)
Lemma cleanArtifacts_keeps_stacked (pe : PlaneExtractor C) :
  length (seg_map_stacked_ pe) = Z.to_nat (image_height_ pe * image_width_ pe) ->
  seg_map_stacked_ (cleanArtifacts pe) = seg_map_stacked_ pe.
Proof. intros Hl. simpl. now apply resize_same. Qed.

Lemma cleanArtifacts_keeps_cells (pe : PlaneExtractor C) :
  length (cell_grid_ pe) = Z.to_nat (nr_total_cells_ pe) ->
  cell_grid_ (cleanArtifacts pe) = cell_grid_ pe.
Proof. intros Hl. simpl. now apply resize_same. Qed.
End Cleanup.

(** C2 (defect of the code).  After frame A was refined,
    [cleanArtifacts] leaves the stacked segment buffer and the cell
    pointers as they are: both [resize] calls act on vectors that have
    their full size already.  The labels of frame A therefore show up
    in the label image of a following frame without any plane, where a
    fresh extractor yields 0.  Refining frame A a second time repeats
    the same writes and yields the same label image. *)
Theorem C2_cleanArtifacts_leaves_stale_labels :
  exists pe,
    refinePlanes frame_A [0; 7] [0; 1] cloud_A = Done pe /\
    seg_map_stacked_ (cleanArtifacts pe) = seg_map_stacked_ pe /\
    zget 0 (seg_map_stacked_ (cleanArtifacts pe)) 12 = 2 /\
    cell_grid_ (cleanArtifacts pe) = cell_grid_ pe /\
    zget None (cell_grid_ (cleanArtifacts pe)) 0 <> None /\
    refinePlanes (cleanArtifacts pe) [] [] cloud_A = Done (cleanArtifacts pe) /\
    pixel (toLabels (cleanArtifacts pe)) 0 6 = 2 /\
    pixel (toLabels (newPlaneExtractor (C := SimpleCell) 4 16 (config_2x8 true))) 0 6 = 0 /\
    exists pe2,
      refinePlanes (with_seg_map (cleanArtifacts pe) grid_A) [0; 7] [0; 1] cloud_A
      = Done pe2 /\
      toLabels pe2 = toLabels pe.
Proof.
  eexists. split; [vm_compute; reflexivity|].
  split; [apply cleanArtifacts_keeps_stacked; vm_compute; reflexivity|].
  split; [vm_compute; reflexivity|].
  split; [apply cleanArtifacts_keeps_cells; vm_compute; reflexivity|].
  split; [vm_compute; discriminate|].
  split; [vm_compute; reflexivity|].
  split; [vm_compute; reflexivity|].
  split; [vm_compute; reflexivity|].
  eexists. split; vm_compute; reflexivity.
Qed.

(** ** Vectors and loops *)

Lemma zget_zset_ne {A} (d : A) (l : list A) (i k : Z) (x : A) :
  i <> k -> zget d (zset l i x) k = zget d l k.
Proof.
  intros Hne. unfold zget, zset.
  destruct (i <? 0) eqn:Hi; [reflexivity|].
  destruct (k <? 0) eqn:Hk; [reflexivity|].
  rewrite list_lookup_insert_ne; [reflexivity|]. lia.
Qed.

Lemma zget_zset_eq {A} (d : A) (l : list A) (i : Z) (x : A) :
  0 <= i < Z.of_nat (length l) -> zget d (zset l i x) i = x.
Proof.
  intros Hi. unfold zget, zset.
  destruct (i <? 0) eqn:Hneg; [lia|].
  rewrite list_lookup_insert_eq; [reflexivity|]. lia.
Qed.

Lemma length_zset {A} (l : list A) (i : Z) (x : A) : length (zset l i x) = length l.
Proof. unfold zset. destruct (i <? 0); [reflexivity|]. apply length_insert. Qed.

Lemma lookup_repeat {A} (v : A) (n k : nat) : (k < n)%nat -> repeat v n !! k = Some v.
Proof.
  revert k. induction n as [|n IH]; intros k Hk; [lia|].
  destruct k as [|k]; simpl; [reflexivity|]. apply IH. lia.
Qed.

Lemma zget_filled {A} (d v : A) (n k : Z) : 0 <= k < n -> zget d (filled n v) k = v.
Proof.
  intros Hk. unfold zget, filled.
  destruct (k <? 0) eqn:Hneg; [lia|].
  rewrite lookup_repeat; [reflexivity|]. lia.
Qed.

Lemma in_zrange (lo hi k : Z) : In k (zrange lo hi) <-> lo <= k < hi.
Proof.
  unfold zrange. rewrite in_map_iff. split.
  - intros [n [Hn Hin]]. apply in_seq in Hin. lia.
  - intros Hk. exists (Z.to_nat (k - lo)). split; [lia|]. apply in_seq. lia.
Qed.

Lemma length_zrange (lo hi : Z) : length (zrange lo hi) = Z.to_nat (hi - lo).
Proof. unfold zrange. now rewrite length_map, length_seq. Qed.

Lemma lookup_zrange (lo hi : Z) (k : nat) (x : Z) :
  zrange lo hi !! k = Some x -> x = lo + Z.of_nat k /\ lo + Z.of_nat k < hi.
Proof.
  unfold zrange. rewrite list_lookup_fmap. intros Hk.
  destruct (seq 0 (Z.to_nat (hi - lo)) !! k) as [j|] eqn:Hj; [|discriminate].
  injection Hk as <-. apply lookup_seq in Hj. destruct Hj as [-> Hlt]. simpl. lia.
Qed.

Lemma NoDup_same_length {A} (l1 l2 : list A) :
  List.NoDup l1 -> List.NoDup l2 -> (forall x, In x l1 <-> In x l2) -> length l1 = length l2.
Proof.
  intros H1 H2 Hsame. apply Nat.le_antisymm; apply List.NoDup_incl_length; try assumption.
  - intros x Hx. now apply Hsame.
  - intros x Hx. now apply Hsame.
Qed.

Lemma filter_NoDup {A} (p : A -> bool) (l : list A) : List.NoDup l -> List.NoDup (List.filter p l).
Proof.
  induction 1 as [|a l Hno Hl IH]; simpl; [constructor|].
  destruct (p a); [|exact IH]. constructor; [|exact IH].
  intros Hin. apply List.filter_In in Hin. now destruct Hin.
Qed.

Lemma bits_below (a n i : Z) : 0 <= a < 2 ^ n -> Z.testbit a i = true -> 0 <= i < n.
Proof.
  intros Ha Hbit.
  destruct (Z.ltb_spec i 0) as [Hneg|Hpos]; [now rewrite Z.testbit_neg_r in Hbit|].
  split; [exact Hpos|].
  destruct (Z.ltb_spec i n) as [Hlt|Hge]; [exact Hlt|exfalso].
  destruct (Z.eq_dec a 0) as [->|Hnz]; [now rewrite Z.bits_0 in Hbit|].
  rewrite Z.bits_above_log2 in Hbit; [discriminate|lia|].
  assert (Z.log2 a < n) by (apply Z.log2_lt_pow2; lia). lia.
Qed.

(** A loop all of whose turns return is a fold.  The invariant [I]
    may depend on the number of turns taken. *)
Lemma fold_outcome_pure {A B} (f : A -> B -> outcome A) (g : A -> B -> A)
    (I : nat -> A -> Prop) (l : list B) : forall (k : nat) (a : A),
  I k a ->
  (forall j a b, I (k + j)%nat a -> l !! j = Some b ->
     f a b = Done (g a b) /\ I (S (k + j)) (g a b)) ->
  fold_outcome f l a = Done (fold_left g l a) /\ I (k + length l)%nat (fold_left g l a).
Proof.
  induction l as [|b l IH]; intros k a Ha Hstep; simpl.
  - split; [reflexivity|]. now rewrite Nat.add_0_r.
  - destruct (Hstep 0%nat a b) as [Hf Hg]; [now rewrite Nat.add_0_r|reflexivity|].
    rewrite Hf. simpl. rewrite Nat.add_0_r in Hg.
    destruct (IH (S k) (g a b) Hg) as [Hrun Hinv].
    + intros j a' b' Ha' Hb'.
      replace (S k + j)%nat with (k + S j)%nat in * by lia. now apply Hstep.
    + split; [exact Hrun|].
      replace (k + S (length l))%nat with (S k + length l)%nat by lia. exact Hinv.
Qed.

(** A loop that returns is the fold of its turns. *)
Lemma fold_outcome_done {A B} (f : A -> B -> outcome A) (g : A -> B -> A) (l : list B) :
  (forall a b a', f a b = Done a' -> a' = g a b) ->
  forall a a', fold_outcome f l a = Done a' -> a' = fold_left g l a.
Proof.
  intros Hfg. induction l as [|b l IH]; intros a a' Hrun; simpl in Hrun.
  - now injection Hrun as <-.
  - destruct (f a b) as [a1| | | |] eqn:Hf; simpl in Hrun; try discriminate.
    simpl. rewrite <- (Hfg _ _ _ Hf). now apply IH.
Qed.

(** A turn that is undefined in every state leaves the loop
    undefined, when no turn ends in another way. *)
Lemma fold_outcome_undefined {A B} (f : A -> B -> outcome A) (l : list B) (b : B) :
  In b l -> (forall a, f a b = Undefined) ->
  (forall a b', f a b' = Undefined \/ exists a', f a b' = Done a') ->
  forall a, fold_outcome f l a = Undefined.
Proof.
  intros Hin Hb Hall. induction l as [|b' l IH]; intros a; [destruct Hin|]. simpl.
  destruct Hin as [->|Hin].
  - now rewrite Hb.
  - destruct (Hall a b') as [Hf|[a' Hf]]; rewrite Hf; simpl; [reflexivity|now apply IH].
Qed.

(** A loop with a turn that is undefined in every state that can reach
    it is undefined, when the turns before it return or are undefined
    themselves. *)
Lemma fold_outcome_stops {A B} (f : A -> B -> outcome A) (I : nat -> A -> Prop)
    (l : list B) : forall (k : nat) (a : A),
  I k a ->
  (forall j a b, I (k + j)%nat a -> l !! j = Some b ->
     f a b = Undefined \/ exists a', f a b = Done a' /\ I (S (k + j)) a') ->
  (exists j b, l !! j = Some b /\ forall a, I (k + j)%nat a -> f a b = Undefined) ->
  fold_outcome f l a = Undefined.
Proof.
  induction l as [|b l IH]; intros k a Ha Hstep (j&b'&Hj&Hbad); [discriminate|].
  simpl. destruct j as [|j].
  - injection Hj as <-. rewrite (Hbad a); [reflexivity|now rewrite Nat.add_0_r].
  - destruct (Hstep 0%nat a b) as [Hf|(a'&Hf&Ha')];
      [now rewrite Nat.add_0_r|reflexivity|..]; rewrite Hf; simpl; [reflexivity|].
    rewrite Nat.add_0_r in Ha'.
    apply (IH (S k) a' Ha').
    + intros i a0 b0 Ha0 Hb0.
      replace (S k + i)%nat with (k + S i)%nat in * by lia. now apply Hstep.
    + exists j, b'. split; [exact Hj|]. intros a0 Ha0. apply Hbad.
      now replace (k + S j)%nat with (S k + j)%nat by lia.
Qed.

Lemma zrange_lookup (lo hi : Z) (k : nat) :
  lo + Z.of_nat k < hi -> zrange lo hi !! k = Some (lo + Z.of_nat k).
Proof.
  intros Hk. unfold zrange. rewrite list_lookup_fmap.
  rewrite (lookup_seq_lt 0 (Z.to_nat (hi - lo)) k) by lia. reflexivity.
Qed.

Lemma in_grid_cells {C} (pe : PlaneExtractor C) (r c : Z) :
  In (r, c) (grid_cells pe)
  <-> 0 <= r < nr_vertical_cells_ pe /\ 0 <= c < nr_horizontal_cells_ pe.
Proof.
  unfold grid_cells. rewrite in_flat_map. split.
  - intros [r' [Hr Hin]]. apply in_map_iff in Hin. destruct Hin as [c' [Heq Hc]].
    inversion Heq; subst. apply in_zrange in Hr. apply in_zrange in Hc. lia.
  - intros [Hr Hc]. exists r. split; [now apply in_zrange|].
    apply in_map_iff. exists c. split; [reflexivity|]. now apply in_zrange.
Qed.

(** A property of the loop state that every turn preserves holds when
    the loop is over. *)
Lemma fold_left_preserves {A B} (P : A -> Prop) (f : A -> B -> A) (l : list B) (a : A) :
  P a -> (forall a b, In b l -> P a -> P (f a b)) -> P (fold_left f l a).
Proof.
  revert a. induction l as [|b l IH]; intros a Ha Hstep; simpl; [exact Ha|].
  apply IH.
  - apply Hstep; [now left|exact Ha].
  - intros a' b' Hin. apply Hstep. now right.
Qed.

(** ** The label image *)

Section Margin.
Context {C : Type} `{CellSegmentOps C}.

Implicit Type pe : PlaneExtractor C.

Lemma same_geometry_refl pe : same_geometry pe pe.
Proof. repeat split. Qed.

Lemma same_geometry_trans pe1 pe2 pe3 :
  same_geometry pe1 pe2 -> same_geometry pe2 pe3 -> same_geometry pe1 pe3.
Proof.
  unfold same_geometry. intros H12 H23.
  destruct H12 as (?&?&?&?&?&?&?), H23 as (?&?&?&?&?&?&?).
  repeat split; congruence.
Qed.

Lemma refineCells_geometry pe plane label mask pcd :
  same_geometry pe (refineCells pe plane label mask pcd).
Proof.
  unfold refineCells.
  destruct (fold_left _ (grid_cells pe) _) as [[seg dists] id].
  repeat split.
Qed.

Lemma refinePlane_geometry segs labels pcd st i st' :
  refinePlane segs labels pcd st i = Done st' -> same_geometry (fst st) (fst st').
Proof.
  destruct st as [pe n]. unfold refinePlane.
  destruct (negb _); [intros [= <-]; apply same_geometry_refl|].
  destruct (_ =? 0); [intros [= <-]; apply same_geometry_refl|].
  simpl. destruct (deref _ _) as [plane| | | |]; simpl; try discriminate.
  intros [= <-]. simpl.
  eapply same_geometry_trans; [|apply refineCells_geometry]. repeat split.
Qed.

Lemma refineLoop_geometry segs labels pcd ids : forall st st',
  refineLoop segs labels pcd ids st = Done st' -> same_geometry (fst st) (fst st').
Proof.
  induction ids as [|i ids IH]; intros st st'; simpl.
  - intros [= <-]. apply same_geometry_refl.
  - destruct (refinePlane segs labels pcd st i) as [st1| | | |] eqn:Hone;
      simpl; try discriminate.
    intros Hrest. eapply same_geometry_trans.
    + eapply refinePlane_geometry, Hone.
    + apply IH, Hrest.
Qed.

Lemma refinePlanes_geometry pe segs labels pcd pe' :
  refinePlanes pe segs labels pcd = Done pe' -> same_geometry pe pe'.
Proof.
  unfold refinePlanes.
  destruct (refineLoop _ _ _ _ _) as [st| | | |] eqn:Hloop; simpl; try discriminate.
  intros [= <-]. apply (refineLoop_geometry _ _ _ _ _ _ Hloop).
Qed.

Lemma well_sized_geometry pe pe' : same_geometry pe pe' -> well_sized pe -> well_sized pe'.
Proof.
  unfold same_geometry, well_sized. intros (Hc&Hw&Hh&_&_&Hih&Hiw) (?&?&?&?&?).
  rewrite Hc, Hw, Hh, Hih, Hiw. auto.
Qed.

(** The cells cover the top-left part of the image only. *)
Lemma covered_width pe :
  well_sized pe -> nr_horizontal_cells_ pe * patchSize (config_ pe) <= image_width_ pe.
Proof.
  intros (HP&_&HW&Hwc&_). rewrite Hwc, Z.quot_div_nonneg by lia.
  rewrite Z.mul_comm. apply Z.mul_div_le. lia.
Qed.

(** A pixel of the margin is not the target of a write in the
    covered part. *)
Lemma margin_index_apart pe (r c r' c' : Z) :
  well_sized pe ->
  0 <= r < nr_vertical_cells_ pe * patchSize (config_ pe) ->
  0 <= c < nr_horizontal_cells_ pe * patchSize (config_ pe) ->
  0 <= r' -> 0 <= c' < image_width_ pe ->
  nr_vertical_cells_ pe * patchSize (config_ pe) <= r'
  \/ nr_horizontal_cells_ pe * patchSize (config_ pe) <= c' ->
  r * image_width_ pe + c <> r' * image_width_ pe + c'.
Proof.
  intros Hws Hr Hc Hr' Hc' Hmargin Heq.
  pose proof (covered_width pe Hws) as Hcov.
  assert (r = r') by nia. subst r'.
  assert (c = c') by lia. lia.
Qed.

Lemma fillRect_elsewhere (width : Z) (out : list Z) (x y w h v k : Z) :
  (forall r c, y <= r < y + h -> x <= c < x + w -> r * width + c <> k) ->
  zget 0 (fillRect width out x y w h v) k = zget 0 out k.
Proof.
  intros Hapart. unfold fillRect.
  apply (fold_left_preserves (fun o => zget 0 o k = zget 0 out k)); [reflexivity|].
  intros o r Hr Ho.
  apply (fold_left_preserves (fun o => zget 0 o k = zget 0 out k)); [exact Ho|].
  intros o' c Hc Ho'. rewrite zget_zset_ne; [exact Ho'|].
  apply Hapart; now apply in_zrange.
Qed.

Lemma copyCell_elsewhere pe (out : list Z) (r0 r1 c0 c1 idx k : Z) :
  (forall r c, r0 <= r < r1 -> c0 <= c < c1 -> r * image_width_ pe + c <> k) ->
  zget 0 (copyCell pe out r0 r1 c0 c1 idx) k = zget 0 out k.
Proof.
  intros Hapart. unfold copyCell.
  apply (fold_left_preserves (fun st => zget 0 (fst st) k = zget 0 out k)); [reflexivity|].
  intros st r Hr Hst.
  apply (fold_left_preserves (fun st => zget 0 (fst st) k = zget 0 out k)); [exact Hst|].
  intros [o i] c Hc Ho. simpl in *.
  destruct (0 <? zget 0 (seg_map_stacked_ pe) i); simpl; [|exact Ho].
  rewrite zget_zset_ne; [exact Ho|].
  apply Hapart; now apply in_zrange.
Qed.

(** [toLabels] leaves the margin at the 0 it starts from. *)
Lemma toLabels_margin pe (r c : Z) :
  well_sized pe ->
  0 <= r < image_height_ pe -> 0 <= c < image_width_ pe ->
  nr_vertical_cells_ pe * patchSize (config_ pe) <= r
  \/ nr_horizontal_cells_ pe * patchSize (config_ pe) <= c ->
  pixel (toLabels pe) r c = 0.
Proof.
  intros Hws Hr Hc Hmargin. unfold pixel, toLabels. simpl.
  set (k := r * image_width_ pe + c).
  apply (fold_left_preserves (fun o => zget 0 o k = 0)).
  - apply zget_filled. unfold k. nia.
  - intros o [cell_r cell_c] Hin Ho. apply in_grid_cells in Hin.
    destruct Hws as (HP&?&?&?&?) eqn:Hws'. clear Hws'.
    assert (Hapart : forall r0 c0,
               cell_r * patchSize (config_ pe) <= r0
               < cell_r * patchSize (config_ pe) + patchSize (config_ pe) ->
               cell_c * patchSize (config_ pe) <= c0
               < cell_c * patchSize (config_ pe) + patchSize (config_ pe) ->
               r0 * image_width_ pe + c0 <> k).
    { intros r0 c0 Hr0 Hc0. apply (margin_index_apart pe); try lia; try nia.
      repeat split; assumption. }
    destruct (0 <? cell_at pe (grid_plane_seg_map_eroded_ pe) cell_r cell_c).
    + rewrite fillRect_elsewhere; [exact Ho|]. intros; now apply Hapart.
    + rewrite copyCell_elsewhere; [exact Ho|]. intros; now apply Hapart.
Qed.

(** Whatever the earlier stages left in the extractor, the label
    image that stage 6 of [process] emits is 0 at every pixel of the
    right and bottom margin: at row [r >= H_cells * P] or column
    [c >= W_cells * P].  With refinement the image is the one of
    [toLabels], which writes inside the cells only; without, the
    image has one pixel per cell and none in a margin. *)
Lemma emitLabels_margin_is_zero pe segs labels organized pe' im (r c : Z) :
  well_sized pe ->
  emitLabels pe segs labels organized = Done (pe', im) ->
  0 <= r < img_rows im -> 0 <= c < img_cols im ->
  nr_vertical_cells_ pe * patchSize (config_ pe) <= r
  \/ nr_horizontal_cells_ pe * patchSize (config_ pe) <= c ->
  pixel im r c = 0.
Proof.
  intros Hws Hemit Hr Hc Hmargin. unfold emitLabels in Hemit.
  destruct (doRefinement (config_ pe)).
  - destruct (refinePlanes pe segs labels organized) as [pe1| | | |] eqn:Href;
      simpl in Hemit; try discriminate.
    injection Hemit as <- <-.
    pose proof (refinePlanes_geometry _ _ _ _ _ Href) as Hgeo.
    pose proof (well_sized_geometry _ _ Hgeo Hws) as Hws1.
    destruct Hgeo as (Hcfg&Hwc&Hhc&_&_&Hih&Hiw).
    simpl in Hr, Hc.
    apply toLabels_margin; try assumption.
    rewrite Hcfg, Hwc, Hhc. exact Hmargin.
  - injection Hemit as <- <-. simpl in Hr, Hc.
    destruct Hws as (HP&_&_&_&_). nia.
Qed.
End Margin.

(** ** Region growing: the flood *)

Lemma bind_done {A B} (m : outcome A) (k : A -> outcome B) (b : B) :
  bind m k = Done b -> exists a, m = Done a /\ k a = Done b.
Proof. destruct m; simpl; try discriminate. intros Hk. eauto. Qed.

Lemma filter_length_mono {A} (p q : A -> bool) (l : list A) :
  (forall a, In a l -> p a = true -> q a = true) ->
  (length (List.filter p l) <= length (List.filter q l))%nat.
Proof.
  induction l as [|a l IH]; intros Hpq; simpl; [lia|].
  assert (IH' : (length (List.filter p l) <= length (List.filter q l))%nat).
  { apply IH. intros b Hb. apply Hpq. now right. }
  destruct (p a) eqn:Hp.
  - rewrite (Hpq a (or_introl eq_refl) Hp). simpl. lia.
  - destruct (q a); simpl; lia.
Qed.

Lemma filter_length_less {A} (p q : A -> bool) (l : list A) (a : A) :
  (forall b, In b l -> p b = true -> q b = true) ->
  In a l -> p a = false -> q a = true ->
  (length (List.filter p l) < length (List.filter q l))%nat.
Proof.
  induction l as [|b l IH]; intros Hpq Hin Hp Hq; [destruct Hin|].
  simpl. destruct Hin as [->|Hin].
  - rewrite Hp, Hq. simpl.
    pose proof (filter_length_mono p q l) as Hle.
    assert ((length (List.filter p l) <= length (List.filter q l))%nat).
    { apply Hle. intros c Hc. apply Hpq. now right. }
    lia.
  - assert ((length (List.filter p l) < length (List.filter q l))%nat).
    { apply IH; try assumption. intros c Hc. apply Hpq. now right. }
    destruct (p b) eqn:Hpb.
    + rewrite (Hpq b (or_introl eq_refl) Hpb). simpl. lia.
    + destruct (q b); simpl; lia.
Qed.

Section GrowSeedFacts.
Context {C : Type} `{CellSegmentOps C}.
Variable pe : PlaneExtractor C.
Variable tols : list Q.
Variable U : Z.
Hypothesis Hshape : grid_shaped pe.

Lemma index_in_range (x y : Z) :
  in_grid pe x y -> 0 <= x + nr_horizontal_cells_ pe * y < nr_total_cells_ pe.
Proof. destruct Hshape as (HN&HW&HH). unfold in_grid. rewrite HN. nia. Qed.

Lemma left_in_grid x y : in_grid pe x y -> (0 <? x) = true -> in_grid pe (x - 1) y.
Proof. unfold in_grid. lia. Qed.

Lemma right_in_grid x y :
  in_grid pe x y -> (x <? nr_horizontal_cells_ pe - 1) = true -> in_grid pe (x + 1) y.
Proof. unfold in_grid. lia. Qed.

Lemma up_in_grid x y : in_grid pe x y -> (0 <? y) = true -> in_grid pe x (y - 1).
Proof. unfold in_grid. lia. Qed.

Lemma down_in_grid x y :
  in_grid pe x y -> (y <? nr_vertical_cells_ pe - 1) = true -> in_grid pe x (y + 1).
Proof. unfold in_grid. lia. Qed.

(** What a returning call of [growSeed] has done. *)
Lemma growSeed_returns fuel x y prev fl fl' :
  growSeed (S fuel) pe x y prev U fl tols = Done fl' ->
  let index := x + nr_horizontal_cells_ pe * y in
  index < nr_total_cells_ pe /\
  ((Z.testbit U index = false \/ Z.testbit (activation_map fl) index = true) /\
   fl' = log_call x y prev fl
   \/ exists parent cand,
        Z.testbit U index = true /\ Z.testbit (activation_map fl) index = false /\
        deref (cell_grid_ pe) prev = Done parent /\
        deref (cell_grid_ pe) index = Done cand /\
        (incompatible pe tols parent cand index = true /\ fl' = log_call x y prev fl
         \/ incompatible pe tols parent cand index = false /\
            floods_neighbours fuel pe x y index U tols
              (activate index (log_call x y prev fl)) fl')).
Proof.
  intros Hrun index. simpl in Hrun. fold index in Hrun.
  destruct (nr_total_cells_ pe <=? index) eqn:Hge; [discriminate|].
  split; [lia|].
  destruct (Z.testbit U index) eqn:HU; simpl in Hrun.
  2:{ left. split; [now left|]. now injection Hrun as <-. }
  destruct (Z.testbit (activation_map fl) index) eqn:Hact; simpl in Hrun.
  { left. split; [now right|]. now injection Hrun as <-. }
  right.
  destruct (deref (cell_grid_ pe) prev) as [parent| | | |]; simpl in Hrun; try discriminate.
  destruct (deref (cell_grid_ pe) index) as [cand| | | |]; simpl in Hrun; try discriminate.
  exists parent, cand. repeat (split; [reflexivity|]).
  destruct (incompatible pe tols parent cand index).
  { left. split; [reflexivity|]. now injection Hrun as <-. }
  right. split; [reflexivity|].
  apply bind_done in Hrun. destruct Hrun as [fl1 [H1 Hrun]].
  apply bind_done in Hrun. destruct Hrun as [fl2 [H2 Hrun]].
  apply bind_done in Hrun. destruct Hrun as [fl3 [H3 H4]].
  exists fl1, fl2, fl3. auto.
Qed.

(** Conversely, the result of a call that activates its cell. *)
Lemma growSeed_activating fuel x y prev fl fl' parent cand :
  let index := x + nr_horizontal_cells_ pe * y in
  index < nr_total_cells_ pe ->
  Z.testbit U index = true -> Z.testbit (activation_map fl) index = false ->
  deref (cell_grid_ pe) prev = Done parent ->
  deref (cell_grid_ pe) index = Done cand ->
  incompatible pe tols parent cand index = false ->
  floods_neighbours fuel pe x y index U tols (activate index (log_call x y prev fl)) fl' ->
  growSeed (S fuel) pe x y prev U fl tols = Done fl'.
Proof.
  intros index Hlt HU Hact Hp Hc Hinc (fl1&fl2&fl3&H1&H2&H3&H4).
  simpl. fold index.
  destruct (nr_total_cells_ pe <=? index) eqn:Hge; [lia|].
  rewrite HU, Hact. simpl. rewrite Hp, Hc. simpl. rewrite Hinc.
  rewrite H1. simpl. rewrite H2. simpl. rewrite H3. simpl. exact H4.
Qed.

(** A property of the flood state that logging an in-grid call and
    activating an unassigned cell preserve holds after [growSeed]. *)
Lemma growSeed_invariant (P : Flood -> Prop) :
  (forall x y prev fl, in_grid pe x y -> P fl -> P (log_call x y prev fl)) ->
  (forall index fl,
      0 <= index < nr_total_cells_ pe ->
      Z.testbit U index = true -> Z.testbit (activation_map fl) index = false ->
      P fl -> P (activate index fl)) ->
  forall fuel x y prev fl fl',
    in_grid pe x y -> P fl -> growSeed fuel pe x y prev U fl tols = Done fl' -> P fl'.
Proof.
  intros Hlog Hset. induction fuel as [|fuel IH]; intros x y prev fl fl' Hxy HP Hrun;
    [discriminate|].
  pose proof (index_in_range x y Hxy) as Hidx.
  apply growSeed_returns in Hrun. destruct Hrun as [_ Hrun].
  destruct Hrun as [[_ ->]|(parent&cand&HU&Hact&_&_&[[_ ->]|[_ Hn]])];
    [now apply Hlog|now apply Hlog|].
  destruct Hn as (fl1&fl2&fl3&H1&H2&H3&H4).
  assert (P0 : P (activate (x + nr_horizontal_cells_ pe * y) (log_call x y prev fl))).
  { apply Hset; try assumption. now apply Hlog. }
  assert (P1 : P fl1).
  { destruct (0 <? x) eqn:Hc; [|now injection H1 as <-].
    eapply IH; [|exact P0|exact H1]. now apply left_in_grid. }
  assert (P2 : P fl2).
  { destruct (x <? nr_horizontal_cells_ pe - 1) eqn:Hc; [|now injection H2 as <-].
    eapply IH; [|exact P1|exact H2]. now apply right_in_grid. }
  assert (P3 : P fl3).
  { destruct (0 <? y) eqn:Hc; [|now injection H3 as <-].
    eapply IH; [|exact P2|exact H3]. now apply up_in_grid. }
  destruct (y <? nr_vertical_cells_ pe - 1) eqn:Hc; [|now injection H4 as <-].
  eapply IH; [|exact P3|exact H4]. now apply down_in_grid.
Qed.

Lemma growSeed_no_throw fuel : forall x y prev fl,
  in_grid pe x y -> no_throw (growSeed fuel pe x y prev U fl tols).
Proof.
  induction fuel as [|fuel IH]; intros x y prev fl Hxy e; [discriminate|].
  pose proof (index_in_range x y Hxy) as Hidx.
  simpl.
  destruct (nr_total_cells_ pe <=? x + nr_horizontal_cells_ pe * y) eqn:Hge; [lia|].
  destruct (negb _ || _); [discriminate|].
  unfold deref.
  destruct (zget None (cell_grid_ pe) prev); simpl; try discriminate.
  destruct (zget None (cell_grid_ pe) _); simpl; try discriminate.
  destruct (incompatible _ _ _ _ _); [discriminate|].
  set (fl0 := activate _ _).
  assert (Hstep : forall (b : bool) x' y' (fl1 : Flood) (k : Flood -> outcome Flood),
             (b = true -> in_grid pe x' y') ->
             (forall fl2, no_throw (k fl2)) ->
             no_throw (bind (if b then growSeed fuel pe x' y'
                                        (x + nr_horizontal_cells_ pe * y) U fl1 tols
                             else Done fl1) k)).
  { intros b x' y' fl1 k Hc Hk e'. destruct b.
    - destruct (growSeed fuel pe x' y' _ U fl1 tols) eqn:Hr; simpl; try discriminate.
      + apply Hk.
      + exfalso. eapply IH; [|exact Hr]. now apply Hc.
    - simpl. apply Hk. }
  apply Hstep; [intros; now apply left_in_grid|]. intros fl1.
  apply Hstep; [intros; now apply right_in_grid|]. intros fl2.
  apply Hstep; [intros; now apply up_in_grid|]. intros fl3 e'.
  destruct (y <? nr_vertical_cells_ pe - 1) eqn:Hc; [|discriminate].
  apply IH. now apply down_in_grid.
Qed.

Lemma growSeed_calls_in_grid fuel x y prev fl fl' :
  in_grid pe x y -> Forall (call_in_grid pe) (calls fl) ->
  growSeed fuel pe x y prev U fl tols = Done fl' ->
  Forall (call_in_grid pe) (calls fl').
Proof.
  apply (growSeed_invariant (fun fl => Forall (call_in_grid pe) (calls fl))).
  - intros x0 y0 prev0 fl0 Hxy HP. simpl. constructor; [|exact HP].
    split; [exact Hxy|]. now apply index_in_range.
  - intros index fl0 _ _ _ HP. exact HP.
Qed.

(** A flood only adds cells to the activation map, and the cells it
    adds are unassigned cells of the grid. *)
Lemma growSeed_activation fuel x y prev fl fl' :
  in_grid pe x y ->
  growSeed fuel pe x y prev U fl tols = Done fl' ->
  bits_sub (activation_map fl) (activation_map fl') /\
  (forall i, Z.testbit (activation_map fl') i = true ->
             Z.testbit (activation_map fl) i = true
             \/ (Z.testbit U i = true /\ 0 <= i < nr_total_cells_ pe)).
Proof.
  intros Hxy.
  apply (growSeed_invariant
           (fun f => bits_sub (activation_map fl) (activation_map f) /\
                     (forall i, Z.testbit (activation_map f) i = true ->
                                Z.testbit (activation_map fl) i = true
                                \/ (Z.testbit U i = true /\ 0 <= i < nr_total_cells_ pe))));
    try assumption.
  - intros x0 y0 prev0 fl0 _ HP. exact HP.
  - intros index fl0 Hidx HU _ [Hsub Hnew]. simpl. split.
    + intros i Hi. rewrite Z.setbit_eqb by lia. rewrite (Hsub i Hi). apply orb_true_r.
    + intros i Hi. rewrite Z.setbit_eqb in Hi by lia.
      apply orb_true_iff in Hi. destruct Hi as [Hi|Hi]; [|now apply Hnew].
      apply Z.eqb_eq in Hi. subst i. right. auto.
  - split; [intros i Hi; exact Hi|]. intros i Hi. now left.
Qed.

Lemma unclaimed_mono (a b : Z) : bits_sub a b -> (unclaimed pe U b <= unclaimed pe U a)%nat.
Proof.
  intros Hsub. unfold unclaimed. apply filter_length_mono.
  intros i _ Hi. apply andb_true_iff in Hi. destruct Hi as [HU Hb].
  rewrite HU. simpl. destruct (Z.testbit a i) eqn:Ha; [|reflexivity].
  rewrite (Hsub i Ha) in Hb. discriminate.
Qed.

Lemma unclaimed_activate (a index : Z) :
  0 <= index < nr_total_cells_ pe ->
  Z.testbit U index = true -> Z.testbit a index = false ->
  (unclaimed pe U (Z.setbit a index) < unclaimed pe U a)%nat.
Proof.
  intros Hidx HU Ha. unfold unclaimed. apply (filter_length_less _ _ _ index).
  - intros i _ Hi. apply andb_true_iff in Hi. destruct Hi as [HUi Hb].
    rewrite HUi. simpl. rewrite Z.setbit_eqb in Hb by lia.
    destruct (Z.testbit a i); [|reflexivity].
    rewrite orb_true_r in Hb. discriminate.
  - now apply in_zrange.
  - rewrite Z.setbit_eq by lia. rewrite HU. reflexivity.
  - rewrite HU, Ha. reflexivity.
Qed.

Lemma unclaimed_bound (a : Z) : (unclaimed pe U a <= Z.to_nat (nr_total_cells_ pe))%nat.
Proof.
  unfold unclaimed. etransitivity; [apply List.filter_length_le|].
  unfold zrange. rewrite length_map, length_seq. lia.
Qed.

(** More fuel does not change the result of a call that returned. *)
Lemma growSeed_more_fuel fuel : forall x y prev fl fl',
  growSeed fuel pe x y prev U fl tols = Done fl' ->
  growSeed (S fuel) pe x y prev U fl tols = Done fl'.
Proof.
  induction fuel as [|fuel IH]; intros x y prev fl fl' Hrun; [discriminate|].
  pose proof (growSeed_returns _ _ _ _ _ _ Hrun) as [Hlt Hcases].
  destruct Hcases as [[Hskip ->]|(parent&cand&HU&Hact&Hp&Hc&[[Hinc ->]|[Hinc Hn]])].
  - clear Hrun. simpl.
    destruct (nr_total_cells_ pe <=? x + nr_horizontal_cells_ pe * y) eqn:Hge; [lia|].
    destruct Hskip as [-> | ->]; simpl; [reflexivity|]. now rewrite orb_true_r.
  - clear Hrun. simpl.
    destruct (nr_total_cells_ pe <=? x + nr_horizontal_cells_ pe * y) eqn:Hge; [lia|].
    rewrite HU, Hact. simpl. rewrite Hp, Hc. simpl. now rewrite Hinc.
  - eapply growSeed_activating; try eassumption.
    destruct Hn as (fl1&fl2&fl3&H1&H2&H3&H4). exists fl1, fl2, fl3.
    repeat split.
    + destruct (0 <? x); [now apply IH|exact H1].
    + destruct (x <? nr_horizontal_cells_ pe - 1); [now apply IH|exact H2].
    + destruct (0 <? y); [now apply IH|exact H3].
    + destruct (y <? nr_vertical_cells_ pe - 1); [now apply IH|exact H4].
Qed.

Lemma growSeed_fuel_irrelevant fuel fuel' x y prev fl fl' :
  (fuel <= fuel')%nat ->
  growSeed fuel pe x y prev U fl tols = Done fl' ->
  growSeed fuel' pe x y prev U fl tols = Done fl'.
Proof.
  induction 1 as [|fuel' _ IH]; intros Hrun; [exact Hrun|].
  now apply growSeed_more_fuel, IH.
Qed.

(** With more fuel than there are cells left to activate, [growSeed]
    returns. *)
Lemma growSeed_terminates (Hcells : cells_present pe) fuel : forall x y prev fl,
  in_grid pe x y -> 0 <= prev < nr_total_cells_ pe ->
  (unclaimed pe U (activation_map fl) < fuel)%nat ->
  exists fl', growSeed fuel pe x y prev U fl tols = Done fl'.
Proof.
  induction fuel as [|fuel IH]; intros x y prev fl Hxy Hprev Hfuel; [lia|].
  pose proof (index_in_range x y Hxy) as Hidx.
  set (index := x + nr_horizontal_cells_ pe * y) in *.
  assert (Hskip : Z.testbit U index = false \/ Z.testbit (activation_map fl) index = true ->
                  growSeed (S fuel) pe x y prev U fl tols = Done (log_call x y prev fl)).
  { intros Hs. simpl. fold index.
    destruct (nr_total_cells_ pe <=? index) eqn:Hge; [lia|].
    destruct Hs as [-> | ->]; simpl; [reflexivity|]. now rewrite orb_true_r. }
  destruct (Z.testbit U index) eqn:HU; [|eexists; apply Hskip; now left].
  destruct (Z.testbit (activation_map fl) index) eqn:Hact;
    [eexists; apply Hskip; now right|].
  clear Hskip.
  assert (Hderef : forall i, 0 <= i < nr_total_cells_ pe ->
                             exists c, deref (cell_grid_ pe) i = Done c).
  { intros i Hi. unfold deref. specialize (Hcells i Hi).
    destruct (zget None (cell_grid_ pe) i) as [c|]; [eauto|congruence]. }
  destruct (Hderef prev Hprev) as [parent Hp].
  destruct (Hderef index Hidx) as [cand Hc].
  destruct (incompatible pe tols parent cand index) eqn:Hinc.
  { exists (log_call x y prev fl). simpl. fold index.
    destruct (nr_total_cells_ pe <=? index) eqn:Hge; [lia|].
    rewrite HU, Hact. simpl. rewrite Hp, Hc. simpl. now rewrite Hinc. }
  set (fl0 := activate index (log_call x y prev fl)).
  assert (Hm0 : (unclaimed pe U (activation_map fl0) < fuel)%nat).
  { pose proof (unclaimed_activate (activation_map fl) index Hidx HU Hact).
    simpl. lia. }
  assert (Hvisit : forall (c : bool) x' y' (f : Flood),
             (c = true -> in_grid pe x' y') ->
             (unclaimed pe U (activation_map f) < fuel)%nat ->
             exists f', (if c then growSeed fuel pe x' y' index U f tols else Done f)
                        = Done f'
                        /\ (unclaimed pe U (activation_map f') < fuel)%nat).
  { intros c x' y' f Hin Hm. destruct c; [|eauto].
    destruct (IH x' y' index f (Hin eq_refl) Hidx Hm) as [f' Hf'].
    exists f'. split; [exact Hf'|].
    destruct (growSeed_activation _ _ _ _ _ _ (Hin eq_refl) Hf') as [Hsub _].
    pose proof (unclaimed_mono _ _ Hsub). lia. }
  destruct (Hvisit (0 <? x) (x - 1) y fl0) as (fl1&H1&Hm1);
    [intros; now apply left_in_grid|exact Hm0|].
  destruct (Hvisit (x <? nr_horizontal_cells_ pe - 1) (x + 1) y fl1) as (fl2&H2&Hm2);
    [intros; now apply right_in_grid|exact Hm1|].
  destruct (Hvisit (0 <? y) x (y - 1) fl2) as (fl3&H3&Hm3);
    [intros; now apply up_in_grid|exact Hm2|].
  destruct (Hvisit (y <? nr_vertical_cells_ pe - 1) x (y + 1) fl3) as (fl4&H4&Hm4);
    [intros; now apply down_in_grid|exact Hm3|].
  exists fl4. eapply growSeed_activating; try eassumption; [lia|].
  exists fl1, fl2, fl3. auto.
Qed.

Lemma growSeed_full_depth (Hcells : cells_present pe) x y prev fl :
  in_grid pe x y -> 0 <= prev < nr_total_cells_ pe ->
  exists fl', growSeed (grow_depth pe) pe x y prev U fl tols = Done fl'.
Proof.
  intros Hxy Hprev. apply growSeed_terminates; try assumption.
  pose proof (unclaimed_bound (activation_map fl)). unfold grow_depth. lia.
Qed.
End GrowSeedFacts.

Section FloodProperties.
Context {C : Type} `{CellSegmentOps C}.
Variable pe : PlaneExtractor C.
Variable tols : list Q.
Variable U : Z.

Lemma incompatible_false (parent cand : C) (index : Z) :
  incompatible pe tols parent cand index = false <-> compatible pe tols parent cand index.
Proof.
  unfold incompatible, compatible, Qltb.
  rewrite orb_false_iff, !negb_false_iff, !Qle_bool_iff. reflexivity.
Qed.

Lemma floods_neighbours_sub fuel x y fl0 fl' :
  grid_shaped pe -> in_grid pe x y ->
  floods_neighbours fuel pe x y (x + nr_horizontal_cells_ pe * y) U tols fl0 fl' ->
  bits_sub (activation_map fl0) (activation_map fl').
Proof.
  intros Hshape Hxy (fl1&fl2&fl3&H1&H2&H3&H4).
  assert (Hvisit : forall (b : bool) x' y' f f',
             (b = true -> in_grid pe x' y') ->
             (if b then growSeed fuel pe x' y' (x + nr_horizontal_cells_ pe * y) U f tols
              else Done f) = Done f' ->
             bits_sub (activation_map f) (activation_map f')).
  { intros b x' y' f f' Hin Hrun. destruct b.
    - eapply growSeed_activation; [exact Hshape|now apply Hin|exact Hrun].
    - injection Hrun as <-. intros i Hi. exact Hi. }
  intros i Hi.
  eapply (Hvisit _ _ _ _ _ (down_in_grid pe x y Hxy) H4).
  eapply (Hvisit _ _ _ _ _ (up_in_grid pe x y Hxy) H3).
  eapply (Hvisit _ _ _ _ _ (right_in_grid pe x y Hxy) H2).
  eapply (Hvisit _ _ _ _ _ (left_in_grid pe x y Hxy) H1).
  exact Hi.
Qed.

Lemma floods_neighbours_more_fuel fuel x y index fl0 fl' :
  floods_neighbours fuel pe x y index U tols fl0 fl' ->
  floods_neighbours (S fuel) pe x y index U tols fl0 fl'.
Proof.
  intros (fl1&fl2&fl3&H1&H2&H3&H4). exists fl1, fl2, fl3. repeat split.
  - destruct (0 <? x); [now apply growSeed_more_fuel|exact H1].
  - destruct (x <? nr_horizontal_cells_ pe - 1); [now apply growSeed_more_fuel|exact H2].
  - destruct (0 <? y); [now apply growSeed_more_fuel|exact H3].
  - destruct (y <? nr_vertical_cells_ pe - 1); [now apply growSeed_more_fuel|exact H4].
Qed.

(** C8.  A call of [growSeed] at cell [c = (x, y)] with parent [p]
    returns, and it activates [c] exactly when [c] is unassigned, not
    yet activated in this flood, and compatible with [p]: the
    normals satisfy [n_p . n_c >= minCosAngleForMerge] and the
    squared distance [(n_p . m_c + d_p)^2] is at most [tol[c]].  In
    that case the flood goes on to the left, right, upper and lower
    neighbour of [c], in this order, with [c] as the parent;
    otherwise the call changes nothing but the call log. *)
Theorem C8_growSeed_activates_compatible_cells (fl : Flood) (x y prev : Z) :
  grid_shaped pe -> cells_present pe ->
  in_grid pe x y -> 0 <= prev < nr_total_cells_ pe ->
  let index := x + nr_horizontal_cells_ pe * y in
  exists parent cand fl',
    deref (cell_grid_ pe) prev = Done parent /\
    deref (cell_grid_ pe) index = Done cand /\
    growSeed (grow_depth pe) pe x y prev U fl tols = Done fl' /\
    let passes :=
      Z.testbit U index = true /\ Z.testbit (activation_map fl) index = false /\
      compatible pe tols parent cand index in
    (Z.testbit (activation_map fl') index = true
     /\ Z.testbit (activation_map fl) index = false <-> passes) /\
    (passes ->
     floods_neighbours (grow_depth pe) pe x y index U tols
       (activate index (log_call x y prev fl)) fl') /\
    (~ passes -> fl' = log_call x y prev fl).
Proof.
  intros Hshape Hcells Hxy Hprev index.
  pose proof (index_in_range pe Hshape x y Hxy) as Hidx. fold index in Hidx.
  assert (Hderef : forall i, 0 <= i < nr_total_cells_ pe ->
                             exists c, deref (cell_grid_ pe) i = Done c).
  { intros i Hi. unfold deref. specialize (Hcells i Hi).
    destruct (zget None (cell_grid_ pe) i) as [c|]; [eauto|congruence]. }
  destruct (Hderef prev Hprev) as [parent Hp].
  destruct (Hderef index Hidx) as [cand Hc].
  destruct (growSeed_full_depth pe tols U Hshape Hcells x y prev fl Hxy Hprev)
    as [fl' Hrun].
  exists parent, cand, fl'. repeat (split; [assumption|]).
  unfold grow_depth in *.
  pose proof (growSeed_returns _ _ _ _ _ _ _ _ _ Hrun) as [_ Hcases].
  fold index in Hcases.
  destruct Hcases as [[Hskip ->]|(parent'&cand'&HU&Hact&Hp'&Hc'&Hcases)].
  - cbv zeta. split; [split|split].
    + simpl. intros [Hset Hunset]. congruence.
    + intros (HU&Hact&_). destruct Hskip; congruence.
    + intros (HU&Hact&_). destruct Hskip; congruence.
    + reflexivity.
  - rewrite Hp in Hp'. rewrite Hc in Hc'.
    injection Hp' as <-. injection Hc' as <-.
    destruct Hcases as [[Hinc ->]|[Hinc Hn]].
    + assert (Hno : ~ compatible pe tols parent cand index).
      { rewrite <- incompatible_false. congruence. }
      cbv zeta. split; [split|split].
      * simpl. intros [Hset Hunset]. congruence.
      * intros (_&_&Hcomp). contradiction.
      * intros (_&_&Hcomp). contradiction.
      * reflexivity.
    + apply incompatible_false in Hinc.
      cbv zeta. split; [split|split].
      * intros _. auto.
      * intros _. split; [|exact Hact].
        apply (floods_neighbours_sub _ _ _ _ _ Hshape Hxy Hn).
        simpl. apply Z.setbit_eq. lia.
      * intros _. now apply floods_neighbours_more_fuel.
      * intros Hno. exfalso. apply Hno. auto.
Qed.

(** C10.  Started by [createPlaneSegments] from a seed index in
    [[0, N_cells)], at [x = seed % W_cells] and [y = seed / W_cells],
    every call of [growSeed] in the recursion receives coordinates
    with [0 <= x < W_cells] and [0 <= y < H_cells], its linear index
    is below [N_cells], and the call never throws; with all cells
    present the flood returns. *)
Theorem C10_growSeed_stays_in_grid (seed : Z) (fuel : nat) :
  grid_shaped pe ->
  0 <= seed < nr_total_cells_ pe ->
  let x := Z.rem seed (nr_horizontal_cells_ pe) in
  let y := seed ÷ nr_horizontal_cells_ pe in
  let start := {| activation_map := 0; calls := [] |} in
  in_grid pe x y /\
  no_throw (growSeed fuel pe x y seed U start tols) /\
  (forall fl, growSeed fuel pe x y seed U start tols = Done fl ->
              Forall (call_in_grid pe) (calls fl)) /\
  (cells_present pe ->
   exists fl, growSeed (grow_depth pe) pe x y seed U start tols = Done fl /\
              Forall (call_in_grid pe) (calls fl)).
Proof.
  intros Hshape Hseed x y start.
  assert (Hxy : in_grid pe x y).
  { destruct Hshape as (HN&HW&HH). unfold in_grid, x, y.
    assert (0 < nr_horizontal_cells_ pe) by nia.
    rewrite Z.rem_mod_nonneg, Z.quot_div_nonneg by lia.
    pose proof (Z.mod_pos_bound seed (nr_horizontal_cells_ pe) ltac:(lia)).
    pose proof (Z.div_pos seed (nr_horizontal_cells_ pe) ltac:(lia) ltac:(lia)).
    assert (seed / nr_horizontal_cells_ pe < nr_vertical_cells_ pe).
    { apply Z.div_lt_upper_bound; lia. }
    lia. }
  split; [exact Hxy|].
  split; [now apply growSeed_no_throw|].
  split.
  - intros fl Hrun.
    eapply growSeed_calls_in_grid; [exact Hshape|exact Hxy| |exact Hrun]. constructor.
  - intros Hcells.
    destruct (growSeed_full_depth pe tols U Hshape Hcells x y seed start Hxy Hseed)
      as [fl Hrun].
    exists fl. split; [exact Hrun|].
    eapply growSeed_calls_in_grid; [exact Hshape|exact Hxy| |exact Hrun]. constructor.
Qed.
End FloodProperties.

(** ** Instances on concrete frames *)

Lemma cells_present_check {C} (pe : PlaneExtractor C) :
  forallb (fun i => match zget None (cell_grid_ pe) i with Some _ => true | None => false end)
    (zrange 0 (nr_total_cells_ pe)) = true ->
  cells_present pe.
Proof.
  intros Hall i Hi. rewrite forallb_forall in Hall.
  specialize (Hall i (proj2 (in_zrange _ _ _) Hi)).
  destruct (zget None (cell_grid_ pe) i); [discriminate|discriminate].
Qed.

Lemma emitLabels_margin_example :
  exists pe' im,
    emitLabels frame_M [0; 7] [0; 1] cloud_A = Done (pe', im) /\
    pixel im 4 3 = 0 /\ pixel im 1 16 = 0.
Proof.
  eexists. eexists. split; [vm_compute; reflexivity|].
  split.
  - eapply (emitLabels_margin_is_zero frame_M [0; 7] [0; 1] cloud_A).
    + repeat split; vm_compute; congruence.
    + vm_compute. reflexivity.
    + vm_compute. split; congruence.
    + vm_compute. split; congruence.
    + left. vm_compute. congruence.
  - eapply (emitLabels_margin_is_zero frame_M [0; 7] [0; 1] cloud_A).
    + repeat split; vm_compute; congruence.
    + vm_compute. reflexivity.
    + vm_compute. split; congruence.
    + vm_compute. split; congruence.
    + right. vm_compute. congruence.
Defined.

Lemma C8_growSeed_activates_compatible_cells_witness :
  exists fl',
    growSeed (grow_depth frame_A) frame_A 3 0 2 all_unassigned
      {| activation_map := 0; calls := [] |} tols_2x8 = Done fl' /\
    Z.testbit (activation_map fl') 3 = true.
Proof.
  destruct (C8_growSeed_activates_compatible_cells frame_A tols_2x8 all_unassigned
              {| activation_map := 0; calls := [] |} 3 0 2)
    as (parent&cand&fl'&Hp&Hc&Hrun&Hiff&_).
  - repeat split; vm_compute; congruence.
  - apply cells_present_check. vm_compute. reflexivity.
  - vm_compute. repeat split; congruence.
  - vm_compute. split; congruence.
  - exists fl'. split; [exact Hrun|].
    apply Hiff. vm_compute in Hp, Hc.
    injection Hp as <-. injection Hc as <-.
    repeat split; vm_compute; congruence.
Defined.

Lemma C10_growSeed_stays_in_grid_witness :
  no_throw (growSeed 17 frame_A 3 1 11 all_unassigned
              {| activation_map := 0; calls := [] |} tols_2x8)
  /\ exists fl,
       growSeed (grow_depth frame_A) frame_A 3 1 11 all_unassigned
         {| activation_map := 0; calls := [] |} tols_2x8 = Done fl
       /\ Forall (call_in_grid frame_A) (calls fl).
Proof.
  destruct (C10_growSeed_stays_in_grid frame_A tols_2x8 all_unassigned 11 17)
    as (_&Hsafe&_&Hruns).
  - repeat split; vm_compute; congruence.
  - vm_compute. split; congruence.
  - split; [exact Hsafe|]. apply Hruns.
    apply cells_present_check. vm_compute. reflexivity.
Defined.

(** ** Seed selection *)

Lemma Qltb_lt (a b : Q) : Qltb a b = true <-> (a < b)%Q.
Proof.
  unfold Qltb. rewrite negb_true_iff. split.
  - intros Hle. apply Qnot_le_lt. intros Hba.
    apply Qle_bool_iff in Hba. congruence.
  - intros Hlt. destruct (Qle_bool b a) eqn:Hle; [|reflexivity].
    apply Qle_bool_iff in Hle. exfalso. now apply (Qlt_not_le _ _ Hlt).
Qed.

Lemma Qltb_ge (a b : Q) : Qltb a b = false <-> (b <= a)%Q.
Proof. unfold Qltb. rewrite negb_false_iff. apply Qle_bool_iff. Qed.

Lemma zrange_sorted (lo hi : Z) : StronglySorted Z.lt (zrange lo hi).
Proof.
  unfold zrange. generalize (Z.to_nat (hi - lo)) as n. intros n.
  assert (Hgen : forall start, StronglySorted Z.lt (map (fun k => lo + Z.of_nat k) (seq start n))).
  { induction n as [|n IH]; intros start; simpl; constructor; [apply IH|].
    apply List.Forall_forall. intros z Hz. apply in_map_iff in Hz.
    destruct Hz as [k [<- Hk]]. apply in_seq in Hk. lia. }
  apply Hgen.
Qed.

Lemma filter_sorted (p : Z -> bool) (l : list Z) :
  StronglySorted Z.lt l -> StronglySorted Z.lt (List.filter p l).
Proof.
  induction 1 as [|a l Hl IH Ha]; simpl; [constructor|].
  destruct (p a); [|exact IH]. constructor; [exact IH|].
  apply List.Forall_forall. intros z Hz. apply filter_In in Hz.
  rewrite List.Forall_forall in Ha. now apply Ha.
Qed.

Lemma sorted_split (l1 l2 : list Z) (s : Z) :
  StronglySorted Z.lt (l1 ++ s :: l2) ->
  (forall c, In c l1 -> c < s) /\ (forall c, In c l2 -> s < c).
Proof.
  induction l1 as [|a l1 IH]; simpl; intros Hs; inversion Hs as [|? ? Hrest Hall]; subst.
  - split; [intros c []|]. rewrite List.Forall_forall in Hall. exact Hall.
  - destruct (IH Hrest) as [Hl Hr]. split; [|exact Hr].
    intros c [<-|Hc]; [|now apply Hl].
    rewrite List.Forall_forall in Hall. apply Hall. apply in_or_app. right. now left.
Qed.

(** The candidates of a seed come in ascending order of cell index. *)
Lemma candidates_ascending (h : Histogram) :
  StronglySorted Z.lt (getPointsFromMostFrequentBin h).
Proof.
  unfold getPointsFromMostFrequentBin.
  destruct (0 <? _); [|constructor]. apply filter_sorted, zrange_sorted.
Qed.

Section SeedSelection.
Context {C : Type} `{CellSegmentOps C}.
Variable cells : list (option C).

(** The loop of the seed selection keeps the first candidate whose
    error is strictly below the running minimum and below that of the
    candidates before it, and not above that of the candidates after
    it; or it keeps its initial [seed_id], when no candidate is below
    the initial minimum. *)
Lemma selectSeed_result (cands : list Z) : forall seed0 min0 r,
  selectSeed cells cands seed0 min0 = Done r ->
  (r = seed0 /\ Forall (error_of cells Qle min0) cands)
  \/ exists l1 s l2 cell_s,
      cands = l1 ++ s :: l2 /\ r = Some s /\
      deref cells s = Done cell_s /\ (getMSE cell_s < min0)%Q /\
      Forall (error_of cells Qlt (getMSE cell_s)) l1 /\
      Forall (error_of cells Qle (getMSE cell_s)) l2.
Proof.
  induction cands as [|c cands IH]; intros seed0 min0 r Hsel; simpl in Hsel.
  - left. injection Hsel as <-. split; [reflexivity|constructor].
  - apply bind_done in Hsel. destruct Hsel as [cell [Hc Hsel]].
    destruct (Qltb (getMSE cell) min0) eqn:Hlt.
    + apply Qltb_lt in Hlt. right.
      destruct (IH _ _ _ Hsel) as [[-> Hall]|(l1&s&l2&cs&->&->&Hs&Hlts&H1&H2)].
      * exists [], c, cands, cell. repeat split; try assumption. constructor.
      * exists (c :: l1), s, l2, cs. repeat split; try assumption.
        -- now apply (Qlt_trans _ (getMSE cell)).
        -- constructor; [|exact H1]. exists cell. auto.
    + apply Qltb_ge in Hlt.
      destruct (IH _ _ _ Hsel) as [[-> Hall]|(l1&s&l2&cs&->&->&Hs&Hlts&H1&H2)].
      * left. split; [reflexivity|]. constructor; [|exact Hall]. exists cell. auto.
      * right. exists (c :: l1), s, l2, cs. repeat split; try assumption.
        constructor; [|exact H1]. exists cell. split; [exact Hc|].
        now apply (Qlt_le_trans _ min0).
Qed.

(** When the selection yields a seed, it is the candidate of the
    most-populous bin with the smallest fit error, and among several
    candidates with that error the one with the smallest index. *)
Lemma seed_is_first_least_error (h : Histogram) (seed_id : Z) :
  selectSeed cells (getPointsFromMostFrequentBin h) None (inject_Z INT_MAX)
  = Done (Some seed_id) ->
  In seed_id (getPointsFromMostFrequentBin h) /\
  exists cell_s,
    deref cells seed_id = Done cell_s /\
    forall c, In c (getPointsFromMostFrequentBin h) ->
      exists cell_c, deref cells c = Done cell_c /\
        (getMSE cell_s <= getMSE cell_c)%Q /\
        (c < seed_id -> (getMSE cell_s < getMSE cell_c)%Q).
Proof.
  intros Hsel. pose proof (candidates_ascending h) as Hsorted.
  destruct (selectSeed_result _ _ _ _ Hsel)
    as [[Hnone _]|(l1&s&l2&cs&Hsplit&Hs&Hcs&_&H1&H2)]; [discriminate|].
  injection Hs as <-. rewrite Hsplit in *.
  destruct (sorted_split _ _ _ Hsorted) as [Hbefore Hafter].
  split; [apply in_or_app; right; now left|].
  exists cs. split; [exact Hcs|].
  intros c Hc. rewrite List.Forall_forall in H1, H2.
  apply in_app_or in Hc. destruct Hc as [Hc|[<-|Hc]].
  - destruct (H1 c Hc) as [cc [Hcc Hlt]]. exists cc.
    repeat split; [exact Hcc|now apply Qlt_le_weak|intros _; exact Hlt].
  - exists cs. repeat split; [exact Hcs|apply Qle_refl|lia].
  - destruct (H2 c Hc) as [cc [Hcc Hle]]. exists cc.
    repeat split; [exact Hcc|exact Hle|]. specialize (Hafter c Hc). lia.
Qed.
End SeedSelection.

(** C7 (defect of the code).  The running minimum of the seed
    selection starts at [INT_MAX].  In frame E the five candidates of
    the most-populous bin all have the fit error 3000000000: none is
    strictly below the initial minimum, [seed_id] is never assigned,
    and the iteration goes on to use an indeterminate seed instead of
    the candidate with the smallest error. *)
Theorem C7_no_seed_above_INT_MAX :
  getPointsFromMostFrequentBin hist_E = [0; 1; 2; 3; 4] /\
  (forall c, In c [0; 1; 2; 3; 4] ->
     exists cell, deref (cell_grid_ frame_E) c = Done cell /\
                  (getMSE cell == 3000000000)%Q) /\
  selectSeed (cell_grid_ frame_E) (getPointsFromMostFrequentBin hist_E)
    None (inject_Z INT_MAX) = Done None /\
  growthStep 64 tols_2x8 growth_E = Undefined.
Proof.
  split; [vm_compute; reflexivity|].
  split.
  - intros c Hc. simpl in Hc.
    destruct Hc as [<-|[<-|[<-|[<-|[<-|[]]]]]]; eexists;
      (split; [vm_compute; reflexivity|vm_compute; reflexivity]).
  - split; vm_compute; reflexivity.
Qed.

(** ** The histogram *)

Lemma Qtrunc_range (a : Z) (q : Q) :
  (0 <= q)%Q -> (q <= inject_Z a)%Q -> 0 <= Qtrunc q <= a.
Proof.
  intros Hlo Hhi.
  assert (Hfloor : Qtrunc q = Qfloor q).
  { destruct q as [n d]. unfold Qtrunc, Qfloor. simpl.
    apply Z.quot_div_nonneg; [|lia].
    unfold Qle in Hlo. simpl in Hlo. lia. }
  rewrite Hfloor. split.
  - rewrite <- (Qfloor_Z 0). now apply Qfloor_resp_le.
  - rewrite <- (Qfloor_Z a). now apply Qfloor_resp_le.
Qed.

(** Quantising a value of [[lo, hi]] into [a + 1] steps. *)
Lemma quantize_range (a : Z) (lo hi v : Q) :
  0 <= a -> (lo < hi)%Q -> (lo <= v)%Q -> (v <= hi)%Q ->
  0 <= Qtrunc (inject_Z a * (v - lo) / (hi - lo)) <= a.
Proof.
  intros Ha Hlh Hlo Hhi.
  assert (Ha' : (0 <= inject_Z a)%Q).
  { change 0%Q with (inject_Z 0). rewrite <- Zle_Qle. exact Ha. }
  apply Qtrunc_range.
  - apply Qle_shift_div_l; [lra|]. nra.
  - apply Qle_shift_div_r; [lra|]. nra.
Qed.

Lemma filter_length_cons {A} (p : A -> bool) (a : A) (l : list A) :
  length (List.filter p (a :: l))
  = ((if p a then 1 else 0) + length (List.filter p l))%nat.
Proof. simpl. destruct (p a); reflexivity. Qed.

Section HistogramFacts.
Context `{Libm} `{!LibmRanges}.
Variable B : Z.
Hypothesis HB : 1 <= B.

Lemma bin_of_range (normal : Vec3) : 0 <= bin_of B normal < B * B.
Proof.
  destruct normal as [[nx ny] nz]. unfold bin_of.
  pose proof pi_positive as Hpi.
  assert (HX : 0 <= polar_q B (nx, ny, nz) <= B - 1).
  { unfold polar_q. apply quantize_range; [lia|exact Hpi|apply acos_lower|apply acos_upper]. }
  assert (HY : 0 <= azimuth_q B (nx, ny, nz) <= B - 1).
  { unfold azimuth_q. apply quantize_range; [lia|lra|apply atan2_lower|apply atan2_upper]. }
  destruct (0 <? polar_q B (nx, ny, nz)); nia.
Qed.

Variable normals : list Vec3.

Let n : Z := Z.of_nat (length normals).
Let bin (i : Z) : Z := bin_of B (zget (0, 0, 0)%Q normals i).

Lemma count_without (p : Z -> bool) (i : Z) (M : list Z) :
  List.NoDup M -> In i M ->
  length (List.filter p M)
  = (length (List.filter p (without i M)) + (if p i then 1 else 0))%nat.
Proof.
  induction 1 as [|a M Ha HM IH]; intros Hin; [destruct Hin|].
  unfold without in *. simpl. destruct Hin as [->|Hin].
  - rewrite Z.eqb_refl. simpl.
    assert (Hsame : List.filter (fun j => negb (j =? i)) M = M).
    { clear IH HM. induction M as [|b M IHM]; [reflexivity|]. simpl.
      destruct (b =? i) eqn:Hb.
      - apply Z.eqb_eq in Hb. subst b. exfalso. apply Ha. now left.
      - simpl. f_equal. apply IHM. intros Hi. apply Ha. now right. }
    rewrite Hsame. destruct (p i); simpl; lia.
  - assert (Hne : (a =? i) = false).
    { apply Z.eqb_neq. intros ->. contradiction. }
    rewrite Hne. simpl. specialize (IH Hin).
    destruct (p a); simpl; lia.
Qed.

Lemma in_without (i j : Z) (M : list Z) : In j (without i M) <-> In j M /\ j <> i.
Proof.
  unfold without. rewrite filter_In, negb_true_iff, Z.eqb_neq. reflexivity.
Qed.

Lemma hist_inv_start :
  hist_inv bin B n []
    {| nr_bins_per_coord_ := B; nr_points_ := n;
       hist_ := filled (B * B) 0; bins_ := filled n (-1) |}.
Proof.
  unfold hist_inv, filled. simpl. rewrite !repeat_length.
  repeat split; try lia; try nia.
  - constructor.
  - intros i Hi. apply (zget_filled 0 (-1) n i Hi).
  - intros b Hb. apply (zget_filled 0 0 (B * B) b Hb).
Qed.

Lemma addPoint_inv (M : list Z) (h : Histogram) (i : Z) :
  hist_inv bin B n M h -> ~ In i M -> 0 <= i < n ->
  hist_inv bin B n (i :: M) (addPoint normals h i).
Proof.
  intros (HnB&Hnp&Hlb&Hlh&Hnd&Hrange&Hbins&Hhist) Hnew Hi.
  pose proof (bin_of_range (zget (0, 0, 0)%Q normals i)) as Hbin. fold (bin i) in Hbin.
  unfold hist_inv, addPoint. cbn [nr_bins_per_coord_ nr_points_ hist_ bins_].
  rewrite HnB. fold (bin i).
  rewrite !length_zset.
  split; [reflexivity|]. split; [exact Hnp|]. split; [exact Hlb|]. split; [exact Hlh|].
  split; [now constructor|]. split; [|split].
  - intros j [<-|Hin]; [lia|]. now apply Hrange.
  - intros j Hj. destruct (Z.eq_dec i j) as [<-|Hne].
    + rewrite zget_zset_eq by lia.
      destruct (in_dec Z.eq_dec i (i :: M)) as [_|Hno]; [reflexivity|].
      exfalso. apply Hno. now left.
    + rewrite zget_zset_ne by exact Hne. rewrite (Hbins j Hj).
      destruct (in_dec Z.eq_dec j M) as [Hin|Hout];
        destruct (in_dec Z.eq_dec j (i :: M)) as [Hin'|Hout']; try reflexivity.
      * exfalso. apply Hout'. now right.
      * exfalso. destruct Hin' as [->|Hin']; [now apply Hne|contradiction].
  - intros b Hb. destruct (Z.eq_dec (bin i) b) as [<-|Hne].
    + rewrite zget_zset_eq by lia. rewrite (Hhist (bin i) Hbin).
      rewrite filter_length_cons, Z.eqb_refl. lia.
    + rewrite zget_zset_ne by exact Hne. rewrite (Hhist b Hb).
      apply Z.eqb_neq in Hne. rewrite filter_length_cons, Hne. reflexivity.
Qed.

Lemma removePoint_inv (M : list Z) (h : Histogram) (i : Z) :
  hist_inv bin B n M h -> In i M ->
  hist_inv bin B n (without i M) (removePoint h i).
Proof.
  intros (HnB&Hnp&Hlb&Hlh&Hnd&Hrange&Hbins&Hhist) Hin.
  pose proof (Hrange i Hin) as Hi.
  pose proof (bin_of_range (zget (0, 0, 0)%Q normals i)) as Hbin. fold (bin i) in Hbin.
  assert (Hbi : zget 0 (bins_ h) i = bin i).
  { rewrite (Hbins i Hi). destruct (in_dec Z.eq_dec i M); [reflexivity|contradiction]. }
  unfold hist_inv, removePoint. cbn [nr_bins_per_coord_ nr_points_ hist_ bins_].
  rewrite Hbi, !length_zset.
  split; [exact HnB|]. split; [exact Hnp|]. split; [exact Hlb|]. split; [exact Hlh|].
  split; [now apply List.NoDup_filter|]. split; [|split].
  - intros j Hj. apply in_without in Hj. destruct Hj as [Hj _]. now apply Hrange.
  - intros j Hj. destruct (Z.eq_dec i j) as [<-|Hne].
    + rewrite zget_zset_eq by lia.
      destruct (in_dec Z.eq_dec i (without i M)) as [Hyes|_]; [|reflexivity].
      apply in_without in Hyes. destruct Hyes as [_ Hyes]. contradiction.
    + rewrite zget_zset_ne by exact Hne. rewrite (Hbins j Hj).
      destruct (in_dec Z.eq_dec j M) as [Hj'|Hj'];
        destruct (in_dec Z.eq_dec j (without i M)) as [Hw|Hw]; try reflexivity.
      * exfalso. apply Hw. apply in_without. split; [exact Hj'|congruence].
      * exfalso. apply in_without in Hw. destruct Hw as [Hw _]. contradiction.
  - intros b Hb.
    pose proof (count_without (fun j => bin j =? b) i M Hnd Hin) as Hcount.
    cbv beta in Hcount.
    destruct (Z.eq_dec (bin i) b) as [<-|Hne].
    + rewrite zget_zset_eq by lia. rewrite (Hhist (bin i) Hbin).
      rewrite Z.eqb_refl in Hcount. lia.
    + rewrite zget_zset_ne by exact Hne. rewrite (Hhist b Hb).
      apply Z.eqb_neq in Hne. rewrite Hne in Hcount. lia.
Qed.
End HistogramFacts.

Lemma in_set_bits (size b i : Z) :
  In i (set_bits size b) <-> 0 <= i < size /\ Z.testbit b i = true.
Proof. unfold set_bits. rewrite filter_In, in_zrange. reflexivity. Qed.

Lemma sorted_NoDup (l : list Z) : StronglySorted Z.lt l -> List.NoDup l.
Proof.
  induction 1 as [|a l Hl IH Ha]; constructor; [|exact IH].
  intros Hin. rewrite List.Forall_forall in Ha. specialize (Ha a Hin). lia.
Qed.

Lemma set_bits_NoDup (size b : Z) : List.NoDup (set_bits size b).
Proof. apply sorted_NoDup, filter_sorted, zrange_sorted. Qed.

Lemma firstn_In {A} (k : nat) (l : list A) (a : A) : In a (firstn k l) -> In a l.
Proof.
  revert l. induction k as [|k IH]; intros [|b l]; simpl; try tauto.
  intros [->|Hin]; [now left|right; now apply IH].
Qed.

Lemma firstn_NoDup {A} (k : nat) (l : list A) : List.NoDup l -> List.NoDup (firstn k l).
Proof.
  revert l. induction k as [|k IH]; intros [|b l] Hnd; simpl; try constructor.
  - inversion Hnd; subst. intros Hin. apply firstn_In in Hin. contradiction.
  - inversion Hnd; subst. now apply IH.
Qed.

Section HistogramLoops.
Context `{Libm} `{!LibmRanges}.
Variable B : Z.
Variable normals : list Vec3.
Hypothesis HB : 1 <= B.

Let n : Z := Z.of_nat (length normals).
Let bin (i : Z) : Z := bin_of B (zget (0, 0, 0)%Q normals i).

Lemma fold_addPoint (l : list Z) : forall M h,
  hist_inv bin B n M h -> List.NoDup l ->
  (forall i, In i l -> ~ In i M /\ 0 <= i < n) ->
  exists M', hist_inv bin B n M' (fold_left (addPoint normals) l h) /\
             (forall i, In i M' <-> In i l \/ In i M).
Proof.
  induction l as [|a l IH]; intros M h Hinv Hnd Hl; simpl.
  - exists M. split; [exact Hinv|]. intros i. tauto.
  - inversion Hnd as [|? ? Ha Hnd']; subst.
    destruct (Hl a (or_introl eq_refl)) as [HaM Han].
    destruct (IH (a :: M) (addPoint normals h a)) as [M' [Hinv' Hmem]].
    + now apply (addPoint_inv B HB normals).
    + exact Hnd'.
    + intros i Hi. destruct (Hl i (or_intror Hi)) as [HiM Hin]. split; [|exact Hin].
      intros [<-|HiM']; contradiction.
    + exists M'. split; [exact Hinv'|]. intros i. rewrite Hmem. simpl. tauto.
Qed.

Lemma fold_removePoint (l : list Z) : forall M h,
  hist_inv bin B n M h -> List.NoDup l -> (forall i, In i l -> In i M) ->
  exists M', hist_inv bin B n M' (fold_left removePoint l h) /\
             (forall i, In i M' <-> In i M /\ ~ In i l).
Proof.
  induction l as [|a l IH]; intros M h Hinv Hnd Hl; simpl.
  - exists M. split; [exact Hinv|]. intros i. tauto.
  - inversion Hnd as [|? ? Ha Hnd']; subst.
    destruct (IH (without a M) (removePoint h a)) as [M' [Hinv' Hmem]].
    + apply (removePoint_inv B HB normals); [exact Hinv|]. apply Hl. now left.
    + exact Hnd'.
    + intros i Hi. apply in_without. split; [apply Hl; now right|].
      intros ->. contradiction.
    + exists M'. split; [exact Hinv'|]. intros i. rewrite Hmem, in_without.
      split.
      * intros [[HiM Hne] Hil]. split; [exact HiM|]. intros [Heq|Hin]; [congruence|contradiction].
      * intros [HiM Hno]. split; [split; [exact HiM|]|].
        -- intros ->. apply Hno. now left.
        -- intros Hin. apply Hno. now right.
Qed.

Lemma in_histogramb_spec (mask : Z) (removed : list Z) (i : Z) :
  in_histogramb mask removed i = true <-> in_histogram mask removed i.
Proof.
  unfold in_histogramb, in_histogram.
  rewrite andb_true_iff, negb_true_iff. split; intros [Hbit Hrem]; (split; [exact Hbit|]).
  - intros Hin. assert (Hex : existsb (Z.eqb i) removed = true).
    { apply existsb_exists. exists i. split; [exact Hin|apply Z.eqb_refl]. }
    congruence.
  - destruct (existsb (Z.eqb i) removed) eqn:Hex; [|reflexivity].
    apply existsb_exists in Hex. destruct Hex as [x [Hx Heq]].
    apply Z.eqb_eq in Heq. subst x. contradiction.
Qed.

Lemma hist_ok_of_inv (mask : Z) (removed M : list Z) (h : Histogram) :
  hist_inv bin B n M h ->
  (forall i, In i M <-> in_histogram mask removed i) ->
  hist_ok B normals mask removed h.
Proof.
  intros (HnB&Hnp&Hlb&Hlh&Hnd&Hrange&Hbins&Hhist) Hmem.
  unfold hist_ok. cbv zeta. fold n.
  split; [exact HnB|]. split; [exact Hnp|]. split; [exact Hlb|]. split; [exact Hlh|].
  split.
  - intros i Hi. rewrite (Hbins i Hi).
    pose proof (bin_of_range B HB (zget (0, 0, 0)%Q normals i)) as Hbin. fold (bin i) in Hbin |- *.
    destruct (in_dec Z.eq_dec i M) as [Hin|Hout].
    + split.
      * split; [lia|]. intros Hno. exfalso. apply Hno. now apply Hmem.
      * intros _. split; [reflexivity|]. split; [exact Hbin|].
        rewrite (Hhist (bin i) Hbin).
        assert (Hfil : In i (List.filter (fun j => bin j =? bin i) M)).
        { apply filter_In. split; [exact Hin|apply Z.eqb_refl]. }
        destruct (List.filter (fun j => bin j =? bin i) M); [destruct Hfil|simpl; lia].
    + split.
      * split; [|reflexivity]. intros _ Hyes. apply Hout. now apply Hmem.
      * intros Hyes. exfalso. apply Hout. now apply Hmem.
  - intros b Hb. rewrite (Hhist b Hb). f_equal.
    apply NoDup_same_length.
    + now apply filter_NoDup.
    + apply filter_NoDup, sorted_NoDup, zrange_sorted.
    + intros i. rewrite !filter_In, in_zrange, andb_true_iff, in_histogramb_spec.
      fold (bin i). rewrite <- Hmem. split.
      * intros [Hin Hbi]. split; [now apply Hrange|]. now split.
      * intros [_ [Hin Hbi]]. now split.
Qed.

(** The histogram after its construction. *)
Lemma newHistogram_inv (BITSET_SIZE mask : Z) :
  n <= BITSET_SIZE ->
  (forall i, Z.testbit mask i = true -> i < n) ->
  exists M, hist_inv bin B n M (newHistogram BITSET_SIZE B normals mask) /\
            (forall i, In i M <-> Z.testbit mask i = true).
Proof.
  intros Hsize Hmask. unfold newHistogram.
  destruct (fold_addPoint (set_bits BITSET_SIZE mask) []
              {| nr_bins_per_coord_ := B; nr_points_ := n;
                 hist_ := filled (B * B) 0; bins_ := filled n (-1) |})
    as [M [Hinv Hmem]].
  - apply (hist_inv_start B HB normals).
  - apply set_bits_NoDup.
  - intros i Hi. apply in_set_bits in Hi. destruct Hi as [Hi Hbit].
    split; [intros []|]. specialize (Hmask i Hbit). lia.
  - exists M. split; [exact Hinv|]. intros i. rewrite Hmem, in_set_bits. split.
    + intros [[_ Hbit]|[]]. exact Hbit.
    + intros Hbit. left. split; [|exact Hbit]. specialize (Hmask i Hbit).
      destruct (Z.ltb_spec i 0) as [Hneg|Hpos]; [|lia].
      rewrite Z.testbit_neg_r in Hbit by exact Hneg. discriminate.
Qed.
End HistogramLoops.

(** ** Region growing: the histogram invariant *)

Section GrowthFacts.
Context {C : Type} `{CellSegmentOps C}.
Variable BITSET_SIZE : Z.

(** The cells a flood activates are unassigned cells. *)
Lemma growSeed_adds_unassigned (pe : PlaneExtractor C) (tols : list Q) (U : Z) fuel :
  forall x y prev fl fl',
    growSeed fuel pe x y prev U fl tols = Done fl' ->
    forall i, Z.testbit (activation_map fl') i = true ->
              Z.testbit (activation_map fl) i = true \/ Z.testbit U i = true.
Proof.
  induction fuel as [|fuel IH]; intros x y prev fl fl' Hrun i Hi; [discriminate|].
  apply growSeed_returns in Hrun. destruct Hrun as [_ Hrun].
  destruct Hrun as [[_ ->]|(parent&cand&HU&Hact&_&_&[[_ ->]|[_ Hn]])];
    [now left|now left|].
  destruct Hn as (fl1&fl2&fl3&H1&H2&H3&H4).
  assert (Hvisit : forall (b : bool) x' y' p f f',
             (if b then growSeed fuel pe x' y' p U f tols else Done f) = Done f' ->
             Z.testbit (activation_map f') i = true ->
             Z.testbit (activation_map f) i = true \/ Z.testbit U i = true).
  { intros b x' y' p f f' Hv Hbit. destruct b; [now apply (IH _ _ _ _ _ Hv)|].
    injection Hv as <-. now left. }
  destruct (Hvisit _ _ _ _ _ _ H4 Hi) as [Hi3|]; [|now right].
  destruct (Hvisit _ _ _ _ _ _ H3 Hi3) as [Hi2|]; [|now right].
  destruct (Hvisit _ _ _ _ _ _ H2 Hi2) as [Hi1|]; [|now right].
  destruct (Hvisit _ _ _ _ _ _ H1 Hi1) as [Hi0|]; [|now right].
  simpl in Hi0.
  assert (0 <= x + nr_horizontal_cells_ pe * y).
  { destruct (Z.ltb_spec (x + nr_horizontal_cells_ pe * y) 0) as [Hneg|]; [|lia].
    rewrite Z.testbit_neg_r in HU by exact Hneg. discriminate. }
  rewrite Z.setbit_eqb in Hi0 by lia. apply orb_true_iff in Hi0.
  destruct Hi0 as [Heq|Hold]; [|now left].
  apply Z.eqb_eq in Heq. subst i. now right.
Qed.

Lemma growFrom_activates_unassigned (g : Growth C) (tols : list Q) (seed_id : Z) fl :
  growFrom g tols seed_id = Done fl ->
  forall i, Z.testbit (activation_map fl) i = true -> Z.testbit (g_unassigned g) i = true.
Proof.
  unfold growFrom. intros Hrun i Hi.
  destruct (growSeed_adds_unassigned _ _ _ _ _ _ _ _ _ Hrun i Hi) as [Hzero|HU];
    [|exact HU].
  simpl in Hzero. rewrite Z.bits_0 in Hzero. discriminate.
Qed.

Lemma mergeActivated_effect (seed_id : Z) (acts : list Z) : forall g g',
  mergeActivated seed_id acts g = Done g' ->
  g_hist g' = fold_left removePoint acts (g_hist g) /\
  g_removed g' = g_removed g ++ acts /\
  g_unassigned g' = g_unassigned g.
Proof.
  induction acts as [|a acts IH]; intros g g' Hrun; simpl in Hrun.
  - injection Hrun as <-. rewrite app_nil_r. auto.
  - apply bind_done in Hrun. destruct Hrun as [seg [_ Hrun]].
    apply bind_done in Hrun. destruct Hrun as [ci [_ Hrun]].
    destruct (IH _ _ Hrun) as (Hh&Hr&Hu). simpl in Hh, Hr, Hu.
    rewrite Hh, Hr, Hu, <- app_assoc. auto.
Qed.

Lemma fitModel_effect (seed_id activation : Z) (g g' : Growth C) :
  fitModel BITSET_SIZE seed_id activation g = Done g' ->
  g_hist g' = g_hist g /\ g_removed g' = g_removed g /\ g_unassigned g' = g_unassigned g.
Proof.
  unfold fitModel. destruct (_ <? _); [intros [= <-]; auto|].
  intros Hrun. apply bind_done in Hrun. destruct Hrun as [seg [_ Hrun]].
  destruct (Qltb _ _); injection Hrun as <-; auto.
Qed.

(** What one turn of the loop does to the histogram, the removal log
    and the unassigned mask. *)
Lemma growthStep_effect (tols : list Q) (g g' : Growth C) :
  growthStep BITSET_SIZE tols g = Done (true, g') ->
  exists seed_id fl,
    growFrom g tols seed_id = Done fl /\
    let acts := set_bits BITSET_SIZE (activation_map fl) in
    g_hist g' = fold_left removePoint acts (g_hist g) /\
    g_removed g' = g_removed g ++ acts /\
    g_unassigned g' = Z.ldiff (g_unassigned g) (activation_map fl).
Proof.
  unfold growthStep. destruct (_ <? _); [discriminate|].
  intros Hrun. apply bind_done in Hrun. destruct Hrun as [seed [_ Hrun]].
  destruct seed as [seed_id|]; [|discriminate].
  apply bind_done in Hrun. destruct Hrun as [fl [Hfl Hrun]].
  apply bind_done in Hrun. destruct Hrun as [g1 [Hg1 Hrun]].
  apply bind_done in Hrun. destruct Hrun as [g2 [Hg2 Hrun]].
  injection Hrun as <-.
  exists seed_id, fl. split; [exact Hfl|].
  destruct (mergeActivated_effect _ _ _ _ Hg1) as (Hh&Hr&Hu).
  destruct (fitModel_effect _ _ _ _ Hg2) as (Hh'&Hr'&Hu').
  simpl in Hh', Hr', Hu'. cbv zeta. rewrite Hh', Hr', Hu', Hh, Hr, Hu. auto.
Qed.
End GrowthFacts.

Section HistogramInvariant.
Context `{Libm} `{!LibmRanges} {C : Type} `{CellSegmentOps C}.
Variable BITSET_SIZE : Z.
Variable B : Z.
Variable normals : list Vec3.
Variable mask : Z.
Hypothesis HB : 1 <= B.
Hypothesis Hsize : Z.of_nat (length normals) <= BITSET_SIZE.
Hypothesis Hmask : forall i, Z.testbit mask i = true -> i < Z.of_nat (length normals).

Let n : Z := Z.of_nat (length normals).
Let bin (i : Z) : Z := bin_of B (zget (0, 0, 0)%Q normals i).

(** The removals of one turn, up to any point of the turn. *)
Lemma removals_keep_inv (g : Growth C) (tols : list Q) (seed_id : Z) (fl : Flood) (k : nat) :
  growth_inv bin B n mask g ->
  growFrom g tols seed_id = Done fl ->
  let activated := firstn k (set_bits BITSET_SIZE (activation_map fl)) in
  exists M,
    hist_inv bin B n M (fold_left removePoint activated (g_hist g)) /\
    (forall i, In i M <-> in_histogram mask (g_removed g ++ activated) i) /\
    (forall i, In i M <-> Z.testbit (g_unassigned g) i = true /\ ~ In i activated).
Proof.
  intros (M&Hinv&Hmem&Hun) Hfl activated.
  assert (Hsub : forall i, In i activated -> In i M).
  { intros i Hi. apply firstn_In, in_set_bits in Hi. destruct Hi as [_ Hbit].
    apply Hun. eapply growFrom_activates_unassigned; eassumption. }
  destruct (fold_removePoint B normals HB activated M (g_hist g) Hinv) as [M' [Hinv' Hmem']].
  - apply firstn_NoDup, set_bits_NoDup.
  - exact Hsub.
  - exists M'. split; [exact Hinv'|]. split.
    + intros i. rewrite Hmem', Hmem. unfold in_histogram. rewrite in_app_iff. tauto.
    + intros i. rewrite Hmem', Hun. tauto.
Qed.

Lemma growth_inv_start (pe : PlaneExtractor C) :
  growth_inv bin B n mask
    (growthStart BITSET_SIZE pe (newHistogram BITSET_SIZE B normals mask) mask).
Proof.
  destruct (newHistogram_inv B normals HB BITSET_SIZE mask Hsize Hmask) as [M [Hinv Hmem]].
  exists M. split; [exact Hinv|]. simpl. split.
  - intros i. rewrite Hmem. unfold in_histogram. simpl. tauto.
  - intros i. now rewrite Hmem.
Qed.

Lemma growth_inv_loop (pe : PlaneExtractor C) (tols : list Q) (g : Growth C) :
  LoopHead BITSET_SIZE pe (newHistogram BITSET_SIZE B normals mask) mask tols g ->
  growth_inv bin B n mask g.
Proof.
  induction 1 as [|g g' Hhead IH Hpos Hstep]; [apply growth_inv_start|].
  destruct (growthStep_effect _ _ _ _ Hstep) as (seed_id&fl&Hfl&Hh&Hr&Hu).
  pose proof (removals_keep_inv g tols seed_id fl
                (length (set_bits BITSET_SIZE (activation_map fl))) IH Hfl) as Hall.
  cbv zeta in Hall. rewrite firstn_all in Hall.
  destruct Hall as (M&Hinv&Hmem&Hun).
  exists M. rewrite Hh, Hr, Hu. split; [exact Hinv|]. split; [exact Hmem|].
  intros i. rewrite Hun, Z.ldiff_spec, andb_true_iff, negb_true_iff, in_set_bits.
  split.
  - intros [HU Hact]. split; [exact HU|]. intros [_ Hbit]. congruence.
  - intros [HU Hno]. split; [exact HU|].
    destruct (Z.testbit (activation_map fl) i) eqn:Hbit; [|reflexivity].
    exfalso. apply Hno. split; [|reflexivity].
    destruct IH as (M0&Hinv0&_&Hun0).
    destruct Hinv0 as (_&_&_&_&_&Hrange&_).
    specialize (Hrange i (proj1 (Hun0 i) HU)). fold n in Hsize. lia.
Qed.

End HistogramInvariant.

(** ** The construction of the histogram *)

Section HistogramConstruction.
Context `{Libm} `{!LibmRanges}.
Variable BITSET_SIZE : Z.
Variable B : Z.
Variable normals : Matrix.
Variable mask : Z.
Hypothesis HB : 1 <= B.
Hypothesis Hfits : B * B <= INT_MAX.
Hypothesis Hcols : cols normals = 3.
Hypothesis Hrows : 0 <= rows normals <= BITSET_SIZE.
Hypothesis Hmask : forall i, Z.testbit mask i = true -> i < rows normals.
Hypothesis Hangles : forall i,
  Z.testbit mask i = true -> angles_defined B (zget (0, 0, 0)%Q (matrix_rows normals) i).

Lemma length_matrix_rows : Z.of_nat (length (matrix_rows normals)) = rows normals.
Proof. unfold matrix_rows. rewrite length_map, length_zrange. lia. Qed.

Lemma zget_matrix_rows (i : Z) :
  0 <= i < rows normals ->
  zget (0, 0, 0)%Q (matrix_rows normals) i
  = (coeff normals i 0, coeff normals i 1, coeff normals i 2).
Proof.
  intros Hi. unfold zget, matrix_rows.
  destruct (Z.ltb_spec i 0) as [Hneg|_]; [lia|].
  rewrite list_lookup_fmap.
  assert (Hk : zrange 0 (rows normals) !! Z.to_nat i = Some i).
  { unfold zrange. rewrite list_lookup_fmap.
    rewrite (lookup_seq_lt 0 (Z.to_nat (rows normals - 0)) (Z.to_nat i)) by lia.
    simpl. f_equal. lia. }
  rewrite Hk. reflexivity.
Qed.

Lemma bin_defined_of_angles (normal : Vec3) :
  angles_defined B normal -> bin_defined B normal = true.
Proof.
  destruct normal as [[nx ny] nz]. intros (Hlo&Hhi&Hproj). unfold bin_defined.
  pose proof pi_positive as Hpi.
  assert (HX : 0 <= polar_q B (nx, ny, nz) <= B - 1).
  { unfold polar_q. apply quantize_range; [lia|exact Hpi|apply acos_lower|apply acos_upper]. }
  assert (HY : 0 <= azimuth_q B (nx, ny, nz) <= B - 1).
  { unfold azimuth_q. apply quantize_range; [lia|lra|apply atan2_lower|apply atan2_upper]. }
  assert (HBmax : B - 1 <= INT_MAX) by nia.
  assert (Hint : forall z, 0 <= z <= B - 1 -> fits_int32 z = true).
  { intros z Hz. unfold fits_int32, INT_MIN. apply andb_true_iff. split; lia. }
  apply Qle_bool_iff in Hlo. apply Qle_bool_iff in Hhi.
  rewrite Hlo, Hhi, (Hint _ HX), (Hint _ HY). cbn [andb].
  destruct (Z.ltb_spec 0 (polar_q B (nx, ny, nz))) as [Hpos|_]; [|reflexivity].
  cbn [negb orb]. rewrite andb_true_r. apply negb_true_iff.
  destruct (Qeq_bool _ 0) eqn:Hz; [|reflexivity].
  apply Qeq_bool_iff in Hz. exfalso. now apply (Hproj Hpos).
Qed.

(** The constructor returns, with the histogram of the rows of the
    matrix. *)
Lemma constructHistogram_returns :
  constructHistogram BITSET_SIZE B normals mask
  = Done (newHistogram BITSET_SIZE B (matrix_rows normals) mask).
Proof.
  unfold constructHistogram, newHistogram.
  assert (Hprod : fits_int32 (B * B) = true).
  { unfold fits_int32, INT_MIN. apply andb_true_iff. split; nia. }
  rewrite Hprod, length_matrix_rows.
  apply (fold_outcome_pure (addPoint_checked normals) (addPoint (matrix_rows normals))
           (fun _ h => nr_bins_per_coord_ h = B
                       /\ Z.of_nat (length (bins_ h)) = rows normals
                       /\ Z.of_nat (length (hist_ h)) = B * B)
           (set_bits BITSET_SIZE mask) 0%nat).
  - simpl. unfold filled. rewrite !repeat_length. repeat split; [lia|nia].
  - intros j h i (HhB&Hlb&Hlh) Hi.
    apply list_elem_of_lookup_2, list_elem_of_In, in_set_bits in Hi.
    destruct Hi as [Hi Hbit]. pose proof (Hmask i Hbit) as Hlt.
    split.
    + assert (Hin : forall size k, 0 <= k < size -> in_buffer size k = true).
      { intros size k Hk. unfold in_buffer. apply andb_true_iff. split; lia. }
      assert (Hrow : row3 normals i = Done (zget (0, 0, 0)%Q (matrix_rows normals) i)).
      { unfold row3. rewrite Hin, Hcols by lia. cbn [andb Z.eqb Pos.eqb].
        now rewrite zget_matrix_rows by lia. }
      unfold addPoint_checked. rewrite Hrow. cbn [bind].
      rewrite HhB, Hlb, Hlh.
      rewrite (bin_defined_of_angles _ (Hangles i Hbit)).
      rewrite (Hin (rows normals) i) by lia.
      rewrite Hin by (apply (bin_of_range B HB)).
      reflexivity.
    + unfold addPoint. cbn [nr_bins_per_coord_ bins_ hist_]. rewrite !length_zset. auto.
Qed.

(** C9.  The constructor of the histogram returns a histogram that
    satisfies the invariant [hist_ok], and the invariant holds at the
    start of every turn of the loop of [createPlaneSegments] and after
    each [removePoint] of a turn (the first [k] activated cells
    removed, for any [k]): for each cell [i] of the input,
    [bins[i] = -1] iff [i] is not in the histogram, and otherwise
    [bins[i]] is the bin of [i] and [hist[bins[i]] > 0]; [hist] counts
    the cells in the histogram bin by bin. *)
Theorem C9_histogram_invariant {C : Type} `{CellSegmentOps C}
    (pe : PlaneExtractor C) (tols : list Q) :
  exists hist,
    constructHistogram BITSET_SIZE B normals mask = Done hist /\
    hist_ok B (matrix_rows normals) mask [] hist /\
    forall g, LoopHead BITSET_SIZE pe hist mask tols g ->
      hist_ok B (matrix_rows normals) mask (g_removed g) (g_hist g) /\
      forall seed_id fl k,
        growFrom g tols seed_id = Done fl ->
        let activated := firstn k (set_bits BITSET_SIZE (activation_map fl)) in
        hist_ok B (matrix_rows normals) mask (g_removed g ++ activated)
          (fold_left removePoint activated (g_hist g)).
Proof.
  exists (newHistogram BITSET_SIZE B (matrix_rows normals) mask).
  split; [exact constructHistogram_returns|].
  assert (Hsize : Z.of_nat (length (matrix_rows normals)) <= BITSET_SIZE)
    by (rewrite length_matrix_rows; lia).
  assert (Hmask' : forall i, Z.testbit mask i = true
                             -> i < Z.of_nat (length (matrix_rows normals))).
  { intros i Hbit. rewrite length_matrix_rows. now apply Hmask. }
  split.
  - destruct (growth_inv_start BITSET_SIZE B (matrix_rows normals) mask HB Hsize Hmask' pe)
      as (M&Hinv&Hmem&_).
    exact (hist_ok_of_inv B (matrix_rows normals) HB mask [] M _ Hinv Hmem).
  - intros g Hhead.
    pose proof (growth_inv_loop BITSET_SIZE B (matrix_rows normals) mask HB Hsize Hmask'
                  pe tols g Hhead) as Hg.
    split.
    + destruct Hg as (M&Hinv&Hmem&_).
      exact (hist_ok_of_inv B (matrix_rows normals) HB mask _ M _ Hinv Hmem).
    + intros seed_id fl k Hfl activated.
      destruct (removals_keep_inv BITSET_SIZE B (matrix_rows normals) mask HB
                  g tols seed_id fl k Hg Hfl) as (M&Hinv&Hmem&_).
      exact (hist_ok_of_inv B (matrix_rows normals) HB mask _ M _ Hinv Hmem).
Qed.
End HistogramConstruction.

Lemma Qclamp_range (lo hi q : Q) :
  (lo <= hi)%Q -> (lo <= Qclamp lo hi q)%Q /\ (Qclamp lo hi q <= hi)%Q.
Proof.
  intros Hlh. unfold Qclamp, Qmax', Qmin'.
  destruct (Qltb hi q) eqn:Hq.
  - destruct (Qltb lo hi) eqn:Hl; split; try apply Qle_refl; exact Hlh.
  - apply Qltb_ge in Hq. destruct (Qltb lo q) eqn:Hl.
    + apply Qltb_lt in Hl. split; [now apply Qlt_le_weak|exact Hq].
    + split; [apply Qle_refl|exact Hlh].
Qed.

#[export] Instance coarse_libm_ranges : @LibmRanges coarse_libm.
Proof.
  assert (H0pi : (0 <= 355 # 113)%Q) by (vm_compute; discriminate).
  assert (Hpipi : (- (355 # 113) <= 355 # 113)%Q) by (vm_compute; discriminate).
  constructor; simpl.
  - reflexivity.
  - intros v. now apply Qclamp_range.
  - intros v. now apply Qclamp_range.
  - intros a b. now apply Qclamp_range.
  - intros a b. now apply Qclamp_range.
Qed.

Lemma mask_E_in_range (i : Z) : Z.testbit 31 i = true -> i < Z.of_nat (length normals_E).
Proof.
  intros Hbit. destruct (Z.ltb_spec i 16) as [Hlt|Hge]; [exact Hlt|].
  rewrite Z.bits_above_log2 in Hbit; [discriminate|lia|].
  change (Z.log2 31) with 4. lia.
Qed.

(** ** The errors of the pipeline *)





Section PipelineErrors.
Context {C : Type} `{CellSegmentOps C} `{Libm}.
Variable BITSET_SIZE : Z.

Implicit Type pe : PlaneExtractor C.
















End PipelineErrors.


(** ** The margin in the labels that [process] returns *)

Section ProcessMargin.
Context {C : Type} `{CellSegmentOps C} `{Libm}.
Variable BITSET_SIZE : Z.

Implicit Type pe : PlaneExtractor C.

Lemma findPlanarCells_geometry pe (pcd : Matrix) pe' (planar_flags : Z) :
  findPlanarCells BITSET_SIZE pe pcd = Done (pe', planar_flags) -> same_geometry pe pe'.
Proof.
  unfold findPlanarCells. intros Hrun.
  apply bind_done in Hrun. destruct Hrun as [[[cells flags] id] [_ Hrun]].
  injection Hrun as <- _. repeat split.
Qed.

Lemma mergeActivated_geometry (seed_id : Z) (acts : list Z) : forall g g' : Growth C,
  mergeActivated seed_id acts g = Done g' -> same_geometry (g_pe g) (g_pe g').
Proof.
  induction acts as [|a acts IH]; intros g g' Hrun; simpl in Hrun.
  - injection Hrun as <-. apply same_geometry_refl.
  - apply bind_done in Hrun. destruct Hrun as [seg [_ Hrun]].
    apply bind_done in Hrun. destruct Hrun as [ci [_ Hrun]].
    eapply same_geometry_trans; [|apply (IH _ _ Hrun)]. repeat split.
Qed.

Lemma fitModel_geometry (seed_id activation : Z) (g g' : Growth C) :
  fitModel BITSET_SIZE seed_id activation g = Done g' -> same_geometry (g_pe g) (g_pe g').
Proof.
  unfold fitModel. destruct (_ <? _); [intros [= <-]; apply same_geometry_refl|].
  intros Hrun. apply bind_done in Hrun. destruct Hrun as [seg [_ Hrun]].
  destruct (Qltb _ _); injection Hrun as <-; repeat split.
Qed.

Lemma growthStep_geometry (tols : list Q) (g g' : Growth C) (again : bool) :
  growthStep BITSET_SIZE tols g = Done (again, g') -> same_geometry (g_pe g) (g_pe g').
Proof.
  unfold growthStep. destruct (_ <? _); [intros [= _ <-]; apply same_geometry_refl|].
  intros Hrun. apply bind_done in Hrun. destruct Hrun as [seed [_ Hrun]].
  destruct seed as [seed_id|]; [|discriminate].
  apply bind_done in Hrun. destruct Hrun as [fl [_ Hrun]].
  apply bind_done in Hrun. destruct Hrun as [g1 [Hg1 Hrun]].
  apply bind_done in Hrun. destruct Hrun as [g2 [Hg2 Hrun]].
  injection Hrun as _ <-.
  eapply same_geometry_trans; [apply (mergeActivated_geometry _ _ _ _ Hg1)|].
  apply (fitModel_geometry _ _ _ _ Hg2).
Qed.

Lemma growthLoop_geometry fuel (tols : list Q) : forall g g' : Growth C,
  growthLoop BITSET_SIZE fuel tols g = Done g' -> same_geometry (g_pe g) (g_pe g').
Proof.
  induction fuel as [|fuel IH]; intros g g' Hrun; simpl in Hrun; [discriminate|].
  destruct (0 <? g_remaining g); [|injection Hrun as <-; apply same_geometry_refl].
  apply bind_done in Hrun. destruct Hrun as [[again g1] [Hstep Hrun]]. simpl in Hrun.
  pose proof (growthStep_geometry _ _ _ _ Hstep) as Hg1.
  destruct again; [|now injection Hrun as <-].
  eapply same_geometry_trans; [exact Hg1|apply (IH _ _ Hrun)].
Qed.

Lemma mergeRow_geometry (segs : list Z) (row_id plane_id : Z) (cols : list Z) :
  forall (st st' : MergeState) expanded expanded',
    mergeRow segs row_id plane_id cols st expanded = Done (st', expanded') ->
    same_geometry (fst (fst st)) (fst (fst st')).
Proof.
  induction cols as [|c cols IH]; intros [[pe labels] mx] st' expanded expanded' Hrun;
    simpl in Hrun.
  - injection Hrun as <- _. apply same_geometry_refl.
  - apply bind_done in Hrun. destruct Hrun as [seg_p [_ Hrun]].
    apply bind_done in Hrun. destruct Hrun as [seg_q [_ Hrun]].
    destruct (_ && _); apply IH in Hrun; simpl in *; [|exact Hrun].
    eapply same_geometry_trans; [|exact Hrun]. repeat split.
Qed.

Lemma mergeRows_geometry (segs : list Z) (row_ids : list Z) : forall st st' : MergeState,
  mergeRows BITSET_SIZE segs row_ids st = Done st' ->
  same_geometry (fst (fst st)) (fst (fst st')).
Proof.
  induction row_ids as [|r row_ids IH]; intros [[pe labels] mx] st' Hrun; simpl in Hrun.
  - injection Hrun as <-. apply same_geometry_refl.
  - apply bind_done in Hrun. destruct Hrun as [[[[pe1 labels1] mx1] expanded] [Hrow Hrun]].
    apply mergeRow_geometry in Hrow. simpl in Hrow, Hrun.
    destruct expanded.
    + apply bind_done in Hrun. destruct Hrun as [seg [_ Hrun]].
      apply IH in Hrun. simpl in Hrun.
      eapply same_geometry_trans; [exact Hrow|].
      eapply same_geometry_trans; [|exact Hrun]. repeat split.
    + apply IH in Hrun. simpl in Hrun.
      eapply same_geometry_trans; [exact Hrow|exact Hrun].
Qed.

(** The labels that [process] returns are the image that stage 6
    emits, from an extractor with the dimensions of the one the call
    started with. *)
Lemma process_emits fuel pe (organized_fresh spherical_fresh : Z -> Q) (pcd : Matrix)
    pe' (labels : list Z) :
  process BITSET_SIZE fuel pe organized_fresh spherical_fresh pcd = Done (pe', labels) ->
  exists pe1 segs merge_labels organized pe2 im,
    organizeByCell pe organized_fresh pcd = Done organized /\
    same_geometry pe pe1 /\
    emitLabels pe1 segs merge_labels organized = Done (pe2, im) /\
    labels = img_data im.
Proof.
  unfold process. intros Hrun.
  apply bind_done in Hrun. destruct Hrun as [organized [Horg Hrun]].
  apply bind_done in Hrun. destruct Hrun as [[pe0 flags] [Hfind Hrun]].
  apply findPlanarCells_geometry in Hfind.
  apply bind_done in Hrun. destruct Hrun as [hist [_ Hrun]].
  apply bind_done in Hrun. destruct Hrun as [tols [_ Hrun]].
  apply bind_done in Hrun. destruct Hrun as [g [Hgrow Hrun]].
  apply growthLoop_geometry in Hgrow. simpl in Hgrow.
  apply bind_done in Hrun. destruct Hrun as [[pe1 merge_labels] [Hmerge Hrun]].
  unfold mergePlanes in Hmerge.
  apply bind_done in Hmerge. destruct Hmerge as [st [Hrows Hst]].
  apply mergeRows_geometry in Hrows. simpl in Hrows.
  injection Hst as Hpe1 _. rewrite Hpe1 in Hrows.
  apply bind_done in Hrun. destruct Hrun as [[pe2 im] [Hemit Hrun]].
  injection Hrun as _ <-.
  exists pe1, (g_segments g), merge_labels, organized, pe2, im.
  split; [exact Horg|]. split; [|split; [exact Hemit|reflexivity]].
  eapply same_geometry_trans; [exact Hfind|].
  eapply same_geometry_trans; [exact Hgrow|exact Hrows].
Qed.

(** With refinement, the labels of a call of [process] that returns
    are 0 at every pixel of the margin. *)
Lemma process_margin_is_zero fuel pe (organized_fresh spherical_fresh : Z -> Q)
    (pcd : Matrix) pe' (labels : list Z) (r c : Z) :
  well_sized pe -> doRefinement (config_ pe) = true ->
  process BITSET_SIZE fuel pe organized_fresh spherical_fresh pcd = Done (pe', labels) ->
  0 <= r < image_height_ pe -> 0 <= c < image_width_ pe ->
  nr_vertical_cells_ pe * patchSize (config_ pe) <= r
  \/ nr_horizontal_cells_ pe * patchSize (config_ pe) <= c ->
  zget 0 labels (r * image_width_ pe + c) = 0.
Proof.
  intros Hws Hrefine Hrun Hr Hc Hmargin.
  destruct (process_emits _ _ _ _ _ _ _ Hrun) as (pe1&segs&ml&org&pe2&im&_&Hgeo&Hemit&->).
  unfold emitLabels in Hemit.
  assert (Hcfg : config_ pe1 = config_ pe) by apply Hgeo.
  rewrite Hcfg, Hrefine in Hemit.
  apply bind_done in Hemit. destruct Hemit as [pe3 [Href Hemit]].
  injection Hemit as _ <-.
  pose proof (same_geometry_trans _ _ _ Hgeo (refinePlanes_geometry _ _ _ _ _ Href)) as Hgeo3.
  pose proof (well_sized_geometry _ _ Hgeo3 Hws) as Hws3.
  destruct Hgeo3 as (Hcfg3&Hwc3&Hhc3&_&_&Hih3&Hiw3).
  rewrite <- Hiw3.
  apply (toLabels_margin pe3 r c Hws3); rewrite ?Hih3, ?Hiw3, ?Hcfg3, ?Hwc3, ?Hhc3; assumption.
Qed.
End ProcessMargin.

(** ** The bottom margin *)

Section BottomMargin.
Context {C : Type} `{CellSegmentOps C} `{Libm}.
Variable BITSET_SIZE : Z.

Implicit Type pe : PlaneExtractor C.

(** A pixel whose third coordinate [organizeByCell] stores outside of
    the organized array leaves the call undefined. *)
Lemma organizeByCell_store_outside pe (fresh : Z -> Q) (pcd : Matrix) (r c : Z) :
  0 <= r < image_height_ pe -> 0 <= c < image_width_ pe ->
  in_buffer (rows pcd * cols pcd)
    (2 * (image_width_ pe * image_height_ pe) + cell_shift pe r c) = false ->
  organizeByCell pe fresh pcd = Undefined.
Proof.
  intros Hr Hc Hout. unfold organizeByCell.
  destruct ((patchSize (config_ pe) =? 0) && (0 <? image_height_ pe)); [reflexivity|].
  rewrite (fold_outcome_undefined _ _ (r, c)); [reflexivity| | |].
  - apply in_flat_map. exists r. split; [now apply in_zrange|].
    apply in_map_iff. exists c. split; [reflexivity|now apply in_zrange].
  - intros [out id]. unfold copy_value. rewrite Hout, andb_false_r.
    destruct (_ && _); cbn [bind]; [|reflexivity].
    destruct (_ && _); cbn [bind]; reflexivity.
  - intros [out id] [r' c']. unfold copy_value.
    destruct (_ && _); cbn [bind]; [|now left].
    destruct (_ && _); cbn [bind]; [|now left].
    destruct (_ && _); cbn [bind]; [|now left].
    right. eauto.
Qed.

(** C6.  For an image with a bottom margin the call of [process] is
    undefined, so that no label of the margin is guaranteed to be 0.
    Let the height of the image be no multiple of the patch size, the
    width a multiple of it with two cells or more in a row, and the
    input of the shape the extractor was built for.  Then
    [organizeByCell] stores the third coordinate of the last pixel of
    the bottom margin at a position that is not below [3 H W], the
    size of the organized array: the call of [organizeByCell] and
    with it the call of [process] are undefined, whichever content the
    matrices that [process] allocates start from. *)
Theorem C6_bottom_margin_is_stored_outside pe (organized_fresh : Z -> Q) (pcd : Matrix) :
  0 < patchSize (config_ pe) ->
  image_width_ pe = nr_horizontal_cells_ pe * patchSize (config_ pe) ->
  2 <= nr_horizontal_cells_ pe ->
  0 <= nr_vertical_cells_ pe ->
  nr_vertical_cells_ pe * patchSize (config_ pe) < image_height_ pe
    < (nr_vertical_cells_ pe + 1) * patchSize (config_ pe) ->
  rows pcd = image_height_ pe * image_width_ pe -> cols pcd = 3 ->
  rows pcd * cols pcd
    <= 2 * (image_width_ pe * image_height_ pe)
       + cell_shift pe (image_height_ pe - 1) (image_width_ pe - 1) /\
  organizeByCell pe organized_fresh pcd = Undefined /\
  forall fuel spherical_fresh,
    process BITSET_SIZE fuel pe organized_fresh spherical_fresh pcd = Undefined.
Proof.
  intros HP HW HWc HHc HH Hrows Hcols.
  set (P := patchSize (config_ pe)) in *.
  set (Wc := nr_horizontal_cells_ pe) in *. set (Hc := nr_vertical_cells_ pe) in *.
  set (m := image_height_ pe - Hc * P).
  assert (Hm : 1 <= m < P) by (subst m; lia).
  assert (Hshift : cell_shift pe (image_height_ pe - 1) (image_width_ pe - 1)
                   = (Hc * Wc + (Wc - 1)) * P * P + (m - 1) * P + (P - 1)).
  { unfold cell_shift. fold P Wc.
    rewrite !Z.quot_div_nonneg, !Z.rem_mod_nonneg by nia.
    assert (Hrq : (image_height_ pe - 1) / P = Hc).
    { symmetry. apply (Z.div_unique _ _ _ (m - 1)); [lia|]. subst m. lia. }
    assert (Hrm : (image_height_ pe - 1) mod P = m - 1).
    { symmetry. apply (Z.mod_unique _ _ Hc); [lia|]. subst m. lia. }
    assert (Hcq : (image_width_ pe - 1) / P = Wc - 1).
    { symmetry. apply (Z.div_unique _ _ _ (P - 1)); [lia|]. rewrite HW. lia. }
    assert (Hcm : (image_width_ pe - 1) mod P = P - 1).
    { symmetry. apply (Z.mod_unique _ _ (Wc - 1)); [lia|]. rewrite HW. lia. }
    rewrite Hrq, Hrm, Hcq, Hcm. reflexivity. }
  assert (Hpast : rows pcd * cols pcd
                  <= 2 * (image_width_ pe * image_height_ pe)
                     + cell_shift pe (image_height_ pe - 1) (image_width_ pe - 1)).
  { rewrite Hshift, Hrows, Hcols, HW.
    replace (image_height_ pe) with (Hc * P + m) by (subst m; lia).
    assert (Hsq : 1 <= P * (P - m)) by nia.
    assert (Hgap : 1 * 1 <= (Wc - 1) * (P * (P - m))).
    { apply Z.mul_le_mono_nonneg; lia. }
    lia. }
  assert (Horg : organizeByCell pe organized_fresh pcd = Undefined).
  { apply (organizeByCell_store_outside pe organized_fresh pcd
             (image_height_ pe - 1) (image_width_ pe - 1)).
    - nia.
    - nia.
    - unfold in_buffer. apply andb_false_iff. right. apply Z.ltb_ge. exact Hpast. }
  split; [exact Hpast|]. split; [exact Horg|].
  intros fuel spherical_fresh. unfold process. rewrite Horg. reflexivity.
Qed.
End BottomMargin.

Lemma C6_bottom_margin_is_stored_outside_witness :
  organizeByCell (newPlaneExtractor (C := SimpleCell) 5 16 (config_2x8 true))
    (fun _ => 0%Q) cloud_5x16 = Undefined /\
  process 64 3 (newPlaneExtractor (C := SimpleCell) 5 16 (config_2x8 true))
    (fun _ => 0%Q) (fun _ => 0%Q) cloud_5x16 = Undefined.
Proof.
  destruct (C6_bottom_margin_is_stored_outside 64
              (newPlaneExtractor (C := SimpleCell) 5 16 (config_2x8 true))
              (fun _ => 0%Q) cloud_5x16)
    as (_&Horg&Hrun).
  - reflexivity.
  - reflexivity.
  - vm_compute. discriminate.
  - vm_compute. discriminate.
  - split; reflexivity.
  - reflexivity.
  - reflexivity.
  - split; [exact Horg|apply Hrun].
Defined.

(** * Further properties of the pipeline *)

(** ** Counting loops and point-wise writes *)

Lemma zrange_nil (lo hi : Z) : hi <= lo -> zrange lo hi = [].
Proof.
  intros Hle. unfold zrange.
  replace (Z.to_nat (hi - lo)) with 0%nat by lia. reflexivity.
Qed.

Lemma zrange_cons (lo hi : Z) : lo < hi -> zrange lo hi = lo :: zrange (lo + 1) hi.
Proof.
  intros Hlt. unfold zrange.
  replace (Z.to_nat (hi - lo)) with (S (Z.to_nat (hi - (lo + 1)))) by lia.
  simpl. f_equal; [lia|].
  rewrite <- seq_shift, map_map. apply map_ext. intros k. lia.
Qed.

Lemma zrange_app (a b c : Z) : a <= b <= c -> zrange a c = zrange a b ++ zrange b c.
Proof.
  remember (Z.to_nat (b - a)) as k eqn:Hk. revert a Hk.
  induction k as [|k IH]; intros a Hk Habc.
  - assert (a = b) by lia. subst a. now rewrite (zrange_nil b b) by lia.
  - rewrite (zrange_cons a c), (zrange_cons a b) by lia. simpl. f_equal.
    apply IH; lia.
Qed.

Lemma zrange_snoc (lo hi : Z) : lo <= hi -> zrange lo (hi + 1) = zrange lo hi ++ [hi].
Proof.
  intros Hle. rewrite (zrange_app lo hi (hi + 1)) by lia. f_equal.
  rewrite zrange_cons by lia. now rewrite zrange_nil by lia.
Qed.

Lemma zrange_shift (a b d : Z) : zrange (a + d) (b + d) = map (fun k => k + d) (zrange a b).
Proof.
  unfold zrange. rewrite map_map.
  replace (b + d - (a + d)) with (b - a) by lia. apply map_ext. intros k. lia.
Qed.

Lemma fold_left_ext {A B} (f g : A -> B -> A) (l : list B) (a : A) :
  (forall a b, f a b = g a b) -> fold_left f l a = fold_left g l a.
Proof.
  intros Hfg. revert a. induction l as [|b l IH]; intros a; simpl; [reflexivity|].
  now rewrite Hfg, IH.
Qed.

(** A loop that carries a counter besides its state. *)
Lemma fold_left_counter {S X} (step : S -> Z -> X -> S) (g : Z -> X) (hi : Z) :
  forall lo s0, lo <= hi ->
    fold_left (fun st x => (step (fst st) (snd st) x, snd st + 1)) (map g (zrange lo hi))
      (s0, lo)
    = (fold_left (fun s j => step s j (g j)) (zrange lo hi) s0, hi).
Proof.
  intros lo. remember (Z.to_nat (hi - lo)) as k eqn:Hk. revert lo Hk.
  induction k as [|k IH]; intros lo Hk s0 Hle.
  - assert (lo = hi) by lia. subst lo. now rewrite zrange_nil by lia.
  - rewrite zrange_cons by lia. simpl. apply IH; lia.
Qed.

(** The cells of a grid of [W] columns and [H] rows in row-major order
    are the cells with the linear indices [0 .. H W - 1]. *)
Lemma grid_enum (W H : Z) :
  0 <= W -> 0 <= H ->
  flat_map (fun r => map (fun c => (r, c)) (zrange 0 W)) (zrange 0 H)
  = map (fun j => (j / W, j mod W)) (zrange 0 (H * W)).
Proof.
  intros HW. revert H. apply natlike_ind.
  - reflexivity.
  - intros H HH IH. unfold Z.succ.
    rewrite zrange_snoc by lia. rewrite flat_map_app, IH. simpl. rewrite app_nil_r.
    rewrite (zrange_app 0 (H * W) ((H + 1) * W)) by nia. rewrite map_app. f_equal.
    replace ((H + 1) * W) with (W + H * W) by lia.
    rewrite <- (Z.add_0_l (H * W)) at 1. rewrite zrange_shift, map_map.
    apply map_ext_in. intros c Hc. apply in_zrange in Hc.
    rewrite Z.div_add, Z.mod_add by lia.
    rewrite Z.div_small, Z.mod_small by lia. reflexivity.
Qed.

Lemma grid_cells_enum {C} (pe : PlaneExtractor C) :
  grid_shaped pe ->
  grid_cells pe
  = map (fun j => (j / nr_horizontal_cells_ pe, j mod nr_horizontal_cells_ pe))
      (zrange 0 (nr_total_cells_ pe)).
Proof.
  intros (HN&HW&HH). unfold grid_cells. rewrite grid_enum by assumption.
  now rewrite HN, Z.mul_comm.
Qed.

(** The linear index of the cell in row [j / W] and column [j mod W]. *)
Lemma cell_index_enum (W j : Z) : j / W * W + j mod W = j.
Proof.
  destruct (Z.eq_dec W 0) as [->|HW].
  - rewrite Z.div_0_r, Z.mod_0_r. lia.
  - pose proof (Z.div_mod j W HW). lia.
Qed.

Section PointwiseWrites.
Context {A : Type}.
Variable f : Z -> A.
Variable d : A.

Lemma fold_zset_length (l : list Z) : forall init : list A,
  length (fold_left (fun t j => zset t j (f j)) l init) = length init.
Proof.
  induction l as [|a l IH]; intros init; simpl; [reflexivity|].
  now rewrite IH, length_zset.
Qed.

Lemma fold_zset_other (l : list Z) (i : Z) : forall init : list A,
  ~ In i l ->
  zget d (fold_left (fun t j => zset t j (f j)) l init) i = zget d init i.
Proof.
  induction l as [|a l IH]; intros init Hno; simpl; [reflexivity|].
  rewrite IH by (intros Hin; apply Hno; now right).
  apply zget_zset_ne. intros ->. apply Hno. now left.
Qed.

Lemma fold_zset_written (l : list Z) (i : Z) : forall init : list A,
  In i l -> 0 <= i < Z.of_nat (length init) ->
  zget d (fold_left (fun t j => zset t j (f j)) l init) i = f i.
Proof.
  induction l as [|a l IH]; intros init Hin Hi; [destruct Hin|]. simpl.
  destruct (in_dec Z.eq_dec i l) as [Hl|Hl].
  - apply IH; [exact Hl|]. now rewrite length_zset.
  - destruct Hin as [->|Hin]; [|contradiction].
    rewrite fold_zset_other by exact Hl. now apply zget_zset_eq.
Qed.
End PointwiseWrites.

Lemma testbit_assign_bit (b i j : Z) (v : bool) :
  0 <= i -> Z.testbit (assign_bit b i v) j = if j =? i then v else Z.testbit b j.
Proof.
  intros Hi. unfold assign_bit. destruct v.
  - rewrite Z.setbit_eqb by exact Hi. rewrite (Z.eqb_sym i j).
    destruct (j =? i); reflexivity.
  - rewrite Z.clearbit_eqb. rewrite (Z.eqb_sym i j).
    destruct (j =? i); simpl; [apply andb_false_r|apply andb_true_r].
Qed.

Lemma fold_assign_bit (f : Z -> bool) (l : list Z) (i : Z) : forall b,
  (forall j, In j l -> 0 <= j) ->
  Z.testbit (fold_left (fun b j => assign_bit b j (f j)) l b) i
  = if in_dec Z.eq_dec i l then f i else Z.testbit b i.
Proof.
  induction l as [|a l IH]; intros b Hpos; simpl; [reflexivity|].
  rewrite IH by (intros j Hj; apply Hpos; now right).
  rewrite testbit_assign_bit by (apply Hpos; now left).
  destruct (in_dec Z.eq_dec i l) as [Hl|Hl];
    destruct (Z.eq_dec a i) as [->|Hne]; try reflexivity.
  - now rewrite Z.eqb_refl.
  - apply Z.eqb_neq in Hne. rewrite Z.eqb_sym in Hne. now rewrite Hne.
Qed.

Lemma fold_left_pair {S1 S2 X} (f1 : S1 -> X -> S1) (f2 : S2 -> X -> S2) (l : list X) :
  forall s1 s2,
    fold_left (fun st x => (f1 (fst st) x, f2 (snd st) x)) l (s1, s2)
    = (fold_left f1 l s1, fold_left f2 l s2).
Proof. induction l as [|x l IH]; intros s1 s2; simpl; [reflexivity|apply IH]. Qed.


(** ** Planar cell fitting *)

Section FindPlanarCells.
Context {C : Type} `{CellSegmentOps C}.
Variable BITSET_SIZE : Z.

Implicit Type pe : PlaneExtractor C.

Lemma findPlanarCells_fold pe (pcd : Matrix) :
  grid_shaped pe ->
  nr_total_cells_ pe <= Z.of_nat (length (cell_grid_ pe)) ->
  nr_total_cells_ pe <= BITSET_SIZE ->
  findPlanarCells BITSET_SIZE pe pcd
  = Done (with_cell_grid pe
            (fold_left (fun t j => zset t j (Some (fresh_cell pe pcd j)))
               (zrange 0 (nr_total_cells_ pe)) (cell_grid_ pe)),
          fold_left (fun b j => assign_bit b j (isPlanar (fresh_cell pe pcd j)))
            (zrange 0 (nr_total_cells_ pe)) 0).
Proof.
  intros Hshape Hlen Hbits. unfold findPlanarCells.
  rewrite (grid_cells_enum pe Hshape).
  set (l := map _ (zrange 0 (nr_total_cells_ pe))).
  set (g := fun (st : list (option C) * Z * Z) (x : Z * Z) =>
              ((zset (fst (fst st)) (snd st) (Some (fresh_cell pe pcd (snd st))),
                assign_bit (snd (fst st)) (snd st)
                  (isPlanar (fresh_cell pe pcd (snd st)))),
               snd st + 1)).
  match goal with
  | |- context [fold_outcome ?f l _] =>
      destruct (fold_outcome_pure f g
                  (fun k st => snd st = Z.of_nat k
                               /\ length (fst (fst st)) = length (cell_grid_ pe))
                  l 0%nat (cell_grid_ pe, 0, 0)) as [Hrun _]
  end.
  - split; reflexivity.
  - intros j [[cells flags] id] b [Hid Hl] Hb. cbn [fst snd] in Hid, Hl.
    apply lookup_lt_Some in Hb. subst l. rewrite length_map, length_zrange in Hb.
    assert (Hin : forall size, nr_total_cells_ pe <= size -> in_buffer size id = true).
    { intros size Hsize. unfold in_buffer. apply andb_true_iff. split; lia. }
    rewrite (Hin (Z.of_nat (length cells))) by (rewrite Hl; exact Hlen).
    rewrite (Hin BITSET_SIZE Hbits). cbn [andb]. split; [reflexivity|].
    subst g. cbn [fst snd]. split; [lia|]. now rewrite length_zset.
  - rewrite Hrun. cbn [bind]. subst g l.
    rewrite (fold_left_counter
               (fun (s : list (option C) * Z) j (_ : Z * Z) =>
                  (zset (fst s) j (Some (fresh_cell pe pcd j)),
                   assign_bit (snd s) j (isPlanar (fresh_cell pe pcd j)))));
      [|destruct Hshape as (HN&HW&HH); nia].
    rewrite (fold_left_pair (fun t j => zset t j (Some (fresh_cell pe pcd j)))
               (fun b j => assign_bit b j (isPlanar (fresh_cell pe pcd j)))).
    reflexivity.
Qed.

(** X1.  When the cell count is not above [BITSET_SIZE] (and the cell
    grid has its size), [findPlanarCells] returns: it has created the
    cell of every position of the grid, from the position, the patch
    size, the organized cloud and the configuration; bit [i] of the
    flags it returns tells whether cell [i] is planar, and no bit
    outside the grid is set. *)
Theorem X1_findPlanarCells_creates_every_cell pe (pcd : Matrix) :
  grid_shaped pe ->
  nr_total_cells_ pe <= Z.of_nat (length (cell_grid_ pe)) ->
  nr_total_cells_ pe <= BITSET_SIZE ->
  exists pe' planar_flags,
    findPlanarCells BITSET_SIZE pe pcd = Done (pe', planar_flags) /\
    same_geometry pe pe' /\
    cells_present pe' /\
    (forall i, 0 <= i < nr_total_cells_ pe ->
       deref (cell_grid_ pe') i = Done (fresh_cell pe pcd i) /\
       Z.testbit planar_flags i = isPlanar (fresh_cell pe pcd i)) /\
    (forall i, Z.testbit planar_flags i = true -> 0 <= i < nr_total_cells_ pe).
Proof.
  intros Hshape Hlen Hbits.
  rewrite (findPlanarCells_fold pe pcd Hshape Hlen Hbits).
  eexists. eexists. split; [reflexivity|]. cbn [with_cell_grid cell_grid_].
  assert (Hcell : forall i, 0 <= i < nr_total_cells_ pe ->
            zget None (fold_left (fun t j => zset t j (Some (fresh_cell pe pcd j)))
                         (zrange 0 (nr_total_cells_ pe)) (cell_grid_ pe)) i
            = Some (fresh_cell pe pcd i)).
  { intros i Hi. apply (fold_zset_written (fun j => Some (fresh_cell pe pcd j))).
    - now apply in_zrange.
    - lia. }
  assert (Hbit : forall i,
            Z.testbit (fold_left (fun b j => assign_bit b j (isPlanar (fresh_cell pe pcd j)))
                         (zrange 0 (nr_total_cells_ pe)) 0) i
            = if in_dec Z.eq_dec i (zrange 0 (nr_total_cells_ pe))
              then isPlanar (fresh_cell pe pcd i) else false).
  { intros i. rewrite fold_assign_bit; [|intros j Hj; apply in_zrange in Hj; lia].
    destruct (in_dec _ _ _); [reflexivity|apply Z.bits_0]. }
  split; [repeat split|]. split; [|split].
  - intros i Hi. cbn [nr_total_cells_ cell_grid_ with_cell_grid] in *.
    rewrite (Hcell i Hi). discriminate.
  - intros i Hi. split.
    + unfold deref. now rewrite (Hcell i Hi).
    + rewrite Hbit. destruct (in_dec _ _ _) as [_|Hno]; [reflexivity|].
      exfalso. apply Hno. now apply in_zrange.
  - intros i. rewrite Hbit. destruct (in_dec _ _ _) as [Hin|_]; [|discriminate].
    intros _. now apply in_zrange in Hin.
Qed.
End FindPlanarCells.

Lemma X1_findPlanarCells_creates_every_cell_witness :
  exists pe' planar_flags,
    findPlanarCells 64 (newPlaneExtractor (C := SimpleCell) 4 16 (config_2x8 true)) cloud_A
    = Done (pe', planar_flags) /\
    cells_present pe' /\ Z.testbit planar_flags 5 = true.
Proof.
  destruct (X1_findPlanarCells_creates_every_cell 64
              (newPlaneExtractor (C := SimpleCell) 4 16 (config_2x8 true)) cloud_A)
    as (pe'&flags&Hrun&_&Hcells&Hbits&_).
  - split; [reflexivity|]. split; vm_compute; discriminate.
  - vm_compute. discriminate.
  - vm_compute. discriminate.
  - exists pe', flags. split; [exact Hrun|]. split; [exact Hcells|].
    destruct (Hbits 5) as [_ Hbit]; [split; [discriminate|reflexivity]|].
    rewrite Hbit. reflexivity.
Defined.


(** ** The distance tolerances of the cells *)

Lemma zget_filled_default {A} (v : A) (n k : Z) : zget v (filled n v) k = v.
Proof.
  unfold zget, filled. destruct (k <? 0); [reflexivity|].
  destruct (repeat v (Z.to_nat n) !! Z.to_nat k) as [q|] eqn:Hq; [|reflexivity].
  pose proof (lookup_lt_Some _ _ _ Hq) as Hlt. rewrite repeat_length in Hlt.
  rewrite (lookup_repeat v _ _ Hlt) in Hq. simpl. congruence.
Qed.

Lemma truncated_distance_range (x lo hi : Q) :
  (lo <= hi)%Q ->
  (lo <= Qmin' (Qmax' x lo) hi)%Q /\ (Qmin' (Qmax' x lo) hi <= hi)%Q.
Proof.
  intros Hlh. unfold Qmin', Qmax'.
  destruct (Qltb x lo) eqn:Hx.
  - destruct (Qltb hi lo) eqn:Hh.
    + apply Qltb_lt in Hh. split; [exact Hlh|apply Qle_refl].
    + split; [apply Qle_refl|exact Hlh].
  - apply Qltb_ge in Hx. destruct (Qltb hi x) eqn:Hh.
    + split; [exact Hlh|apply Qle_refl].
    + apply Qltb_ge in Hh. split; assumption.
Qed.

Lemma Qsq_le (a b : Q) : (0 <= a)%Q -> (a <= b)%Q -> (Qsq a <= Qsq b)%Q.
Proof.
  intros Ha Hab. unfold Qsq.
  apply Qle_trans with (a * b)%Q.
  - rewrite (Qmult_comm a b). apply Qmult_le_compat_r; assumption.
  - apply Qmult_le_compat_r; [exact Hab|]. now apply Qle_trans with a.
Qed.

Section CellDistTols.
Context {C : Type} `{Libm}.
Variable BITSET_SIZE : Z.

Implicit Type pe : PlaneExtractor C.

(** X2.  Let every cell have its block of rows in the organized cloud
    and every planar flag belong to a cell of the grid.  When
    [minCosAngleForMerge] lies in [[-1, 1]], [computeCellDistTols]
    returns one tolerance per cell: the tolerance of a planar cell is
    the square of a distance that was clamped to the interval from 20
    to [maxMergeDist] (it lies between 400 and the square of
    [maxMergeDist]), and the tolerance of every other cell is 0.  When
    [minCosAngleForMerge] is above 1 in absolute value and some cell is
    planar, the tolerance computed is not a number. *)
Theorem X2_cell_tolerances_are_clamped pe (pcd : Matrix) (planar_flags : Z) :
  (20 <= maxMergeDist (config_ pe))%Q ->
  0 <= nr_total_cells_ pe ->
  1 <= nr_pts_per_cell_ pe ->
  nr_total_cells_ pe * nr_pts_per_cell_ pe <= rows pcd -> 3 <= cols pcd ->
  (forall i, 0 <= i < BITSET_SIZE -> Z.testbit planar_flags i = true ->
     i < nr_total_cells_ pe) ->
  ((Qsq (minCosAngleForMerge (config_ pe)) <= 1)%Q ->
   exists tols,
     computeCellDistTols BITSET_SIZE pe pcd planar_flags = Done tols /\
     length tols = Z.to_nat (nr_total_cells_ pe) /\
     (forall i, 0 <= i < nr_total_cells_ pe -> i < BITSET_SIZE ->
        Z.testbit planar_flags i = true ->
        (400 <= zget 0 tols i)%Q /\ (zget 0 tols i <= Qsq (maxMergeDist (config_ pe)))%Q) /\
     (forall i, Z.testbit planar_flags i = false -> zget 0%Q tols i = 0%Q)) /\
  ((1 < Qsq (minCosAngleForMerge (config_ pe)))%Q ->
   set_bits BITSET_SIZE planar_flags <> [] ->
   computeCellDistTols BITSET_SIZE pe pcd planar_flags = NotANumber).
Proof.
  intros Hmax HN Hnpc Hrows Hcols Hflags.
  assert (Hchecks : forall (t : list Q) i,
            length t = Z.to_nat (nr_total_cells_ pe) ->
            In i (set_bits BITSET_SIZE planar_flags) ->
            in_block pcd (i * nr_pts_per_cell_ pe + nr_pts_per_cell_ pe - 1)
            && in_block pcd (i * nr_pts_per_cell_ pe)
            && in_buffer (Z.of_nat (length t)) i = true).
  { intros t i Ht Hi. apply in_set_bits in Hi. destruct Hi as [Hi Hbit].
    pose proof (Hflags i Hi Hbit) as Hlt.
    assert (Hblock : (i + 1) * nr_pts_per_cell_ pe
                     <= nr_total_cells_ pe * nr_pts_per_cell_ pe).
    { apply Z.mul_le_mono_nonneg_r; lia. }
    assert (Hfirst : 0 <= i * nr_pts_per_cell_ pe) by nia.
    unfold in_block, in_buffer. rewrite Ht, Z2Nat.id by exact HN.
    repeat (apply andb_true_iff; split); lia. }
  split.
  - intros Hcos. apply Qltb_ge in Hcos. unfold computeCellDistTols.
    match goal with
    | |- context [fold_outcome ?body _ _] =>
        match body with
        | (fun t j => if _ then if _ then _ else Done (zset t j (@?f j)) else _) =>
            set (tol := f); set (step := body)
        end
    end.
    destruct (fold_outcome_pure step (fun t j => zset t j (tol j))
                (fun _ t => length t = Z.to_nat (nr_total_cells_ pe))
                (set_bits BITSET_SIZE planar_flags) 0%nat
                (filled (nr_total_cells_ pe) 0%Q)) as [Hrun _].
    + unfold filled. apply repeat_length.
    + intros j t i Ht Hi. apply list_elem_of_lookup_2, list_elem_of_In in Hi.
      subst step. cbv beta. rewrite (Hchecks t i Ht Hi), Hcos.
      split; [reflexivity|]. now rewrite length_zset.
    + rewrite Hrun. eexists. split; [reflexivity|]. split; [|split].
      * rewrite (fold_zset_length tol). unfold filled. apply repeat_length.
      * intros i Hi Hsize Hbit.
        rewrite (fold_zset_written tol 0%Q).
        -- subst tol. cbv beta.
           match goal with
           | |- context [Qmin' (Qmax' ?x 20) ?hi] =>
               destruct (truncated_distance_range x 20 hi Hmax) as [Hlo Hhi];
               set (d := Qmin' (Qmax' x 20) hi) in *
           end.
           split.
           ++ change 400%Q with (Qsq 20). apply Qsq_le; [discriminate|exact Hlo].
           ++ apply Qsq_le; [|exact Hhi]. apply Qle_trans with 20%Q; [discriminate|exact Hlo].
        -- apply in_set_bits. split; [lia|exact Hbit].
        -- unfold filled. rewrite repeat_length. lia.
      * intros i Hbit. rewrite (fold_zset_other tol 0%Q).
        -- apply zget_filled_default.
        -- intros Hin. apply in_set_bits in Hin. destruct Hin as [_ Hin]. congruence.
  - intros Hcos Hsome. apply Qltb_lt in Hcos. unfold computeCellDistTols.
    destruct (set_bits BITSET_SIZE planar_flags) as [|i l] eqn:Hbits; [contradiction|].
    cbn [fold_outcome].
    rewrite Hchecks, Hcos; [reflexivity|unfold filled; apply repeat_length|].
    now left.
Qed.
End CellDistTols.

Lemma X2_cell_tolerances_are_clamped_witness :
  (exists tols,
     computeCellDistTols 64 frame_A cloud_A all_unassigned = Done tols /\
     (400 <= zget 0 tols 5)%Q) /\
  computeCellDistTols 64 frame_G cloud_A all_unassigned = NotANumber.
Proof.
  assert (Hflags : forall i, 0 <= i < 64 -> Z.testbit all_unassigned i = true -> i < 16).
  { intros i _ Hbit. apply (bits_below all_unassigned 16 i); [|exact Hbit].
    vm_compute. split; [discriminate|reflexivity]. }
  split.
  - destruct (X2_cell_tolerances_are_clamped 64 frame_A cloud_A all_unassigned)
      as [Hin _].
    + vm_compute. discriminate.
    + vm_compute. discriminate.
    + vm_compute. discriminate.
    + vm_compute. discriminate.
    + vm_compute. discriminate.
    + exact Hflags.
    + destruct Hin as (tols&Hrun&_&Hplanar&_); [vm_compute; discriminate|].
      exists tols. split; [exact Hrun|].
      apply (Hplanar 5); [split; [discriminate|reflexivity]|reflexivity|reflexivity].
  - destruct (X2_cell_tolerances_are_clamped 64 frame_G cloud_A all_unassigned)
      as [_ Hnan].
    + vm_compute. discriminate.
    + vm_compute. discriminate.
    + vm_compute. discriminate.
    + vm_compute. discriminate.
    + vm_compute. discriminate.
    + exact Hflags.
    + apply Hnan; [reflexivity|vm_compute; discriminate].
Defined.


(** ** The cell-major order of the organized cloud *)

(** A sequence of writes to a buffer: a position that is written with
    one value only holds this value in the end. *)
Lemma fold_writes_other {A} (d : A) (ws : list (Z * A)) (p : Z) : forall init : list A,
  (forall v, ~ In (p, v) ws) ->
  zget d (fold_left (fun out w => zset out (fst w) (snd w)) ws init) p = zget d init p.
Proof.
  induction ws as [|[q v] ws IH]; intros init Hno; simpl; [reflexivity|].
  rewrite IH by (intros v' Hin; apply (Hno v'); now right).
  apply zget_zset_ne. intros ->. apply (Hno v). now left.
Qed.

Lemma fold_writes_length {A} (ws : list (Z * A)) : forall init : list A,
  length (fold_left (fun out w => zset out (fst w) (snd w)) ws init) = length init.
Proof.
  induction ws as [|w ws IH]; intros init; simpl; [reflexivity|].
  now rewrite IH, length_zset.
Qed.

Lemma fold_writes_get {A} (d : A) (ws : list (Z * A)) (p : Z) (v : A) : forall init : list A,
  In (p, v) ws -> (forall v', In (p, v') ws -> v' = v) ->
  0 <= p < Z.of_nat (length init) ->
  zget d (fold_left (fun out w => zset out (fst w) (snd w)) ws init) p = v.
Proof.
  induction ws as [|[q u] ws IH]; intros init Hin Hfun Hp; [destruct Hin|]. simpl.
  destruct (in_dec Z.eq_dec p (map fst ws)) as [Hlater|Hlater].
  - apply in_map_iff in Hlater. destruct Hlater as [[p' v'] [Heq Hin']]. simpl in Heq. subst p'.
    assert (v' = v) by (apply Hfun; now right). subst v'.
    apply IH; [exact Hin'| |now rewrite length_zset].
    intros v' Hv'. apply Hfun. now right.
  - rewrite fold_writes_other.
    + assert (Hhere : (q, u) = (p, v)).
      { destruct Hin as [Heq|Hin]; [exact Heq|].
        exfalso. apply Hlater. apply in_map_iff. now exists (p, v). }
      injection Hhere as -> ->. now apply zget_zset_eq.
    + intros v' Hin'. apply Hlater. apply in_map_iff. now exists (p, v').
Qed.

(** Digits in a mixed radix determine the number. *)
Lemma radix_inj (n x y x' y' : Z) :
  0 <= y < n -> 0 <= y' < n -> x * n + y = x' * n + y' -> x = x' /\ y = y'.
Proof. intros Hy Hy' Heq. assert (x = x') by nia. subst x'. lia. Qed.

(** The writes of [organizeByCell], pixel by pixel, when every load
    and every store lies in its buffer. *)
Lemma organizeByCell_stores {C} (pe : PlaneExtractor C) (fresh : Z -> Q) (pcd : Matrix) :
  patchSize (config_ pe) <> 0 ->
  0 <= image_width_ pe -> 0 <= image_height_ pe ->
  rows pcd * cols pcd = 3 * (image_width_ pe * image_height_ pe) ->
  (forall r c, 0 <= r < image_height_ pe -> 0 <= c < image_width_ pe ->
     0 <= cell_shift pe r c < image_width_ pe * image_height_ pe) ->
  let W := image_width_ pe in
  let mxn := image_width_ pe * image_height_ pe in
  let s j := cell_shift pe (j / W) (j mod W) in
  organizeByCell pe fresh pcd
  = Done {| rows := rows pcd;
            cols := cols pcd;
            data := fold_left (fun out w => zset out (fst w) (snd w))
                      (flat_map (fun j => [(s j, zget 0%Q (data pcd) j);
                                           (mxn + s j, zget 0%Q (data pcd) (mxn + j));
                                           (2 * mxn + s j,
                                            zget 0%Q (data pcd) (2 * mxn + j))])
                         (zrange 0 mxn))
                      (map fresh (zrange 0 (rows pcd * cols pcd))) |}.
Proof.
  intros HP HW HH Hsize Hshifts W mxn s.
  unfold organizeByCell.
  replace (patchSize (config_ pe) =? 0) with false by (symmetry; apply Z.eqb_neq; lia).
  cbn [andb].
  rewrite grid_enum by lia. fold W.
  replace (image_height_ pe * W) with mxn by (subst mxn W; ring).
  set (size := rows pcd * cols pcd) in *.
  assert (Hpix : forall j, 0 <= j < mxn ->
            0 <= j / W < image_height_ pe /\ 0 <= j mod W < W).
  { intros j Hj. assert (HWpos : 0 < W) by (subst mxn W; nia).
    split; [|apply Z.mod_pos_bound; lia].
    split; [apply Z.div_pos; lia|]. apply Z.div_lt_upper_bound; [lia|]. subst mxn W. lia. }
  set (g := fun (st : list Q * Z) (rc : Z * Z) =>
              (zset (zset (zset (fst st) (cell_shift pe (fst rc) (snd rc))
                             (zget 0%Q (data pcd) (snd st)))
                       (mxn + cell_shift pe (fst rc) (snd rc))
                       (zget 0%Q (data pcd) (mxn + snd st)))
                 (2 * mxn + cell_shift pe (fst rc) (snd rc))
                 (zget 0%Q (data pcd) (2 * mxn + snd st)),
               snd st + 1)).
  match goal with
  | |- context [fold_outcome ?f ?l ?init] =>
      destruct (fold_outcome_pure f g (fun k st => snd st = Z.of_nat k) l 0%nat init)
        as [Hrun _]
  end.
  - reflexivity.
  - intros j [out id] [r c] Hid Hb. cbn [snd] in Hid.
    rewrite list_lookup_fmap in Hb.
    destruct (zrange 0 mxn !! j) as [x|] eqn:Hx; [|discriminate].
    apply lookup_zrange in Hx. destruct Hx as [-> Hlt].
    injection Hb as <- <-.
    destruct (Hpix (0 + Z.of_nat j)) as [Hjr Hjc]; [lia|].
    pose proof (Hshifts _ _ Hjr Hjc) as Hshift. fold W mxn in Hshift.
    assert (Hin : forall k, 0 <= k < size -> in_buffer size k = true).
    { intros k Hk. unfold in_buffer. apply andb_true_iff. split; lia. }
    unfold copy_value.
    rewrite !Hin by (fold mxn in Hsize; lia). cbn [andb bind].
    split; [reflexivity|]. subst g. cbn [snd]. lia.
  - rewrite Hrun. clear Hrun. cbn [bind]. f_equal. f_equal. subst g.
    rewrite (fold_left_counter
               (fun (out : list Q) j (rc : Z * Z) =>
                  zset (zset (zset out (cell_shift pe (fst rc) (snd rc))
                                (zget 0%Q (data pcd) j))
                          (mxn + cell_shift pe (fst rc) (snd rc))
                          (zget 0%Q (data pcd) (mxn + j)))
                    (2 * mxn + cell_shift pe (fst rc) (snd rc))
                    (zget 0%Q (data pcd) (2 * mxn + j))));
      [|subst mxn W; nia].
    cbn [fst snd].
    generalize (map fresh (zrange 0 size)).
    induction (zrange 0 mxn) as [|j l IH]; intros init; [reflexivity|].
    simpl. apply IH.
Qed.

Section OrganizeByCell.
Context {C : Type}.
Variable pe : PlaneExtractor C.
Hypothesis Hcover : no_margin pe.

Lemma cell_shift_digits (r c : Z) :
  0 <= r < image_height_ pe -> 0 <= c < image_width_ pe ->
  let P := patchSize (config_ pe) in
  cell_shift pe r c = (cell_of_pixel pe r c * P + r mod P) * P + c mod P /\
  0 <= r / P < nr_vertical_cells_ pe /\ 0 <= c / P < nr_horizontal_cells_ pe /\
  0 <= r mod P < P /\ 0 <= c mod P < P.
Proof.
  destruct Hcover as (HP&HW&HH&Hw&Hh). intros Hr Hc P. subst P.
  unfold cell_shift, cell_of_pixel. cbv zeta.
  rewrite !Z.quot_div_nonneg, !Z.rem_mod_nonneg by lia.
  split; [ring|].
  pose proof (Z.mod_pos_bound r _ HP). pose proof (Z.mod_pos_bound c _ HP).
  repeat split; try lia.
  - apply Z.div_pos; lia.
  - apply Z.div_lt_upper_bound; lia.
  - apply Z.div_pos; lia.
  - apply Z.div_lt_upper_bound; lia.
Qed.

Lemma cell_shift_block (r c : Z) :
  0 <= r < image_height_ pe -> 0 <= c < image_width_ pe ->
  let P := patchSize (config_ pe) in
  cell_of_pixel pe r c * (P * P) <= cell_shift pe r c < (cell_of_pixel pe r c + 1) * (P * P).
Proof.
  intros Hr Hc P. destruct (cell_shift_digits r c Hr Hc) as (->&_&_&Hlr&Hlc).
  fold P in Hlr, Hlc |- *. nia.
Qed.

Lemma cell_shift_range (r c : Z) :
  0 <= r < image_height_ pe -> 0 <= c < image_width_ pe ->
  0 <= cell_shift pe r c < image_width_ pe * image_height_ pe.
Proof.
  intros Hr Hc. pose proof (cell_shift_block r c Hr Hc) as Hblock. cbv zeta in Hblock.
  destruct (cell_shift_digits r c Hr Hc) as (_&Hcr&Hcc&_&_).
  destruct Hcover as (HP&HW&HH&Hw&Hh). unfold cell_of_pixel in Hblock.
  set (P := patchSize (config_ pe)) in *.
  set (a := r / P) in *. set (b := c / P) in *.
  set (Wc := nr_horizontal_cells_ pe) in *. set (Hc' := nr_vertical_cells_ pe) in *.
  rewrite Hw, Hh.
  assert (0 <= a * Wc + b) by nia.
  assert (a * Wc + b + 1 <= Hc' * Wc) by nia.
  assert (0 < P * P) by nia.
  split; [nia|].
  apply Z.lt_le_trans with ((a * Wc + b + 1) * (P * P)); [lia|].
  replace (Wc * P * (Hc' * P)) with (Hc' * Wc * (P * P)) by ring.
  apply Z.mul_le_mono_nonneg_r; lia.
Qed.

Lemma cell_shift_inj (r c r' c' : Z) :
  0 <= r < image_height_ pe -> 0 <= c < image_width_ pe ->
  0 <= r' < image_height_ pe -> 0 <= c' < image_width_ pe ->
  cell_shift pe r c = cell_shift pe r' c' -> r = r' /\ c = c'.
Proof.
  intros Hr Hc Hr' Hc'.
  destruct (cell_shift_digits r c Hr Hc) as (->&Hcr&Hcc&Hlr&Hlc).
  destruct (cell_shift_digits r' c' Hr' Hc') as (->&Hcr'&Hcc'&Hlr'&Hlc').
  intros Heq. unfold cell_of_pixel in Heq.
  destruct Hcover as (HP&_).
  apply radix_inj in Heq; [|assumption..]. destruct Heq as [Heq Hlcol].
  apply radix_inj in Heq; [|assumption..]. destruct Heq as [Heq Hlrow].
  apply radix_inj in Heq; [|assumption..]. destruct Heq as [Hcrow Hccol].
  rewrite (Z.div_mod r (patchSize (config_ pe))), (Z.div_mod r' (patchSize (config_ pe))),
    (Z.div_mod c (patchSize (config_ pe))), (Z.div_mod c' (patchSize (config_ pe))) by lia.
  rewrite Hcrow, Hccol, Hlrow, Hlcol. split; reflexivity.
Qed.

Variable pcd : Matrix.
Variable fresh : Z -> Q.

(** The writes of [organizeByCell] when the cells cover the image. *)
Lemma organizeByCell_writes :
  rows pcd = image_height_ pe * image_width_ pe -> cols pcd = 3 ->
  let W := image_width_ pe in
  let mxn := image_width_ pe * image_height_ pe in
  let s j := cell_shift pe (j / W) (j mod W) in
  organizeByCell pe fresh pcd
  = Done {| rows := rows pcd;
            cols := cols pcd;
            data := fold_left (fun out w => zset out (fst w) (snd w))
                      (flat_map (fun j => [(s j, zget 0%Q (data pcd) j);
                                           (mxn + s j, zget 0%Q (data pcd) (mxn + j));
                                           (2 * mxn + s j,
                                            zget 0%Q (data pcd) (2 * mxn + j))])
                         (zrange 0 mxn))
                      (map fresh (zrange 0 (rows pcd * cols pcd))) |}.
Proof.
  intros Hrows Hcols. pose proof Hcover as (HP&HW&HH&Hw&Hh).
  apply organizeByCell_stores.
  - lia.
  - nia.
  - nia.
  - rewrite Hrows, Hcols. ring.
  - exact cell_shift_range.
Qed.

(** X3.  When the cells cover the image and the input has the shape
    the extractor was built for, [organizeByCell] returns, whatever the
    organized array held when it was allocated.  The point of the
    pixel at row [r] and column [c] is stored in row [cell_shift r c]
    of the organized cloud, and this row lies in the block of
    [patchSize^2] rows of the cell of the pixel: the organized cloud
    holds the points cell by cell, and no point is lost or
    overwritten. *)
Theorem X3_organizeByCell_is_cell_major (r c k : Z) :
  rows pcd = image_height_ pe * image_width_ pe -> cols pcd = 3 ->
  0 <= r < image_height_ pe -> 0 <= c < image_width_ pe -> 0 <= k < 3 ->
  let P := patchSize (config_ pe) in
  exists organized,
    organizeByCell pe fresh pcd = Done organized /\
    rows organized = rows pcd /\ cols organized = cols pcd /\
    cell_of_pixel pe r c * (P * P) <= cell_shift pe r c
      < (cell_of_pixel pe r c + 1) * (P * P) /\
    coeff organized (cell_shift pe r c) k = coeff pcd (r * image_width_ pe + c) k.
Proof.
  intros Hrows Hcols Hr Hc Hk P.
  rewrite (organizeByCell_writes Hrows Hcols). cbv zeta.
  eexists. split; [reflexivity|]. cbn [rows cols].
  split; [reflexivity|]. split; [reflexivity|].
  split; [now apply cell_shift_block|].
  pose proof Hcover as (HP&HW&HH&Hw&Hh).
  unfold coeff. cbn [rows data]. rewrite Hrows, Hcols.
  set (W := image_width_ pe) in *. set (Hi := image_height_ pe) in *.
  set (mxn := W * Hi).
  replace (Hi * W) with mxn by (subst mxn; ring).
  assert (HWpos : 0 < W) by lia.
  set (j0 := r * W + c).
  assert (Hj0 : 0 <= j0 < mxn) by (subst j0 mxn; nia).
  assert (Hdiv : j0 / W = r /\ j0 mod W = c).
  { subst j0. split.
    - rewrite Z.div_add_l by lia. rewrite Z.div_small by lia. lia.
    - rewrite Z.add_comm, Z.mod_add by lia. apply Z.mod_small. lia. }
  destruct Hdiv as [Hdiv Hmod].
  assert (Hpix : forall j, 0 <= j < mxn -> 0 <= j / W < Hi /\ 0 <= j mod W < W).
  { intros j Hj. split; [|apply Z.mod_pos_bound; lia].
    split; [apply Z.div_pos; lia|]. apply Z.div_lt_upper_bound; [lia|]. subst mxn. lia. }
  apply fold_writes_get.
  - apply in_flat_map. exists j0. split; [now apply in_zrange|].
    rewrite Hdiv, Hmod.
    assert (Hcase : k = 0 \/ k = 1 \/ k = 2) by lia.
    destruct Hcase as [-> | [-> | ->]]; simpl.
    + left. f_equal.
    + right. left. f_equal; f_equal; lia.
    + right. right. left. f_equal; f_equal; lia.
  - intros v' Hin. apply in_flat_map in Hin. destruct Hin as [j [Hj Hin]].
    apply in_zrange in Hj.
    destruct (Hpix j Hj) as [Hjr Hjc].
    pose proof (cell_shift_range _ _ Hjr Hjc) as Hsj.
    pose proof (cell_shift_range r c Hr Hc) as Hs.
    fold W Hi mxn in Hsj, Hs.
    assert (Hsame : forall k', 0 <= k' < 3 ->
              k' * mxn + cell_shift pe (j / W) (j mod W) = k * mxn + cell_shift pe r c ->
              k' = k /\ j = j0).
    { intros k' Hk' Heq.
      assert (k' = k) by nia. subst k'. split; [reflexivity|].
      assert (Hs' : cell_shift pe (j / W) (j mod W) = cell_shift pe r c) by lia.
      apply cell_shift_inj in Hs'; try assumption. destruct Hs' as [Hjr' Hjc'].
      subst j0. rewrite <- Hjr', <- Hjc'. rewrite (Z.div_mod j W) at 1 by lia. ring. }
    simpl in Hin. destruct Hin as [Hw0|[Hw1|[Hw2|[]]]].
    + injection Hw0 as Hpos <-. destruct (Hsame 0) as [<- ->]; [lia|lia|].
      first [reflexivity | f_equal; lia].
    + injection Hw1 as Hpos <-. destruct (Hsame 1) as [<- ->]; [lia|lia|].
      first [reflexivity | f_equal; lia].
    + injection Hw2 as Hpos <-. destruct (Hsame 2) as [<- ->]; [lia|lia|].
      first [reflexivity | f_equal; lia].
  - rewrite length_map, length_zrange.
    pose proof (cell_shift_range r c Hr Hc). fold W Hi mxn in H. nia.
Qed.
End OrganizeByCell.

Lemma X3_organizeByCell_is_cell_major_witness :
  exists organized,
    organizeByCell frame_A (fun _ => 0%Q) cloud_A = Done organized /\
    coeff organized (cell_shift frame_A 1 6) 2 = coeff cloud_A (1 * 16 + 6) 2.
Proof.
  destruct (X3_organizeByCell_is_cell_major frame_A) with
    (pcd := cloud_A) (fresh := fun _ : Z => 0%Q) (r := 1) (c := 6) (k := 2)
    as (organized&Hrun&_&_&_&Hpoint).
  - split; [reflexivity|]. split; [discriminate|]. split; [discriminate|].
    split; reflexivity.
  - reflexivity.
  - reflexivity.
  - split; [discriminate|reflexivity].
  - split; [discriminate|reflexivity].
  - split; [discriminate|reflexivity].
  - exists organized. split; [exact Hrun|exact Hpoint].
Defined.


(** ** The conditions under which the first two stages are defined *)

Section FindPlanarCellsBounds.
Context {C : Type} `{CellSegmentOps C}.
Variable BITSET_SIZE : Z.

Implicit Type pe : PlaneExtractor C.

(** X17.  [findPlanarCells] is undefined when the grid has more cells
    than [BITSET_SIZE] bits, or more cells than [cell_grid_] has
    entries: the loop writes [cell_grid_[i]] and [planar_flags[i]] for
    every cell index [i] below the cell count, and neither [operator[]]
    checks its argument.  The constructor accepts every image size. *)
Theorem X17_findPlanarCells_leaves_the_bit_set pe (pcd : Matrix) :
  grid_shaped pe ->
  0 <= BITSET_SIZE ->
  BITSET_SIZE < nr_total_cells_ pe
  \/ Z.of_nat (length (cell_grid_ pe)) < nr_total_cells_ pe ->
  findPlanarCells BITSET_SIZE pe pcd = Undefined.
Proof.
  intros Hshape Hsize Hmany. unfold findPlanarCells.
  rewrite (grid_cells_enum pe Hshape).
  set (bound := Z.min BITSET_SIZE (Z.of_nat (length (cell_grid_ pe)))).
  assert (Hbound : 0 <= bound < nr_total_cells_ pe) by (subst bound; lia).
  match goal with
  | |- context [fold_outcome ?f ?l ?init] =>
      rewrite (fold_outcome_stops f
                 (fun k st => snd st = Z.of_nat k
                              /\ length (fst (fst st)) = length (cell_grid_ pe))
                 l 0%nat init)
  end.
  - reflexivity.
  - split; reflexivity.
  - intros j [[cells flags] id] b [Hid Hl] _. cbn [fst snd] in Hid, Hl.
    destruct (_ && _); [right|now left].
    eexists. split; [reflexivity|]. cbn [fst snd]. split; [lia|now rewrite length_zset].
  - exists (Z.to_nat bound), (bound / nr_horizontal_cells_ pe, bound mod nr_horizontal_cells_ pe).
    split.
    + rewrite list_lookup_fmap, zrange_lookup by lia.
      simpl. repeat f_equal; lia.
    + intros [[cells flags] id] [Hid Hl]. cbn [fst snd] in Hid, Hl.
      replace (in_buffer (Z.of_nat (length cells)) id && in_buffer BITSET_SIZE id)
        with false; [reflexivity|].
      symmetry. unfold in_buffer. rewrite Hl.
      apply andb_false_iff.
      destruct (Z.le_ge_cases BITSET_SIZE (Z.of_nat (length (cell_grid_ pe)))).
      * right. apply andb_false_iff. right. apply Z.ltb_ge. subst bound. lia.
      * left. apply andb_false_iff. right. apply Z.ltb_ge. subst bound. lia.
Qed.
End FindPlanarCellsBounds.

Lemma X17_findPlanarCells_leaves_the_bit_set_witness :
  findPlanarCells 8 (newPlaneExtractor (C := SimpleCell) 4 16 (config_2x8 true)) cloud_A
  = Undefined.
Proof.
  apply (X17_findPlanarCells_leaves_the_bit_set 8
           (newPlaneExtractor (C := SimpleCell) 4 16 (config_2x8 true)) cloud_A).
  - split; [reflexivity|]. split; vm_compute; discriminate.
  - vm_compute. discriminate.
  - left. vm_compute. reflexivity.
Defined.

Section ShortInput.
Context {C : Type}.

Implicit Type pe : PlaneExtractor C.

(** X18.  [organizeByCell] is undefined for an input that holds fewer
    than [3 H W] values (as an array of fewer than [H W] rows of three
    columns does): the copy loop loads position [2 H W + i] of the
    input for every pixel index [i < H W], whatever the dimensions of
    the input are. *)
Theorem X18_organizeByCell_reads_past_a_short_input pe (fresh : Z -> Q) (pcd : Matrix) :
  0 < image_height_ pe -> 0 < image_width_ pe ->
  rows pcd * cols pcd < 3 * (image_width_ pe * image_height_ pe) ->
  organizeByCell pe fresh pcd = Undefined.
Proof.
  intros HH HW Hshort. unfold organizeByCell.
  destruct ((patchSize (config_ pe) =? 0) && (0 <? image_height_ pe)); [reflexivity|].
  rewrite grid_enum by lia.
  set (mxn := image_width_ pe * image_height_ pe) in *.
  replace (image_height_ pe * image_width_ pe) with mxn by (subst mxn; ring).
  assert (Hmxn : 0 < mxn) by (subst mxn; nia).
  set (size := rows pcd * cols pcd) in *.
  set (bad := Z.max 0 (size - 2 * mxn)).
  assert (Hbad : 0 <= bad < mxn /\ size <= 2 * mxn + bad) by (subst bad; lia).
  match goal with
  | |- context [fold_outcome ?f ?l ?init] =>
      rewrite (fold_outcome_stops f (fun k st => snd st = Z.of_nat k) l 0%nat init)
  end.
  - reflexivity.
  - reflexivity.
  - intros j [out id] [r c] Hid _. cbn [snd] in Hid. unfold copy_value.
    destruct (_ && _); cbn [bind]; [|now left].
    destruct (_ && _); cbn [bind]; [|now left].
    destruct (_ && _); cbn [bind]; [|now left].
    right. eexists. split; [reflexivity|]. cbn [snd]. lia.
  - exists (Z.to_nat bad), (bad / image_width_ pe, bad mod image_width_ pe).
    split.
    + rewrite list_lookup_fmap, zrange_lookup by lia.
      simpl. repeat f_equal; lia.
    + intros [out id] Hid. cbn [snd] in Hid. unfold copy_value.
      assert (Hout : in_buffer size (2 * mxn + id) = false).
      { unfold in_buffer. apply andb_false_iff. right. apply Z.ltb_ge. lia. }
      rewrite Hout. cbn [andb].
      destruct (_ && _); cbn [bind]; [|reflexivity].
      destruct (_ && _); cbn [bind]; reflexivity.
Qed.
End ShortInput.

Lemma X18_organizeByCell_reads_past_a_short_input_witness :
  organizeByCell (newPlaneExtractor (C := SimpleCell) 4 16 (config_2x8 true))
    (fun _ => 0%Q) cloud_63 = Undefined.
Proof.
  apply (X18_organizeByCell_reads_past_a_short_input
           (newPlaneExtractor (C := SimpleCell) 4 16 (config_2x8 true))).
  - reflexivity.
  - reflexivity.
  - reflexivity.
Defined.


(** ** An image with a right margin *)

(** The value that the last write to a position leaves there. *)
Lemma fold_writes_last {A} (d : A) (ws1 ws2 : list (Z * A)) (p : Z) (v : A) (init : list A) :
  (forall v', ~ In (p, v') ws2) -> 0 <= p < Z.of_nat (length init) ->
  zget d (fold_left (fun out w => zset out (fst w) (snd w)) (ws1 ++ (p, v) :: ws2) init) p = v.
Proof.
  intros Hlast Hp. rewrite fold_left_app. simpl.
  rewrite fold_writes_other by exact Hlast.
  apply zget_zset_eq. now rewrite fold_writes_length.
Qed.

Lemma fold_writes_triple {A} (d : A) (ws1 ws2 : list (Z * A)) (a b c : Z) (va vb vc : A)
    (init : list A) :
  a <> b -> a <> c -> b <> c ->
  (forall p v', In (p, v') ws2 -> p <> a /\ p <> b /\ p <> c) ->
  0 <= a < Z.of_nat (length init) -> 0 <= b < Z.of_nat (length init) ->
  0 <= c < Z.of_nat (length init) ->
  let out := fold_left (fun out w => zset out (fst w) (snd w))
               (ws1 ++ (a, va) :: (b, vb) :: (c, vc) :: ws2) init in
  zget d out a = va /\ zget d out b = vb /\ zget d out c = vc.
Proof.
  intros Hab Hac Hbc Hws2 Ha Hb Hc out. subst out. split; [|split].
  - apply fold_writes_last; [|exact Ha].
    intros v' [Heq|[Heq|Hin]]; [congruence|congruence|].
    now destruct (Hws2 _ _ Hin) as (Hne&_&_).
  - replace (ws1 ++ (a, va) :: (b, vb) :: (c, vc) :: ws2)
      with ((ws1 ++ [(a, va)]) ++ (b, vb) :: (c, vc) :: ws2) by (now rewrite <- app_assoc).
    apply fold_writes_last; [|exact Hb].
    intros v' [Heq|Hin]; [congruence|].
    now destruct (Hws2 _ _ Hin) as (_&Hne&_).
  - replace (ws1 ++ (a, va) :: (b, vb) :: (c, vc) :: ws2)
      with ((ws1 ++ [(a, va); (b, vb)]) ++ (c, vc) :: ws2) by (now rewrite <- app_assoc).
    apply fold_writes_last; [|exact Hc].
    intros v' Hin. now destruct (Hws2 _ _ Hin) as (_&_&Hne).
Qed.

Section RightMargin.
Context {C : Type}.
Variable pe : PlaneExtractor C.

Let P := patchSize (config_ pe).
Let Wc := nr_horizontal_cells_ pe.
Let Hc := nr_vertical_cells_ pe.
Let W := image_width_ pe.
Let mxn := image_width_ pe * image_height_ pe.

Hypothesis Hfits : right_margin_fits pe.

Lemma margin_shift_digits (r c : Z) :
  0 <= r < image_height_ pe -> 0 <= c < W ->
  cell_shift pe r c = (((r / P) * Wc + c / P) * P + r mod P) * P + c mod P /\
  0 <= r / P < Hc /\ 0 <= c / P <= Wc /\
  0 <= r mod P < P /\ 0 <= c mod P < P /\
  (c / P = Wc -> c mod P < W - Wc * P /\ P <= Hc).
Proof.
  destruct Hfits as (HP&HWc&HHc&Hh&Hw&Hrows). fold P Wc Hc W in HP, HWc, HHc, Hh, Hw, Hrows.
  intros Hr Hcol. unfold cell_shift. fold P Wc.
  rewrite !Z.quot_div_nonneg, !Z.rem_mod_nonneg by lia.
  split; [ring|].
  pose proof (Z.mod_pos_bound r _ HP) as Hlr. pose proof (Z.mod_pos_bound c _ HP) as Hlc.
  pose proof (Z.div_mod c P ltac:(lia)) as Hc_eq.
  assert (Hcr : 0 <= r / P < Hc).
  { split; [apply Z.div_pos; lia|]. apply Z.div_lt_upper_bound; lia. }
  assert (Hcc : 0 <= c / P <= Wc).
  { split; [apply Z.div_pos; lia|].
    assert (c / P < Wc + 1); [|lia]. apply Z.div_lt_upper_bound; lia. }
  repeat split; lia.
Qed.

Lemma margin_shift_range (r c : Z) :
  0 <= r < image_height_ pe -> 0 <= c < W -> 0 <= cell_shift pe r c < mxn.
Proof.
  intros Hr Hcol.
  destruct (margin_shift_digits r c Hr Hcol) as (->&Hcr&Hcc&Hlr&Hlc&Hmargin).
  destruct Hfits as (HP&HWc&HHc&Hh&Hw&_). fold P Wc Hc W in HP, HWc, HHc, Hh, Hw.
  set (a := r / P) in *. set (b := c / P) in *.
  set (lr := r mod P) in *. set (lc := c mod P) in *.
  assert (Hcell : 0 <= a * Wc + b) by nia.
  split; [nia|].
  subst mxn. fold W. rewrite Hh.
  destruct (Z.eq_dec b Wc) as [Hb|Hb].
  - destruct (Hmargin Hb) as [Hlc' HPH]. subst b.
    set (mw := W - Wc * P) in *.
    assert (Hidx : a * Wc + Wc <= Hc * Wc) by nia.
    assert (H1 : (a * Wc + Wc) * P * P <= Hc * Wc * P * P).
    { apply Z.mul_le_mono_nonneg_r; [lia|]. apply Z.mul_le_mono_nonneg_r; lia. }
    assert (H2 : lr * P + lc < P * P) by nia.
    assert (H3 : P * P <= Hc * P * mw).
    { assert (P * P <= Hc * P) by nia. assert (Hc * P * 1 <= Hc * P * mw); [|lia].
      apply Z.mul_le_mono_nonneg_l; [nia|lia]. }
    replace W with (Wc * P + mw) by (subst mw; lia). lia.
  - assert (Hidx : a * Wc + b + 1 <= Hc * Wc) by nia.
    assert (H1 : (a * Wc + b + 1) * (P * P) <= Hc * Wc * (P * P)).
    { apply Z.mul_le_mono_nonneg_r; nia. }
    assert (H2 : lr * P + lc < P * P) by nia.
    assert (H3 : Hc * Wc * (P * P) <= W * (Hc * P)) by nia.
    lia.
Qed.

(** Two pixels with the same position in the organized cloud, one of
    them inside a cell: they are the same pixel, or the other one is a
    pixel of the margin in an earlier row. *)
Lemma margin_shift_clash (r c r0 c0 : Z) :
  0 <= r < image_height_ pe -> 0 <= c < W ->
  0 <= r0 < image_height_ pe -> 0 <= c0 < Wc * P ->
  cell_shift pe r c = cell_shift pe r0 c0 ->
  (r = r0 /\ c = c0) \/ r < r0.
Proof.
  intros Hr Hcol Hr0 Hcol0.
  pose proof Hfits as (HP&HWc&HHc&Hh&Hw&_). fold P Wc Hc W in HP, HWc, HHc, Hh, Hw.
  destruct (margin_shift_digits r c Hr Hcol) as (->&Hcr&Hcc&Hlr&Hlc&_).
  destruct (margin_shift_digits r0 c0 Hr0 ltac:(lia)) as (->&Hcr0&Hcc0&Hlr0&Hlc0&_).
  assert (Hcc0' : c0 / P < Wc) by (apply Z.div_lt_upper_bound; lia).
  intros Heq.
  apply radix_inj in Heq; [|assumption..]. destruct Heq as [Heq Hlcol].
  apply radix_inj in Heq; [|assumption..]. destruct Heq as [Heq Hlrow].
  pose proof (Z.div_mod r P ltac:(lia)) as Er. pose proof (Z.div_mod r0 P ltac:(lia)) as Er0.
  pose proof (Z.div_mod c P ltac:(lia)) as Ec. pose proof (Z.div_mod c0 P ltac:(lia)) as Ec0.
  destruct (Z.eq_dec (c / P) Wc) as [Hb|Hb].
  - right. rewrite Hb in Heq.
    assert (Hrow : r / P + 1 <= r0 / P) by nia.
    nia.
  - left. apply radix_inj in Heq; [|lia..]. destruct Heq as [Hcrow Hccol].
    split; [rewrite Er, Er0|rewrite Ec, Ec0]; congruence.
Qed.

Variable pcd : Matrix.
Variable fresh : Z -> Q.

(** X19.  When the image has no bottom margin and its right margin
    is narrower than a cell, with at least [patchSize] rows of cells if
    there is a margin, [organizeByCell] returns for an input of the
    shape the extractor was built for, whatever the organized array
    held when it was allocated, and every pixel of a cell is stored at
    its place: the point of the pixel at row [r] and column
    [c < W_cells * patchSize] is in row [cell_shift r c] of the
    organized cloud, in the block of the cell of the pixel.  (A pixel
    of the margin may be stored at the same place, but in an earlier
    turn of the loop only: see [margin_shift_clash].) *)
Theorem X19_right_margin_keeps_the_cells (r c k : Z) :
  rows pcd = image_height_ pe * image_width_ pe -> cols pcd = 3 ->
  0 <= r < image_height_ pe -> 0 <= c < Wc * P -> 0 <= k < 3 ->
  exists organized,
    organizeByCell pe fresh pcd = Done organized /\
    rows organized = rows pcd /\ cols organized = cols pcd /\
    cell_of_pixel pe r c * (P * P) <= cell_shift pe r c
      < (cell_of_pixel pe r c + 1) * (P * P) /\
    coeff organized (cell_shift pe r c) k = coeff pcd (r * image_width_ pe + c) k.
Proof.
  intros Hrows Hcols Hr Hcol Hk.
  pose proof Hfits as (HP&HWc&HHc&Hh&Hw&_). fold P Wc Hc W in HP, HWc, HHc, Hh, Hw.
  assert (HcW : 0 <= c < W) by lia.
  assert (Hsize : rows pcd * cols pcd = 3 * (image_width_ pe * image_height_ pe))
    by (rewrite Hrows, Hcols; ring).
  rewrite (organizeByCell_stores pe fresh pcd ltac:(lia) ltac:(lia) ltac:(lia) Hsize
             margin_shift_range).
  cbv zeta. eexists. split; [reflexivity|]. cbn [rows cols].
  split; [reflexivity|]. split; [reflexivity|].
  destruct (margin_shift_digits r c Hr HcW) as (Hdigits&Hcr&Hcc&Hlr&Hlc&_).
  split.
  { rewrite Hdigits. unfold cell_of_pixel. fold P Wc. nia. }
  unfold coeff. cbn [rows data]. rewrite Hrows, Hcols. fold W.
  replace (image_height_ pe * W) with mxn by (subst mxn W; ring).
  fold mxn.
  assert (HWpos : 0 < W) by lia.
  set (j0 := r * W + c).
  assert (Hj0 : 0 <= j0 < mxn) by (subst j0 mxn; fold W; nia).
  assert (Hdiv : j0 / W = r /\ j0 mod W = c).
  { subst j0. split.
    - rewrite Z.div_add_l by lia. rewrite Z.div_small by lia. lia.
    - rewrite Z.add_comm, Z.mod_add by lia. apply Z.mod_small. lia. }
  destruct Hdiv as [Hdiv Hmod].
  pose proof (margin_shift_range r c Hr HcW) as Hs.
  set (s := fun j => cell_shift pe (j / W) (j mod W)).
  assert (Hs0 : s j0 = cell_shift pe r c) by (subst s; cbv beta; now rewrite Hdiv, Hmod).
  assert (Hsj : forall j, 0 <= j < mxn -> 0 <= s j < mxn).
  { intros j Hj. subst s. cbv beta. apply margin_shift_range.
    - split; [apply Z.div_pos; lia|]. apply Z.div_lt_upper_bound; [lia|]. subst mxn. fold W in Hj |- *. lia.
    - apply Z.mod_pos_bound. lia. }
  assert (Hlater : forall j k' k0, j0 < j < mxn -> 0 <= k' < 3 -> 0 <= k0 < 3 ->
            k' * mxn + s j = k0 * mxn + cell_shift pe r c -> False).
  { intros j k' k0 Hj Hk' Hk0 Heq.
    pose proof (Hsj j ltac:(lia)) as Hsj'.
    assert (k' = k0) by nia. subst k'.
    assert (Hclash : cell_shift pe (j / W) (j mod W) = cell_shift pe r c)
      by (subst s; cbv beta in *; lia).
    assert (Hjr : 0 <= j / W < image_height_ pe).
    { split; [apply Z.div_pos; lia|]. apply Z.div_lt_upper_bound; [lia|].
      subst mxn. fold W in Hj |- *. lia. }
    pose proof (Z.mod_pos_bound j W HWpos) as Hjc.
    pose proof (Z.div_mod j W ltac:(lia)) as Ej.
    destruct (margin_shift_clash _ _ _ _ Hjr Hjc Hr Hcol Hclash) as [[Hrr Hcc']|Hlt].
    - subst j0. rewrite Hrr, Hcc' in Ej. lia.
    - subst j0. nia. }
  change (W * image_height_ pe) with mxn. replace (mxn * 3) with (3 * mxn) by lia.
  rewrite (zrange_app 0 j0 mxn) by lia. rewrite (zrange_cons j0 mxn) by lia.
  rewrite flat_map_app. cbn [flat_map]. fold (s j0). rewrite Hs0.
  match goal with
  | |- context [flat_map ?t (zrange 0 j0) ++ _ ++ flat_map ?t (zrange (j0 + 1) mxn)] =>
      set (L1 := flat_map t (zrange 0 j0)); set (L2 := flat_map t (zrange (j0 + 1) mxn))
  end.
  assert (Hno : forall k0 v', 0 <= k0 < 3 ->
            ~ In (k0 * mxn + cell_shift pe r c, v') L2).
  { intros k0 v' Hk0 Hin. subst L2. apply in_flat_map in Hin. destruct Hin as [j [Hj Hin]].
    apply in_zrange in Hj. simpl in Hin.
    destruct Hin as [Hwr|[Hwr|[Hwr|[]]]]; injection Hwr as Hpos _.
    - apply (Hlater j 0 k0); [lia|lia|exact Hk0|]. fold (s j) in Hpos. lia.
    - apply (Hlater j 1 k0); [lia|lia|exact Hk0|]. fold (s j) in Hpos. lia.
    - apply (Hlater j 2 k0); [lia|lia|exact Hk0|]. fold (s j) in Hpos. lia. }
  assert (Hinit : Z.of_nat (length (map fresh (zrange 0 (3 * mxn)))) = 3 * mxn).
  { rewrite length_map, length_zrange. lia. }
  set (sh := cell_shift pe r c) in *.
  cbn [app].
  match goal with
  | |- zget _ (fold_left _ (L1 ++ (?a, ?va) :: (?b, ?vb) :: (?c, ?vc) :: L2) ?init) _ = _ =>
      destruct (fold_writes_triple 0%Q L1 L2 a b c va vb vc init) as (H0&H1&H2)
  end; try lia.
  { intros p v' Hin. repeat split; intros ->.
    - apply (Hno 0 v'); [lia|]. now replace (0 * mxn + sh) with sh by lia.
    - apply (Hno 1 v'); [lia|]. now replace (1 * mxn + sh) with (mxn + sh) by lia.
    - now apply (Hno 2 v'). }
  assert (Hcase : k = 0 \/ k = 1 \/ k = 2) by lia.
  destruct Hcase as [-> | [-> | ->]].
  - replace (0 * mxn + sh) with sh by lia. rewrite H0. first [reflexivity|f_equal; lia].
  - replace (1 * mxn + sh) with (mxn + sh) by lia. rewrite H1. first [reflexivity|f_equal; lia].
  - rewrite H2. reflexivity.
Qed.
End RightMargin.

Lemma X19_right_margin_keeps_the_cells_witness :
  exists organized,
    organizeByCell (newPlaneExtractor (C := SimpleCell) 4 17 (config_2x8 true))
      (fun _ => 0%Q) cloud_4x17 = Done organized /\
    cell_shift (newPlaneExtractor (C := SimpleCell) 4 17 (config_2x8 true)) 0 16
    = cell_shift (newPlaneExtractor (C := SimpleCell) 4 17 (config_2x8 true)) 2 0 /\
    coeff organized
      (cell_shift (newPlaneExtractor (C := SimpleCell) 4 17 (config_2x8 true)) 2 0) 2
    = 35%Q.
Proof.
  destruct (X19_right_margin_keeps_the_cells
              (newPlaneExtractor (C := SimpleCell) 4 17 (config_2x8 true)))
    with (pcd := cloud_4x17) (fresh := fun _ : Z => 0%Q) (r := 2) (c := 0) (k := 2)
    as (organized&Hrun&_&_&_&Hpoint).
  - split; [reflexivity|]. split; [discriminate|]. split; [discriminate|].
    split; [reflexivity|]. split; [split; [discriminate|reflexivity]|].
    right. discriminate.
  - reflexivity.
  - reflexivity.
  - split; [discriminate|reflexivity].
  - split; [discriminate|reflexivity].
  - split; [discriminate|reflexivity].
  - exists organized. split; [exact Hrun|]. split; [reflexivity|].
    rewrite Hpoint. vm_compute. reflexivity.
Defined.


(** ** The seed candidates *)

Lemma zget_app_middle {A} (d : A) (pre suf : list A) (v : A) :
  zget d (pre ++ v :: suf) (Z.of_nat (length pre)) = v.
Proof.
  unfold zget. destruct (Z.ltb_spec (Z.of_nat (length pre)) 0) as [Hneg|_]; [lia|].
  rewrite Nat2Z.id. rewrite lookup_app_r by lia.
  now replace (length pre - length pre)%nat with 0%nat by lia.
Qed.

(** [std::max_element] returns the position of the first largest
    element. *)
Lemma max_element_scan (l : list Z) : forall suf pre best,
  l = pre ++ suf ->
  (pre = [] /\ best = 0
   \/ 0 <= best < Z.of_nat (length pre) /\
      (forall i, 0 <= i < Z.of_nat (length pre) -> zget 0 l i <= zget 0 l best) /\
      (forall i, 0 <= i < best -> zget 0 l i < zget 0 l best)) ->
  let m := fst (fold_left
                  (fun '(best, k) v => (if zget 0 l best <? v then k else best, k + 1))
                  suf (best, Z.of_nat (length pre))) in
  l = [] /\ m = 0
  \/ 0 <= m < Z.of_nat (length l) /\
     (forall i, 0 <= i < Z.of_nat (length l) -> zget 0 l i <= zget 0 l m) /\
     (forall i, 0 <= i < m -> zget 0 l i < zget 0 l m).
Proof.
  induction suf as [|v suf IH]; intros pre best Hl Hinv; cbv zeta.
  - rewrite app_nil_r in Hl. subst pre. simpl. exact Hinv.
  - simpl.
    assert (Hv : zget 0 l (Z.of_nat (length pre)) = v) by (rewrite Hl; apply zget_app_middle).
    replace (Z.of_nat (length pre) + 1) with (Z.of_nat (length (pre ++ [v])))
      by (rewrite length_app; simpl; lia).
    apply IH; [now rewrite <- app_assoc|].
    right. rewrite length_app. simpl.
    destruct Hinv as [[-> ->]|(Hbest&Hmax&Hfirst)].
    + cbn [length app] in *. change (Z.of_nat 0) with 0 in *. rewrite Hv, Z.ltb_irrefl.
      split; [lia|]. split; intros i Hi; [|lia].
      assert (i = 0) by lia. subst i. lia.
    + destruct (Z.ltb_spec (zget 0 l best) v) as [Hlt|Hge].
      * split; [lia|]. split; intros i Hi.
        -- destruct (Z.eq_dec i (Z.of_nat (length pre))) as [->|Hne]; [lia|].
           rewrite Hv. specialize (Hmax i). lia.
        -- rewrite Hv. specialize (Hmax i). lia.
      * split; [lia|]. split; intros i Hi.
        -- destruct (Z.eq_dec i (Z.of_nat (length pre))) as [->|Hne]; [lia|].
           apply Hmax. lia.
        -- now apply Hfirst.
Qed.

Lemma max_element_first_largest (l : list Z) :
  l <> [] ->
  0 <= max_element l < Z.of_nat (length l) /\
  (forall i, 0 <= i < Z.of_nat (length l) -> zget 0 l i <= zget 0 l (max_element l)) /\
  (forall i, 0 <= i < max_element l -> zget 0 l i < zget 0 l (max_element l)).
Proof.
  intros Hne. destruct (max_element_scan l l [] 0 eq_refl) as [[Hnil _]|Hok].
  - now left.
  - contradiction.
  - exact Hok.
Qed.

(** The candidates of a histogram that holds the cells [M]. *)
Lemma candidates_of_inv (bin : Z -> Z) (B n : Z) (M : list Z) (h : Histogram) :
  1 <= B < 2 ^ 31 ->
  hist_inv bin B n M h ->
  (forall i, In i M -> 0 <= bin i < B * B) ->
  let top := max_element (hist_ h) in
  0 <= top < B * B /\
  (forall b, 0 <= b < B * B ->
     zget 0 (hist_ h) b <= zget 0 (hist_ h) top /\
     (b < top -> zget 0 (hist_ h) b < zget 0 (hist_ h) top)) /\
  (forall i, In i (getPointsFromMostFrequentBin h) <-> In i M /\ bin i = top) /\
  Z.of_nat (length (getPointsFromMostFrequentBin h)) = zget 0 (hist_ h) top /\
  (M <> [] -> getPointsFromMostFrequentBin h <> []).
Proof.
  intros HB (HhB&Hhn&Hlb&Hlh&Hnd&Hrange&Hbins&Hcount) Hbin top.
  assert (Hne : hist_ h <> []).
  { intros Hnil. rewrite Hnil in Hlh. simpl in Hlh. nia. }
  destruct (max_element_first_largest (hist_ h) Hne) as (Htop&Hmax&Hfirst).
  fold top in Htop, Hmax, Hfirst. rewrite Hlh in Htop, Hmax.
  assert (Hsmall : B * B < 2 ^ 64).
  { assert (B * B < 2 ^ 31 * 2 ^ 31) by nia. change (2 ^ 64) with (2 ^ 31 * 2 ^ 31 * 4). lia. }
  assert (Hmem : forall i, In i (getPointsFromMostFrequentBin h) <-> In i M /\ bin i = top).
  { intros i. unfold getPointsFromMostFrequentBin. fold top.
    split.
    - destruct (0 <? zget 0 (hist_ h) top); [|intros []].
      intros Hin. apply List.filter_In in Hin. destruct Hin as [Hi Heq].
      apply in_zrange in Hi. rewrite Hhn in Hi. apply Z.eqb_eq in Heq.
      rewrite (Hbins i Hi) in Heq. destruct (in_dec Z.eq_dec i M) as [HiM|HiM].
      + split; [exact HiM|]. specialize (Hbin i HiM).
        unfold to_size_t in Heq. rewrite Z.mod_small in Heq by lia. exact Heq.
      + exfalso. unfold to_size_t in Heq. change (-1 mod 2 ^ 64) with (2 ^ 64 - 1) in Heq. lia.
    - intros [HiM Heq].
      assert (Hpos : 0 < zget 0 (hist_ h) top).
      { rewrite (Hcount top Htop).
        assert (Hin : In i (List.filter (fun j => bin j =? top) M)).
        { apply List.filter_In. split; [exact HiM|]. now apply Z.eqb_eq. }
        destruct (List.filter _ M); [destruct Hin|]. simpl. lia. }
      apply Z.ltb_lt in Hpos. rewrite Hpos.
      apply List.filter_In. split.
      + apply in_zrange. rewrite Hhn. now apply Hrange.
      + apply Z.eqb_eq. rewrite (Hbins i (Hrange i HiM)).
        destruct (in_dec Z.eq_dec i M) as [_|HiM']; [|contradiction].
        rewrite Heq. unfold to_size_t. apply Z.mod_small. lia. }
  split; [exact Htop|]. split; [|split; [exact Hmem|split]].
  - intros b Hb. split; [now apply Hmax|]. intros Hlt. apply Hfirst. lia.
  - rewrite (Hcount top Htop). f_equal. apply NoDup_same_length.
    + unfold getPointsFromMostFrequentBin. destruct (0 <? _); [|constructor].
      apply filter_NoDup, sorted_NoDup, zrange_sorted.
    + now apply filter_NoDup.
    + intros i. rewrite Hmem, List.filter_In, Z.eqb_eq. reflexivity.
  - intros HM Hnil. destruct M as [|i M']; [contradiction|].
    assert (HiM : In i (i :: M')) by now left.
    pose proof (Hbin i HiM) as Hb.
    assert (Hpos : 0 < zget 0 (hist_ h) (bin i)).
    { rewrite (Hcount _ Hb).
      assert (Hin : In i (List.filter (fun j => bin j =? bin i) (i :: M'))).
      { apply List.filter_In. split; [exact HiM|]. apply Z.eqb_refl. }
      destruct (List.filter _ (i :: M')); [destruct Hin|]. simpl. lia. }
    pose proof (Hmax (bin i) Hb) as Hle.
    assert (Hlen : Z.of_nat (length (getPointsFromMostFrequentBin h)) = zget 0 (hist_ h) top).
    { rewrite (Hcount top Htop). f_equal. apply NoDup_same_length.
      - unfold getPointsFromMostFrequentBin. destruct (0 <? _); [|constructor].
        apply filter_NoDup, sorted_NoDup, zrange_sorted.
      - now apply filter_NoDup.
      - intros j. rewrite Hmem, List.filter_In, Z.eqb_eq. reflexivity. }
    rewrite Hnil in Hlen. simpl in Hlen. lia.
Qed.

Section Candidates.
Context `{Libm} `{!LibmRanges} {C : Type} `{CellSegmentOps C}.
Variable BITSET_SIZE : Z.
Variable B : Z.
Variable normals : list Vec3.
Variable mask : Z.
Hypothesis HB : 1 <= B.
Hypothesis HB32 : B < 2 ^ 31.
Hypothesis Hsize : Z.of_nat (length normals) <= BITSET_SIZE.
Hypothesis Hmask : forall i, Z.testbit mask i = true -> i < Z.of_nat (length normals).

(** X4.  At the start of every turn of the loop of
    [createPlaneSegments], [getPointsFromMostFrequentBin] returns
    exactly the cells that are still in the histogram and whose bin is
    the first bin with the largest count; their number is this count,
    and the list is empty only when the histogram is empty. *)
Theorem X4_seed_candidates_fill_the_top_bin (pe : PlaneExtractor C) (tols : list Q)
    (g : Growth C) :
  LoopHead BITSET_SIZE pe (newHistogram BITSET_SIZE B normals mask) mask tols g ->
  let h := g_hist g in
  let top := max_element (hist_ h) in
  0 <= top < B * B /\
  (forall b, 0 <= b < B * B ->
     zget 0 (hist_ h) b <= zget 0 (hist_ h) top /\
     (b < top -> zget 0 (hist_ h) b < zget 0 (hist_ h) top)) /\
  (forall i, In i (getPointsFromMostFrequentBin h)
             <-> in_histogram mask (g_removed g) i
                 /\ bin_of B (zget (0, 0, 0)%Q normals i) = top) /\
  Z.of_nat (length (getPointsFromMostFrequentBin h)) = zget 0 (hist_ h) top /\
  ((exists i, in_histogram mask (g_removed g) i) -> getPointsFromMostFrequentBin h <> []).
Proof.
  intros Hhead h top.
  destruct (growth_inv_loop BITSET_SIZE B normals mask HB Hsize Hmask pe tols g Hhead)
    as (M&Hinv&Hmem&_).
  destruct (candidates_of_inv _ B _ M (g_hist g) (conj HB HB32) Hinv) as (Htop&Hmax&Hin&Hlen&Hne).
  { intros i _. apply bin_of_range. exact HB. }
  fold h top in Htop, Hmax, Hin, Hlen, Hne.
  split; [exact Htop|]. split; [exact Hmax|]. split; [|split; [exact Hlen|]].
  - intros i. rewrite Hin, Hmem. reflexivity.
  - intros [i Hi]. apply Hne. apply Hmem in Hi. intros ->. destruct Hi.
Qed.
End Candidates.

Lemma X4_seed_candidates_fill_the_top_bin_witness :
  Z.of_nat (length (getPointsFromMostFrequentBin (g_hist growth_E)))
  = zget 0 (hist_ (g_hist growth_E)) (max_element (hist_ (g_hist growth_E))).
Proof.
  apply (X4_seed_candidates_fill_the_top_bin 64 20 normals_E 31) with (pe := frame_E)
                                                                          (tols := tols_2x8).
  - lia.
  - reflexivity.
  - vm_compute. discriminate.
  - exact mask_E_in_range.
  - apply head_start.
Defined.


(** ** The selection of the seed *)

Section SeedChoice.
Context {C : Type} `{CellSegmentOps C}.
Variable cells : list (option C).

Lemma deref_present (i : Z) : zget None cells i <> None -> exists c, deref cells i = Done c.
Proof.
  unfold deref. destruct (zget None cells i) as [c|]; [now exists c|contradiction].
Qed.

Lemma selectSeed_total (cands : list Z) : forall seed0 min0,
  (forall c, In c cands -> zget None cells c <> None) ->
  exists r, selectSeed cells cands seed0 min0 = Done r.
Proof.
  induction cands as [|c cands IH]; intros seed0 min0 Hpresent; simpl.
  - now exists seed0.
  - destruct (deref_present c) as [cell ->]; [apply Hpresent; now left|]. simpl.
    destruct (Qltb (getMSE cell) min0); apply IH; intros c' Hc'; apply Hpresent; now right.
Qed.

(** X5.  When the cells of all candidates exist and the fit error of
    one of them is below [INT_MAX], the seed loop of
    [createPlaneSegments] selects a candidate: the first one of least
    fit error.  The candidates before it have a strictly larger error,
    those after it an error that is not smaller. *)
Theorem X5_seed_is_first_candidate_of_least_error (cands : list Z) :
  (forall c, In c cands -> zget None cells c <> None) ->
  (exists c, In c cands /\ error_of cells (fun bound mse => (mse < bound)%Q)
                             (inject_Z INT_MAX) c) ->
  exists before seed_id after cell_s,
    selectSeed cells cands None (inject_Z INT_MAX) = Done (Some seed_id) /\
    cands = before ++ seed_id :: after /\
    deref cells seed_id = Done cell_s /\
    (getMSE cell_s < inject_Z INT_MAX)%Q /\
    Forall (error_of cells Qlt (getMSE cell_s)) before /\
    Forall (error_of cells Qle (getMSE cell_s)) after.
Proof.
  intros Hpresent (c&Hc&cell&Hcell&Hlow).
  destruct (selectSeed_total cands None (inject_Z INT_MAX) Hpresent) as [r Hrun].
  destruct (selectSeed_result cells cands None (inject_Z INT_MAX) r Hrun)
    as [[-> Hall]|(l1&s&l2&cell_s&Hsplit&->&Hs&Hlt&Hbefore&Hafter)].
  - exfalso. rewrite List.Forall_forall in Hall.
    destruct (Hall c Hc) as (cell'&Hcell'&Hle).
    rewrite Hcell in Hcell'. injection Hcell' as <-.
    apply (Qlt_not_le _ _ Hlow Hle).
  - exists l1, s, l2, cell_s. repeat (split; [assumption|]). assumption.
Qed.
End SeedChoice.

Lemma X5_seed_is_first_candidate_of_least_error_witness :
  exists before seed_id after cell_s,
    selectSeed (cell_grid_ frame_A) [5; 2; 9] None (inject_Z INT_MAX) = Done (Some seed_id) /\
    [5; 2; 9] = before ++ seed_id :: after /\
    deref (cell_grid_ frame_A) seed_id = Done cell_s /\
    (getMSE cell_s < inject_Z INT_MAX)%Q /\
    Forall (error_of (cell_grid_ frame_A) Qlt (getMSE cell_s)) before /\
    Forall (error_of (cell_grid_ frame_A) Qle (getMSE cell_s)) after.
Proof.
  apply (X5_seed_is_first_candidate_of_least_error (cell_grid_ frame_A) [5; 2; 9]).
  - intros c Hc. simpl in Hc. destruct Hc as [<-|[<-|[<-|[]]]]; vm_compute; discriminate.
  - exists 2. split; [simpl; tauto|].
    exists (plane_at 1000 10). split; vm_compute; reflexivity.
Defined.


(** ** The loop of region growing *)

Lemma zget_in_range {A} (l : list (option A)) (i : Z) :
  zget None l i <> None -> 0 <= i < Z.of_nat (length l).
Proof.
  unfold zget. destruct (Z.ltb_spec i 0) as [Hneg|Hpos]; [contradiction|].
  intros Hsome. split; [exact Hpos|].
  destruct (l !! Z.to_nat i) as [x|] eqn:Hl; [|contradiction].
  apply lookup_lt_Some in Hl. lia.
Qed.

Lemma zget_zset_present {A} (l : list (option A)) (i j : Z) (x : A) :
  zget None l i <> None -> zget None (zset l j (Some x)) i <> None.
Proof.
  intros Hi. destruct (Z.eq_dec j i) as [->|Hne].
  - rewrite zget_zset_eq by now apply zget_in_range. discriminate.
  - now rewrite zget_zset_ne.
Qed.

(** Conditional writes of one value. *)
Lemma fold_cond_zset (p : Z -> bool) (v : Z) (l : list Z) (i : Z) : forall init : list Z,
  0 <= i < Z.of_nat (length init) ->
  let out := fold_left (fun t j => if p j then zset t j v else t) l init in
  (p i = true /\ In i l -> zget 0 out i = v) /\
  (~ (p i = true /\ In i l) -> zget 0 out i = zget 0 init i).
Proof.
  induction l as [|a l IH]; intros init Hi; cbv zeta; simpl.
  - split; [intros [_ []]|reflexivity].
  - assert (Hi' : 0 <= i < Z.of_nat (length (if p a then zset init a v else init))).
    { destruct (p a); [now rewrite length_zset|exact Hi]. }
    destruct (IH _ Hi') as [IHyes IHno]. split.
    + intros [Hp Hin]. destruct (in_dec Z.eq_dec i l) as [Hl|Hl].
      * apply IHyes. now split.
      * destruct Hin as [->|Hin]; [|contradiction].
        rewrite IHno by tauto. rewrite Hp. now apply zget_zset_eq.
    + intros Hno. rewrite IHno by tauto.
      destruct (p a) eqn:Hpa; [|reflexivity].
      apply zget_zset_ne. intros ->. apply Hno. split; [exact Hpa|now left].
Qed.

Lemma fold_cond_zset_length (p : Z -> bool) (v : Z) (l : list Z) : forall init : list Z,
  length (fold_left (fun t j => if p j then zset t j v else t) l init) = length init.
Proof.
  induction l as [|a l IH]; intros init; simpl; [reflexivity|].
  rewrite IH. destruct (p a); [apply length_zset|reflexivity].
Qed.

Section MarkCells.
Context {C : Type}.

Implicit Type pe : PlaneExtractor C.

Lemma markCells_fold pe (activation nr_curr_planes : Z) :
  grid_shaped pe ->
  markCells pe activation nr_curr_planes
  = fold_left (fun t j => if Z.testbit activation j then zset t j nr_curr_planes else t)
      (zrange 0 (nr_total_cells_ pe)) (grid_plane_seg_map_ pe).
Proof.
  intros Hshape. unfold markCells. rewrite (grid_cells_enum pe Hshape).
  rewrite (fold_left_ext _
             (fun st rc =>
                ((if Z.testbit activation (snd st)
                  then zset (fst st) (fst rc * nr_horizontal_cells_ pe + snd rc) nr_curr_planes
                  else fst st), snd st + 1)));
    [|intros [grid id] [r c]; reflexivity].
  rewrite (fold_left_counter
             (fun (grid : list Z) j (rc : Z * Z) =>
                if Z.testbit activation j
                then zset grid (fst rc * nr_horizontal_cells_ pe + snd rc) nr_curr_planes
                else grid));
    [|destruct Hshape as (HN&HW&HH); nia].
  cbn [fst snd]. apply fold_left_ext. intros grid j. now rewrite cell_index_enum.
Qed.

(** The "Mark cells" loop gives the cells of the activation map the
    number of the new plane and leaves every other cell as it is. *)
Lemma markCells_spec pe (activation nr_curr_planes i : Z) :
  grid_shaped pe ->
  0 <= i < nr_total_cells_ pe ->
  nr_total_cells_ pe <= Z.of_nat (length (grid_plane_seg_map_ pe)) ->
  zget 0 (markCells pe activation nr_curr_planes) i
  = if Z.testbit activation i then nr_curr_planes else zget 0 (grid_plane_seg_map_ pe) i.
Proof.
  intros Hshape Hi Hlen. rewrite (markCells_fold pe _ _ Hshape).
  destruct (fold_cond_zset (Z.testbit activation) nr_curr_planes
              (zrange 0 (nr_total_cells_ pe)) i (grid_plane_seg_map_ pe)) as [Hyes Hno];
    [lia|].
  destruct (Z.testbit activation i) eqn:Hbit.
  - apply Hyes. split; [reflexivity|now apply in_zrange].
  - apply Hno. intros [Habs _]. discriminate.
Qed.

Lemma markCells_length pe (activation nr_curr_planes : Z) :
  grid_shaped pe ->
  length (markCells pe activation nr_curr_planes) = length (grid_plane_seg_map_ pe).
Proof. intros Hshape. rewrite (markCells_fold pe _ _ Hshape). apply fold_cond_zset_length. Qed.
End MarkCells.

Section GrowthTurn.
Context {C : Type} `{CellSegmentOps C}.
Variable BITSET_SIZE : Z.

Lemma mergeActivated_state (seed_id : Z) (acts : list Z) : forall g g1 : Growth C,
  mergeActivated seed_id acts g = Done g1 ->
  g_remaining g1 = g_remaining g - Z.of_nat (length acts) /\
  g_segments g1 = g_segments g /\
  grid_plane_seg_map_ (g_pe g1) = grid_plane_seg_map_ (g_pe g) /\
  (forall i, i <> seed_id ->
     zget None (cell_grid_ (g_pe g1)) i = zget None (cell_grid_ (g_pe g)) i) /\
  (forall i, zget None (cell_grid_ (g_pe g)) i <> None ->
     zget None (cell_grid_ (g_pe g1)) i <> None).
Proof.
  induction acts as [|a acts IH]; intros g g1 Hrun; simpl in Hrun.
  - injection Hrun as <-. split; [simpl; lia|]. split; [reflexivity|].
    split; [reflexivity|]. split; auto.
  - apply bind_done in Hrun. destruct Hrun as [seg [_ Hrun]].
    apply bind_done in Hrun. destruct Hrun as [ci [_ Hrun]].
    destruct (IH _ _ Hrun) as (Hrem&Hseg&Hgrid&Hcells&Hpres).
    cbn [g_remaining g_segments g_pe grid_plane_seg_map_ cell_grid_ with_cell_grid]
      in Hrem, Hseg, Hgrid, Hcells, Hpres.
    split; [rewrite Hrem; cbn [length]; lia|]. split; [exact Hseg|]. split; [exact Hgrid|].
    split.
    + intros i Hi. rewrite (Hcells i Hi). now apply zget_zset_ne.
    + intros i Hi. apply Hpres. now apply zget_zset_present.
Qed.

Lemma fitModel_state (seed_id activation : Z) (g g' : Growth C) :
  fitModel BITSET_SIZE seed_id activation g = Done g' ->
  g_remaining g' = g_remaining g /\
  (g_segments g' = g_segments g /\
   grid_plane_seg_map_ (g_pe g') = grid_plane_seg_map_ (g_pe g)
   \/ g_segments g' = g_segments g ++ [seed_id] /\
      zget None (cell_grid_ (g_pe g)) seed_id <> None /\
      exists pe1, same_geometry (g_pe g) pe1 /\
        grid_plane_seg_map_ pe1 = grid_plane_seg_map_ (g_pe g) /\
        grid_plane_seg_map_ (g_pe g')
        = markCells pe1 activation (Z.of_nat (length (g_segments g)) + 1)) /\
  (forall i, i <> seed_id ->
     zget None (cell_grid_ (g_pe g')) i = zget None (cell_grid_ (g_pe g)) i) /\
  (forall i, zget None (cell_grid_ (g_pe g)) i <> None ->
     zget None (cell_grid_ (g_pe g')) i <> None).
Proof.
  unfold fitModel. destruct (_ <? _).
  { intros [= <-]. split; [reflexivity|]. split; [now left|]. split; auto. }
  intros Hrun. apply bind_done in Hrun. destruct Hrun as [seg [Hseg Hrun]].
  assert (Hseed : zget None (cell_grid_ (g_pe g)) seed_id <> None).
  { unfold deref in Hseg. destruct (zget None _ seed_id); [discriminate|discriminate Hseg]. }
  destruct (Qltb _ _); injection Hrun as <-;
    cbn [g_remaining g_segments g_pe grid_plane_seg_map_ cell_grid_ with_cell_grid with_seg_map].
  - split; [reflexivity|]. split; [|split].
    + right. split; [reflexivity|]. split; [exact Hseed|].
      eexists. split; [|split; [|rewrite length_app; cbn [length]; f_equal; lia]].
      * repeat split.
      * reflexivity.
    + intros i Hi. now apply zget_zset_ne.
    + intros i Hi. now apply zget_zset_present.
  - split; [reflexivity|]. split; [now left|]. split.
    + intros i Hi. now apply zget_zset_ne.
    + intros i Hi. now apply zget_zset_present.
Qed.

(** The parts of a turn of the loop that goes on. *)
Lemma growthStep_turn (tols : list Q) (g g' : Growth C) :
  growthStep BITSET_SIZE tols g = Done (true, g') ->
  exists seed_id fl g1,
    In seed_id (getPointsFromMostFrequentBin (g_hist g)) /\
    growFrom g tols seed_id = Done fl /\
    mergeActivated seed_id (set_bits BITSET_SIZE (activation_map fl)) g = Done g1 /\
    fitModel BITSET_SIZE seed_id (activation_map fl)
      (clear_unassigned (activation_map fl) g1) = Done g'.
Proof.
  unfold growthStep. destruct (_ <? _); [discriminate|].
  intros Hrun. apply bind_done in Hrun. destruct Hrun as [seed [Hseed Hrun]].
  destruct seed as [seed_id|]; [|discriminate].
  apply bind_done in Hrun. destruct Hrun as [fl [Hfl Hrun]].
  apply bind_done in Hrun. destruct Hrun as [g1 [Hg1 Hrun]].
  apply bind_done in Hrun. destruct Hrun as [g2 [Hg2 Hrun]].
  injection Hrun as <-.
  exists seed_id, fl, g1. split; [|auto].
  now apply (seed_is_first_least_error _ _ _ Hseed).
Qed.

Lemma candidates_in_range (h : Histogram) (i : Z) :
  In i (getPointsFromMostFrequentBin h) -> 0 <= i < nr_points_ h.
Proof.
  unfold getPointsFromMostFrequentBin. destruct (0 <? _); [|intros []].
  intros Hin. apply List.filter_In in Hin. now apply in_zrange.
Qed.

Lemma fold_removePoint_points (l : list Z) : forall h,
  nr_points_ (fold_left removePoint l h) = nr_points_ h.
Proof. induction l as [|a l IH]; intros h; simpl; [reflexivity|]. now rewrite IH. Qed.

Lemma seed_in_grid (pe : PlaneExtractor C) (s : Z) :
  grid_shaped pe -> 0 <= s < nr_total_cells_ pe ->
  in_grid pe (Z.rem s (nr_horizontal_cells_ pe)) (s ÷ nr_horizontal_cells_ pe) /\
  Z.rem s (nr_horizontal_cells_ pe) + nr_horizontal_cells_ pe * (s ÷ nr_horizontal_cells_ pe)
  = s.
Proof.
  intros (HN&HW&HH) Hs. unfold in_grid.
  assert (HWpos : 0 < nr_horizontal_cells_ pe) by nia.
  rewrite Z.rem_mod_nonneg, Z.quot_div_nonneg by lia.
  pose proof (Z.mod_pos_bound s _ HWpos).
  pose proof (Z.div_mod s (nr_horizontal_cells_ pe)).
  split; [|lia]. split; [lia|]. split; [apply Z.div_pos; lia|].
  apply Z.div_lt_upper_bound; [lia|]. lia.
Qed.

(** The cells that a flood activates are unassigned cells of the
    grid. *)
Lemma growFrom_activation (g : Growth C) (tols : list Q) (seed_id : Z) (fl : Flood) :
  grid_shaped (g_pe g) -> 0 <= seed_id < nr_total_cells_ (g_pe g) ->
  growFrom g tols seed_id = Done fl ->
  forall i, Z.testbit (activation_map fl) i = true ->
    Z.testbit (g_unassigned g) i = true /\ 0 <= i < nr_total_cells_ (g_pe g).
Proof.
  intros Hshape Hseed Hfl i Hbit. unfold growFrom in Hfl.
  destruct (seed_in_grid _ _ Hshape Hseed) as [Hgrid _].
  destruct (growSeed_activation _ _ _ Hshape _ _ _ _ _ _ Hgrid Hfl) as [_ Hact].
  destruct (Hact i Hbit) as [Habs|Hok]; [|exact Hok].
  simpl in Habs. now rewrite Z.bits_0 in Habs.
Qed.
End GrowthTurn.


Lemma grid_shaped_geometry {C} (pe pe' : PlaneExtractor C) :
  same_geometry pe pe' -> grid_shaped pe -> grid_shaped pe'.
Proof.
  intros (_&HW&HH&HN&_) (Hn&Hw&Hh). unfold grid_shaped. rewrite HW, HH, HN. auto.
Qed.

Section GrowthLoop.
Context {C : Type} `{CellSegmentOps C}.
Variable BITSET_SIZE : Z.
Variable pe0 : PlaneExtractor C.
Variable hist : Histogram.
Variable mask : Z.
Variable tols : list Q.
Hypothesis Hshape : grid_shaped pe0.
Hypothesis Hbits : nr_total_cells_ pe0 <= BITSET_SIZE.
Hypothesis Hpoints : nr_points_ hist <= nr_total_cells_ pe0.
Hypothesis Hlen0 : nr_total_cells_ pe0 <= Z.of_nat (length (grid_plane_seg_map_ pe0)).
Hypothesis Hzero : forall i, zget 0 (grid_plane_seg_map_ pe0) i = 0.

Lemma loop_inv_start : loop_inv BITSET_SIZE pe0 mask (growthStart BITSET_SIZE pe0 hist mask).
Proof.
  unfold loop_inv, growthStart. cbn [g_pe g_hist g_removed g_unassigned g_remaining g_segments].
  split; [apply same_geometry_refl|]. split; [exact Hpoints|]. split; [constructor|].
  split; [intros i []|]. split.
  { intros i. unfold in_histogram. simpl. tauto. }
  split; [simpl; lia|]. split; [intros s []|]. split; [reflexivity|].
  intros i Hi. rewrite Hzero. simpl. split; [lia|]. intros Habs. now contradiction Habs.
Qed.

Lemma loop_inv_step (g g' : Growth C) :
  loop_inv BITSET_SIZE pe0 mask g ->
  growthStep BITSET_SIZE tols g = Done (true, g') ->
  loop_inv BITSET_SIZE pe0 mask g'.
Proof.
  intros (Hgeo&Hpts&Hnd&Hsub&Hun&Hcount&Hsegs&Hlen&Hstamps) Hstep.
  destruct (growthStep_turn _ _ _ _ Hstep) as (seed_id&fl&g1&Hcand&Hfl&Hmerge&Hfit).
  pose proof (grid_shaped_geometry _ _ Hgeo Hshape) as Hshape_g.
  assert (HN : nr_total_cells_ (g_pe g) = nr_total_cells_ pe0) by apply Hgeo.
  assert (Hseed : 0 <= seed_id < nr_total_cells_ pe0).
  { apply candidates_in_range in Hcand. lia. }
  assert (Hact : forall i, Z.testbit (activation_map fl) i = true ->
            Z.testbit (g_unassigned g) i = true /\ 0 <= i < nr_total_cells_ pe0).
  { intros i Hbit. rewrite <- HN. apply (growFrom_activation g tols seed_id fl); try assumption.
    now rewrite HN. }
  set (acts := set_bits BITSET_SIZE (activation_map fl)) in *.
  assert (Hacts : forall i, In i acts <-> Z.testbit (activation_map fl) i = true).
  { intros i. unfold acts. rewrite in_set_bits. split; [tauto|].
    intros Hbit. split; [|exact Hbit]. destruct (Hact i Hbit). lia. }
  destruct (mergeActivated_effect _ _ _ _ Hmerge) as (Hh1&Hr1&Hu1).
  destruct (mergeActivated_state _ _ _ _ Hmerge) as (Hrem1&Hseg1&Hgrid1&_&_).
  pose proof (mergeActivated_geometry _ _ _ _ Hmerge) as Hgeo1.
  destruct (fitModel_effect _ _ _ _ _ Hfit) as (Hh2&Hr2&Hu2).
  destruct (fitModel_state _ _ _ _ _ Hfit) as (Hrem2&Hcase&_&_).
  pose proof (fitModel_geometry _ _ _ _ _ Hfit) as Hgeo2.
  cbn [clear_unassigned g_hist g_removed g_unassigned g_remaining g_segments g_pe]
    in Hh2, Hr2, Hu2, Hrem2, Hcase, Hgeo2.
  assert (Hgeo' : same_geometry pe0 (g_pe g')).
  { eapply same_geometry_trans; [exact Hgeo|].
    eapply same_geometry_trans; [exact Hgeo1|exact Hgeo2]. }
  unfold loop_inv. rewrite Hh2, Hr2, Hu2, Hrem2, Hh1, Hr1, Hu1, Hrem1.
  split; [exact Hgeo'|].
  split; [now rewrite fold_removePoint_points|].
  split.
  { apply List.NoDup_app; [exact Hnd|apply set_bits_NoDup|].
    intros i Hi Hin. apply Hacts, Hact in Hin. destruct Hin as [Hin _].
    apply Hun in Hin. now destruct Hin. }
  split.
  { intros i Hi. apply in_app_iff in Hi. destruct Hi as [Hi|Hi]; [now apply Hsub|].
    apply Hacts, Hact in Hi. destruct Hi as [Hi Hrange].
    apply Hun in Hi. split; [apply Hi|exact Hrange]. }
  split.
  { intros i. rewrite Z.ldiff_spec, andb_true_iff, negb_true_iff.
    unfold in_histogram. split.
    - intros [Hu Hna]. apply Hun in Hu. destruct Hu as [Hm Hno]. split; [exact Hm|].
      intros Hin. apply in_app_iff in Hin. destruct Hin as [Hin|Hin]; [contradiction|].
      apply Hacts in Hin. congruence.
    - intros [Hm Hno]. split.
      + apply Hun. split; [exact Hm|]. intros Hin. apply Hno, in_app_iff. now left.
      + destruct (Z.testbit (activation_map fl) i) eqn:Hbit; [|reflexivity].
        exfalso. apply Hno, in_app_iff. right. now apply Hacts. }
  split; [rewrite length_app; lia|].
  assert (Hstamped : forall i, In i (g_removed g) -> In i (g_removed g ++ acts)).
  { intros i Hi. apply in_app_iff. now left. }
  destruct Hcase as [[Hsegs' Hgrid']|(Hsegs'&_&pe1&Hgeo_1&Hgrid_1&Hgrid')].
  - rewrite Hsegs', Hgrid', Hseg1, Hgrid1.
    split; [exact Hsegs|]. split; [exact Hlen|].
    intros i Hi. destruct (Hstamps i Hi) as [Hb Hr]. split; [exact Hb|auto].
  - rewrite Hsegs', Hgrid', Hseg1.
    pose proof (grid_shaped_geometry _ _ Hgeo1 Hshape_g) as Hshape_1.
    pose proof (grid_shaped_geometry _ _ Hgeo_1 Hshape_1) as Hshape_pe1.
    assert (HN1 : nr_total_cells_ pe1 = nr_total_cells_ pe0).
    { destruct Hgeo_1 as (_&_&_&Ha&_). destruct Hgeo1 as (_&_&_&Hb&_). congruence. }
    split.
    { intros s Hs. apply in_app_iff in Hs. destruct Hs as [Hs|[<-|[]]]; [now apply Hsegs|].
      exact Hseed. }
    split.
    { rewrite (markCells_length pe1 _ _ Hshape_pe1), Hgrid_1, Hgrid1. exact Hlen. }
    intros i Hi. rewrite (markCells_spec pe1); try assumption.
    + rewrite Hgrid_1, Hgrid1, length_app. cbn [length].
      destruct (Z.testbit (activation_map fl) i) eqn:Hbit.
      * split; [lia|]. intros _. apply in_app_iff. right. now apply Hacts.
      * destruct (Hstamps i Hi) as [Hb Hr]. split; [lia|auto].
    + now rewrite HN1.
    + rewrite HN1, Hgrid_1, Hgrid1, Hlen. exact Hlen0.
Qed.

Lemma loop_inv_head (g : Growth C) :
  LoopHead BITSET_SIZE pe0 hist mask tols g -> loop_inv BITSET_SIZE pe0 mask g.
Proof.
  induction 1 as [|g g' Hhead IH Hpos Hstep]; [apply loop_inv_start|].
  now apply (loop_inv_step g g').
Qed.
End GrowthLoop.


Lemma count_after_removal (size mask U : Z) (removed : list Z) :
  List.NoDup removed ->
  (forall i, In i removed -> Z.testbit mask i = true /\ 0 <= i < size) ->
  (forall i, Z.testbit U i = true <-> in_histogram mask removed i) ->
  bit_count size U = bit_count size mask - Z.of_nat (length removed).
Proof.
  intros Hnd Hsub Hun. unfold bit_count.
  assert (Hlen : length (set_bits size U ++ removed) = length (set_bits size mask)).
  { apply NoDup_same_length.
    - apply List.NoDup_app; [apply set_bits_NoDup|exact Hnd|].
      intros i Hi. apply in_set_bits in Hi. destruct Hi as [_ Hi]. apply Hun in Hi.
      now destruct Hi.
    - apply set_bits_NoDup.
    - intros i. rewrite in_app_iff, !in_set_bits. split.
      + intros [[Hr Hi]|Hi].
        * apply Hun in Hi. split; [exact Hr|apply Hi].
        * destruct (Hsub i Hi). tauto.
      + intros [Hr Hm]. destruct (in_dec Z.eq_dec i removed) as [Hin|Hno]; [now right|].
        left. split; [exact Hr|]. apply Hun. now split. }
  rewrite length_app in Hlen. lia.
Qed.

Section GrowthLoopFacts.
Context {C : Type} `{CellSegmentOps C}.
Variable BITSET_SIZE : Z.
Variable pe0 : PlaneExtractor C.
Variable hist : Histogram.
Variable mask : Z.
Variable tols : list Q.
Hypothesis Hshape : grid_shaped pe0.
Hypothesis Hbits : nr_total_cells_ pe0 <= BITSET_SIZE.
Hypothesis Hpoints : nr_points_ hist <= nr_total_cells_ pe0.
Hypothesis Hlen0 : nr_total_cells_ pe0 <= Z.of_nat (length (grid_plane_seg_map_ pe0)).
Hypothesis Hzero : forall i, zget 0 (grid_plane_seg_map_ pe0) i = 0.

(** What a turn does to the segment map. *)
Lemma growthStep_stamps (g g' : Growth C) :
  loop_inv BITSET_SIZE pe0 mask g ->
  growthStep BITSET_SIZE tols g = Done (true, g') ->
  exists seed_id fl,
    growFrom g tols seed_id = Done fl /\
    (forall i, Z.testbit (activation_map fl) i = true ->
       Z.testbit (g_unassigned g) i = true /\ 0 <= i < nr_total_cells_ pe0) /\
    (g_segments g' = g_segments g /\
     (forall i, 0 <= i < nr_total_cells_ pe0 ->
        zget 0 (grid_plane_seg_map_ (g_pe g')) i = zget 0 (grid_plane_seg_map_ (g_pe g)) i)
     \/ g_segments g' = g_segments g ++ [seed_id] /\
        (forall i, 0 <= i < nr_total_cells_ pe0 ->
           zget 0 (grid_plane_seg_map_ (g_pe g')) i
           = if Z.testbit (activation_map fl) i
             then Z.of_nat (length (g_segments g)) + 1
             else zget 0 (grid_plane_seg_map_ (g_pe g)) i)).
Proof.
  intros (Hgeo&Hpts&Hnd&Hsub&Hun&Hcount&Hsegs&Hlen&Hstamps) Hstep.
  destruct (growthStep_turn _ _ _ _ Hstep) as (seed_id&fl&g1&Hcand&Hfl&Hmerge&Hfit).
  pose proof (grid_shaped_geometry _ _ Hgeo Hshape) as Hshape_g.
  assert (HN : nr_total_cells_ (g_pe g) = nr_total_cells_ pe0) by apply Hgeo.
  assert (Hseed : 0 <= seed_id < nr_total_cells_ pe0).
  { apply candidates_in_range in Hcand. lia. }
  exists seed_id, fl. split; [exact Hfl|]. split.
  { intros i Hbit. rewrite <- HN. apply (growFrom_activation g tols seed_id fl); try assumption.
    now rewrite HN. }
  destruct (mergeActivated_state _ _ _ _ Hmerge) as (_&Hseg1&Hgrid1&_&_).
  pose proof (mergeActivated_geometry _ _ _ _ Hmerge) as Hgeo1.
  destruct (fitModel_state _ _ _ _ _ Hfit) as (_&Hcase&_&_).
  cbn [clear_unassigned g_segments g_pe] in Hcase.
  destruct Hcase as [[Hsegs' Hgrid']|(Hsegs'&_&pe1&Hgeo_1&Hgrid_1&Hgrid')].
  - left. rewrite Hsegs', Hgrid', Hseg1, Hgrid1. split; reflexivity.
  - right. rewrite Hsegs', Hgrid', Hseg1. split; [reflexivity|].
    pose proof (grid_shaped_geometry _ _ Hgeo1 Hshape_g) as Hshape_1.
    pose proof (grid_shaped_geometry _ _ Hgeo_1 Hshape_1) as Hshape_pe1.
    assert (HN1 : nr_total_cells_ pe1 = nr_total_cells_ pe0).
    { destruct Hgeo_1 as (_&_&_&Ha&_). destruct Hgeo1 as (_&_&_&Hb&_). congruence. }
    intros i Hi. rewrite (markCells_spec pe1); try assumption.
    + now rewrite Hgrid_1, Hgrid1.
    + now rewrite HN1.
    + rewrite HN1, Hgrid_1, Hgrid1, Hlen. exact Hlen0.
Qed.

(** X6.  At the start of every turn of the loop of
    [createPlaneSegments], the counter [remaining_planar_cells] is the
    number of set bits of [unassigned_mask]; every cell is merged and
    removed from the histogram at most once, only planar cells of the
    grid are, and the unassigned cells are the planar cells that were
    not removed yet. *)
Theorem X6_remaining_counts_the_unassigned_cells (g : Growth C) :
  LoopHead BITSET_SIZE pe0 hist mask tols g ->
  List.NoDup (g_removed g) /\
  (forall i, In i (g_removed g) -> Z.testbit mask i = true /\ 0 <= i < nr_total_cells_ pe0) /\
  (forall i, Z.testbit (g_unassigned g) i = true
             <-> Z.testbit mask i = true /\ ~ In i (g_removed g)) /\
  g_remaining g = bit_count BITSET_SIZE (g_unassigned g) /\
  g_remaining g = bit_count BITSET_SIZE mask - Z.of_nat (length (g_removed g)).
Proof.
  intros Hhead.
  destruct (loop_inv_head BITSET_SIZE pe0 hist mask tols Hshape Hbits Hpoints Hlen0 Hzero
              g Hhead) as (_&_&Hnd&Hsub&Hun&Hcount&_).
  split; [exact Hnd|]. split; [exact Hsub|]. split; [exact Hun|]. split; [|exact Hcount].
  rewrite Hcount. symmetry. apply count_after_removal; [exact Hnd| |exact Hun].
  intros i Hi. destruct (Hsub i Hi). split; [assumption|lia].
Qed.

(** X7.  At the start of every turn, the segments found so far are
    cells of the grid, and every cell of the segment map holds 0 or
    the number of one of these segments (from 1 to their count); a
    cell with a number has been merged and removed, and is no longer
    unassigned. *)
Theorem X7_segment_map_holds_segment_numbers (g : Growth C) :
  LoopHead BITSET_SIZE pe0 hist mask tols g ->
  (forall s, In s (g_segments g) -> 0 <= s < nr_total_cells_ pe0) /\
  (forall i, 0 <= i < nr_total_cells_ pe0 ->
     0 <= zget 0 (grid_plane_seg_map_ (g_pe g)) i <= Z.of_nat (length (g_segments g)) /\
     (zget 0 (grid_plane_seg_map_ (g_pe g)) i <> 0 ->
      In i (g_removed g) /\ Z.testbit (g_unassigned g) i = false)).
Proof.
  intros Hhead.
  destruct (loop_inv_head BITSET_SIZE pe0 hist mask tols Hshape Hbits Hpoints Hlen0 Hzero
              g Hhead) as (_&_&_&_&Hun&_&Hsegs&_&Hstamps).
  split; [exact Hsegs|]. intros i Hi. destruct (Hstamps i Hi) as [Hb Hr].
  split; [exact Hb|]. intros Hnz. split; [now apply Hr|].
  destruct (Z.testbit (g_unassigned g) i) eqn:Hbit; [|reflexivity].
  apply Hun in Hbit. destruct Hbit as [_ Hno]. exfalso. now apply Hno, Hr.
Qed.

(** X8.  A turn of the loop that accepts a segment appends its seed to
    the segments and writes the new segment count into exactly the
    cells its flood activated, all of which held 0; a turn that
    accepts none leaves the segment map.  A cell that holds a segment
    number keeps it in every later turn. *)
Theorem X8_a_turn_stamps_the_activated_cells (g g' : Growth C) :
  LoopHead BITSET_SIZE pe0 hist mask tols g ->
  growthStep BITSET_SIZE tols g = Done (true, g') ->
  exists seed_id fl,
    growFrom g tols seed_id = Done fl /\
    (g_segments g' = g_segments g \/ g_segments g' = g_segments g ++ [seed_id]) /\
    forall i, 0 <= i < nr_total_cells_ pe0 ->
      let before := zget 0 (grid_plane_seg_map_ (g_pe g)) i in
      let after := zget 0 (grid_plane_seg_map_ (g_pe g')) i in
      (before <> 0 -> after = before) /\
      (Z.testbit (activation_map fl) i = true -> before = 0) /\
      (g_segments g' = g_segments g -> after = before) /\
      (g_segments g' = g_segments g ++ [seed_id] ->
       after = if Z.testbit (activation_map fl) i
               then Z.of_nat (length (g_segments g')) else before).
Proof.
  intros Hhead Hstep.
  pose proof (loop_inv_head BITSET_SIZE pe0 hist mask tols Hshape Hbits Hpoints Hlen0 Hzero
                g Hhead) as Hinv.
  destruct (growthStep_stamps g g' Hinv Hstep) as (seed_id&fl&Hfl&Hact&Hcase).
  destruct Hinv as (_&_&_&_&Hun&_&_&_&Hstamps).
  exists seed_id, fl. split; [exact Hfl|].
  assert (Hfresh : forall i, 0 <= i < nr_total_cells_ pe0 ->
            Z.testbit (activation_map fl) i = true ->
            zget 0 (grid_plane_seg_map_ (g_pe g)) i = 0).
  { intros i Hi Hbit. destruct (Z.eq_dec (zget 0 (grid_plane_seg_map_ (g_pe g)) i) 0)
      as [Hz|Hnz]; [exact Hz|].
    exfalso. destruct (Hstamps i Hi) as [_ Hr]. specialize (Hr Hnz).
    destruct (Hact i Hbit) as [Hu _]. apply Hun in Hu. now destruct Hu. }
  assert (Hneq : forall l (x : Z), l <> l ++ [x]).
  { intros l x Heq. apply (f_equal (@length Z)) in Heq. rewrite length_app in Heq.
    simpl in Heq. lia. }
  destruct Hcase as [[Hsegs' Hgrid']|[Hsegs' Hgrid']].
  - split; [now left|]. intros i Hi before after. subst before after.
    rewrite (Hgrid' i Hi). split; [reflexivity|]. split; [now apply Hfresh|].
    split; [reflexivity|]. rewrite Hsegs'. intros Habs. now apply Hneq in Habs.
  - split; [now right|]. intros i Hi before after. subst before after.
    rewrite (Hgrid' i Hi), Hsegs', length_app. cbn [length].
    destruct (Z.testbit (activation_map fl) i) eqn:Hbit.
    + rewrite (Hfresh i Hi Hbit). split; [intros Habs; now contradiction Habs|].
      split; [reflexivity|]. split; [intros Habs; symmetry in Habs; now apply Hneq in Habs|].
      intros _. lia.
    + split; [reflexivity|]. split; [discriminate|]. split; reflexivity.
Qed.
End GrowthLoopFacts.


Lemma frame_F_reads_zero (i : Z) : zget 0 (grid_plane_seg_map_ frame_F) i = 0.
Proof. apply (zget_filled_default 0 16 i). Qed.

Lemma growth_F_turn : growthStep 64 tols_2x8 growth_F = Done (true, growth_F1).
Proof. vm_compute. reflexivity. Qed.

(** The histogram of frame F, as the constructor builds it from the
    matrix of the normals, and the histogram after the first turn of
    the loop, which has removed eight cells. *)
Lemma normals_2x8_rows (i : Z) :
  0 <= i < 16 -> zget (0, 0, 0)%Q (matrix_rows normals_2x8) i = (0, 0, - (1))%Q.
Proof.
  intros Hi. apply (proj2 (in_zrange 0 16 i)) in Hi.
  vm_compute in Hi.
  repeat (destruct Hi as [<-|Hi]; [vm_compute; reflexivity|]). destruct Hi.
Qed.

Lemma all_unassigned_bits (i : Z) : Z.testbit all_unassigned i = true -> 0 <= i < 16.
Proof.
  intros Hbit. apply (bits_below all_unassigned 16 i); [|exact Hbit].
  vm_compute. split; [discriminate|reflexivity].
Qed.

Lemma normals_2x8_angles (i : Z) :
  Z.testbit all_unassigned i = true ->
  angles_defined 20 (zget (0, 0, 0)%Q (matrix_rows normals_2x8) i).
Proof.
  intros Hbit. rewrite (normals_2x8_rows i (all_unassigned_bits i Hbit)).
  split; [vm_compute; discriminate|]. split; [vm_compute; discriminate|].
  intros Hpos. vm_compute in Hpos. discriminate.
Qed.

Lemma normals_2x8_histogram :
  constructHistogram 64 20 normals_2x8 all_unassigned = Done hist_F.
Proof. vm_compute. reflexivity. Qed.

Lemma C9_histogram_invariant_witness :
  exists hist,
    constructHistogram 64 20 normals_2x8 all_unassigned = Done hist /\
    hist_ok 20 (matrix_rows normals_2x8) all_unassigned [] hist /\
    g_removed growth_F1 = [0; 1; 2; 3; 8; 9; 10; 11] /\
    hist_ok 20 (matrix_rows normals_2x8) all_unassigned
      (g_removed growth_F1) (g_hist growth_F1).
Proof.
  assert (HB : 1 <= 20) by lia.
  assert (Hfits : 20 * 20 <= INT_MAX) by (vm_compute; discriminate).
  assert (Hcols : cols normals_2x8 = 3) by reflexivity.
  assert (Hrows : 0 <= rows normals_2x8 <= 64) by (split; vm_compute; discriminate).
  assert (Hmask : forall i, Z.testbit all_unassigned i = true -> i < rows normals_2x8).
  { intros i Hbit. apply all_unassigned_bits in Hbit. exact (proj2 Hbit). }
  pose proof (C9_histogram_invariant 64 20 normals_2x8 all_unassigned HB Hfits Hcols Hrows
                Hmask normals_2x8_angles frame_F tols_2x8) as (hist&Hctor&Hnew&Hloop).
  rewrite normals_2x8_histogram in Hctor. injection Hctor as <-.
  exists hist_F. split; [exact normals_2x8_histogram|]. split; [exact Hnew|].
  split; [vm_compute; reflexivity|].
  assert (Hhead : LoopHead 64 frame_F hist_F all_unassigned tols_2x8 growth_F1).
  { apply (head_next 64 frame_F hist_F all_unassigned tols_2x8 growth_F growth_F1).
    - apply head_start.
    - reflexivity.
    - exact growth_F_turn. }
  exact (proj1 (Hloop growth_F1 Hhead)).
Defined.

Lemma X6_remaining_counts_the_unassigned_cells_witness :
  g_remaining growth_F = bit_count 64 (g_unassigned growth_F).
Proof.
  destruct (X6_remaining_counts_the_unassigned_cells 64 frame_F hist_F all_unassigned tols_2x8)
    with (g := growth_F) as (_&_&_&Hrem&_).
  - split; [reflexivity|]. split; vm_compute; discriminate.
  - vm_compute. discriminate.
  - vm_compute. discriminate.
  - vm_compute. discriminate.
  - exact frame_F_reads_zero.
  - apply head_start.
  - exact Hrem.
Defined.

Lemma X7_segment_map_holds_segment_numbers_witness :
  0 <= zget 0 (grid_plane_seg_map_ (g_pe growth_F)) 5
  <= Z.of_nat (length (g_segments growth_F)).
Proof.
  destruct (X7_segment_map_holds_segment_numbers 64 frame_F hist_F all_unassigned tols_2x8)
    with (g := growth_F) as (_&Hstamps).
  - split; [reflexivity|]. split; vm_compute; discriminate.
  - vm_compute. discriminate.
  - vm_compute. discriminate.
  - vm_compute. discriminate.
  - exact frame_F_reads_zero.
  - apply head_start.
  - apply (Hstamps 5). vm_compute. split; [discriminate|reflexivity].
Defined.

Lemma X8_a_turn_stamps_the_activated_cells_witness :
  exists seed_id fl,
    growFrom growth_F tols_2x8 seed_id = Done fl /\
    (g_segments growth_F1 = g_segments growth_F
     \/ g_segments growth_F1 = g_segments growth_F ++ [seed_id]).
Proof.
  destruct (X8_a_turn_stamps_the_activated_cells 64 frame_F hist_F all_unassigned tols_2x8)
    with (g := growth_F) (g' := growth_F1) as (seed_id&fl&Hfl&Hsegs&_).
  - split; [reflexivity|]. split; vm_compute; discriminate.
  - vm_compute. discriminate.
  - vm_compute. discriminate.
  - vm_compute. discriminate.
  - exact frame_F_reads_zero.
  - apply head_start.
  - exact growth_F_turn.
  - exists seed_id, fl. auto.
Defined.


(** ** Termination of region growing *)

Lemma fold_addPoint_points `{Libm} (normals : list Vec3) (l : list Z) : forall h,
  nr_points_ (fold_left (addPoint normals) l h) = nr_points_ h.
Proof. induction l as [|a l IH]; intros h; simpl; [reflexivity|]. now rewrite IH. Qed.

Lemma newHistogram_points `{Libm} (BITSET_SIZE B : Z) (normals : list Vec3) (mask : Z) :
  nr_points_ (newHistogram BITSET_SIZE B normals mask) = Z.of_nat (length normals).
Proof. unfold newHistogram. now rewrite fold_addPoint_points. Qed.

Section GrowthTotal.
Context {C : Type} `{CellSegmentOps C}.
Variable BITSET_SIZE : Z.

Lemma incompatible_config (pe pe' : PlaneExtractor C) (tols : list Q) (a b : C) (i : Z) :
  config_ pe' = config_ pe -> incompatible pe' tols a b i = incompatible pe tols a b i.
Proof. intros Hcfg. unfold incompatible. now rewrite Hcfg. Qed.

Lemma mergeActivated_total (seed_id : Z) (acts : list Z) : forall g : Growth C,
  zget None (cell_grid_ (g_pe g)) seed_id <> None ->
  (forall i, In i acts -> zget None (cell_grid_ (g_pe g)) i <> None) ->
  exists g1, mergeActivated seed_id acts g = Done g1.
Proof.
  induction acts as [|a acts IH]; intros g Hseed Hacts; simpl.
  - now exists g.
  - destruct (deref_present _ _ Hseed) as [seg ->].
    destruct (deref_present _ a (Hacts a (or_introl eq_refl))) as [ci ->]. simpl.
    apply IH; cbn [g_pe cell_grid_ with_cell_grid].
    + now apply zget_zset_present.
    + intros i Hi. apply zget_zset_present. apply Hacts. now right.
Qed.

Lemma fitModel_total (seed_id activation : Z) (g : Growth C) :
  zget None (cell_grid_ (g_pe g)) seed_id <> None ->
  exists g', fitModel BITSET_SIZE seed_id activation g = Done g'.
Proof.
  intros Hseed. unfold fitModel. destruct (_ <? _); [now exists g|].
  destruct (deref_present _ _ Hseed) as [seg ->]. simpl.
  destruct (Qltb _ _); eexists; reflexivity.
Qed.

Lemma selectSeed_some (cells : list (option C)) (cands : list Z) :
  (forall c, In c cands ->
     exists cell, zget None cells c = Some cell /\ (getMSE cell < inject_Z INT_MAX)%Q) ->
  cands <> [] ->
  exists seed_id, selectSeed cells cands None (inject_Z INT_MAX) = Done (Some seed_id).
Proof.
  intros Hlow Hne.
  destruct (selectSeed_total cells cands None (inject_Z INT_MAX)) as [r Hrun].
  { intros c Hc. destruct (Hlow c Hc) as (cell&->&_). discriminate. }
  destruct (selectSeed_result cells cands None (inject_Z INT_MAX) r Hrun)
    as [[-> Hall]|(l1&s&l2&cell_s&_&->&_)]; [|now exists s].
  exfalso. destruct cands as [|c cands]; [contradiction|].
  rewrite List.Forall_forall in Hall.
  destruct (Hall c (or_introl eq_refl)) as (cell&Hcell&Hle).
  destruct (Hlow c (or_introl eq_refl)) as (cell'&Hcell'&Hlt).
  unfold deref in Hcell. rewrite Hcell' in Hcell. injection Hcell as <-.
  apply (Qlt_not_le _ _ Hlt Hle).
Qed.
End GrowthTotal.

Section GrowthTermination.
Context `{Libm} `{!LibmRanges} {C : Type} `{CellSegmentOps C}.
Variable BITSET_SIZE : Z.
Variable B : Z.
Variable normals : list Vec3.
Variable mask : Z.
Variable pe0 : PlaneExtractor C.
Variable tols : list Q.
Hypothesis HB : 1 <= B.
Hypothesis HB32 : B < 2 ^ 31.
Hypothesis Hnormals : Z.of_nat (length normals) = nr_total_cells_ pe0.
Hypothesis Hshape : grid_shaped pe0.
Hypothesis Hbits : nr_total_cells_ pe0 <= BITSET_SIZE.
Hypothesis Hmask : forall i, Z.testbit mask i = true -> i < nr_total_cells_ pe0.
Hypothesis Hlen0 : nr_total_cells_ pe0 <= Z.of_nat (length (grid_plane_seg_map_ pe0)).
Hypothesis Hzero : forall i, zget 0 (grid_plane_seg_map_ pe0) i = 0.
Hypothesis Hcells0 : cells_present pe0.
Hypothesis Hself : seedable pe0 tols mask.

Local Abbreviation hist := (newHistogram BITSET_SIZE B normals mask).
Local Abbreviation Head := (LoopHead BITSET_SIZE pe0 hist mask tols).

Lemma head_loop_inv (g : Growth C) : Head g -> loop_inv BITSET_SIZE pe0 mask g.
Proof.
  apply loop_inv_head; try assumption. rewrite newHistogram_points. lia.
Qed.

(** The candidates are unassigned planar cells of the grid. *)
Lemma head_candidates (g : Growth C) (c : Z) :
  Head g -> In c (getPointsFromMostFrequentBin (g_hist g)) ->
  0 <= c < nr_total_cells_ pe0 /\ Z.testbit (g_unassigned g) c = true /\
  Z.testbit mask c = true.
Proof.
  intros Hhead Hc.
  destruct (head_loop_inv g Hhead) as (_&Hpts&_&_&Hun&_).
  split; [apply candidates_in_range in Hc; lia|].
  destruct (growth_inv_loop BITSET_SIZE B normals mask HB) with (pe := pe0) (tols := tols)
                                                                  (g := g)
    as (M&Hinv&Hmem&HunM); try assumption; try lia.
  { intros i Hi. rewrite Hnormals. now apply Hmask. }
  destruct (candidates_of_inv _ B _ M (g_hist g) (conj HB HB32) Hinv) as (_&_&Hin&_).
  { intros i _. apply bin_of_range. exact HB. }
  apply Hin in Hc. destruct Hc as [Hc _]. split; [now apply HunM|].
  apply Hmem in Hc. apply Hc.
Qed.

Lemma head_candidates_exist (g : Growth C) :
  Head g -> 0 < g_remaining g -> getPointsFromMostFrequentBin (g_hist g) <> [].
Proof.
  intros Hhead Hpos.
  destruct (head_loop_inv g Hhead) as (_&_&Hnd&Hsub&Hun&Hcount&_).
  destruct (growth_inv_loop BITSET_SIZE B normals mask HB) with (pe := pe0) (tols := tols)
                                                                  (g := g)
    as (M&Hinv&Hmem&HunM); try assumption; try lia.
  { intros i Hi. rewrite Hnormals. now apply Hmask. }
  destruct (candidates_of_inv _ B _ M (g_hist g) (conj HB HB32) Hinv) as (_&_&_&_&Hne).
  { intros i _. apply bin_of_range. exact HB. }
  apply Hne. intros ->.
  assert (Hcnt : g_remaining g = bit_count BITSET_SIZE (g_unassigned g)).
  { rewrite Hcount. symmetry. apply count_after_removal; [exact Hnd| |exact Hun].
    intros i Hi. destruct (Hsub i Hi). split; [assumption|lia]. }
  unfold bit_count in Hcnt.
  destruct (set_bits BITSET_SIZE (g_unassigned g)) as [|i l] eqn:Hbits'; [simpl in Hcnt; lia|].
  assert (Hi : In i (set_bits BITSET_SIZE (g_unassigned g))) by (rewrite Hbits'; now left).
  apply in_set_bits in Hi. destruct Hi as [_ Hi]. now apply HunM in Hi.
Qed.

(** The flood of a turn activates its seed. *)
Lemma seed_activated (g : Growth C) (seed_id : Z) (fl : Flood) :
  Head g -> cells_kept pe0 g ->
  In seed_id (getPointsFromMostFrequentBin (g_hist g)) ->
  growFrom g tols seed_id = Done fl ->
  Z.testbit (activation_map fl) seed_id = true.
Proof.
  intros Hhead [Hpresent Hkept] Hcand Hfl.
  destruct (head_candidates g seed_id Hhead Hcand) as (Hrange&HU&Hm).
  destruct (head_loop_inv g Hhead) as (Hgeo&_).
  pose proof (grid_shaped_geometry _ _ Hgeo Hshape) as Hshape_g.
  assert (HN : nr_total_cells_ (g_pe g) = nr_total_cells_ pe0) by apply Hgeo.
  assert (Hcfg : config_ (g_pe g) = config_ pe0) by apply Hgeo.
  destruct (seed_in_grid (g_pe g) seed_id Hshape_g) as [Hgrid Hindex]; [lia|].
  unfold growFrom, grow_depth in Hfl.
  apply growSeed_returns in Hfl. cbv zeta in Hfl. rewrite Hindex in Hfl.
  destruct Hfl as [_ [[[Habs|Habs] _]|(parent&cand&_&_&Hparent&Hcand'&Hcase)]].
  - congruence.
  - simpl in Habs. now rewrite Z.bits_0 in Habs.
  - rewrite Hparent in Hcand'. injection Hcand' as <-.
    assert (Hcell : zget None (cell_grid_ pe0) seed_id = Some parent).
    { rewrite <- (Hkept seed_id HU). unfold deref in Hparent.
      destruct (zget None (cell_grid_ (g_pe g)) seed_id); [congruence|discriminate]. }
    destruct (Hself seed_id parent Hm Hcell) as [Hok _].
    rewrite (incompatible_config pe0 (g_pe g) tols _ _ _ Hcfg) in Hcase.
    destruct Hcase as [[Habs _]|[_ Hflood]]; [congruence|].
    rewrite <- Hindex in Hflood at 3.
    apply floods_neighbours_sub in Hflood; try assumption.
    apply Hflood. simpl. apply Z.setbit_eq. lia.
Qed.

Lemma cells_kept_step (g g' : Growth C) :
  Head g -> cells_kept pe0 g ->
  growthStep BITSET_SIZE tols g = Done (true, g') ->
  cells_kept pe0 g'.
Proof.
  intros Hhead Hkept Hstep.
  destruct (growthStep_turn _ _ _ _ Hstep) as (seed_id&fl&g1&Hcand&Hfl&Hmerge&Hfit).
  pose proof (seed_activated g seed_id fl Hhead Hkept Hcand Hfl) as Hseed.
  destruct Hkept as [Hpresent Hkept].
  destruct (mergeActivated_effect _ _ _ _ Hmerge) as (_&_&Hu1).
  destruct (mergeActivated_state _ _ _ _ Hmerge) as (_&_&_&Hcells1&Hpres1).
  pose proof (mergeActivated_geometry _ _ _ _ Hmerge) as Hgeo1.
  destruct (fitModel_effect _ _ _ _ _ Hfit) as (_&_&Hu2).
  destruct (fitModel_state _ _ _ _ _ Hfit) as (_&_&Hcells2&Hpres2).
  pose proof (fitModel_geometry _ _ _ _ _ Hfit) as Hgeo2.
  cbn [clear_unassigned g_unassigned g_pe] in Hu2, Hcells2, Hpres2, Hgeo2.
  split.
  - intros i Hi. apply Hpres2, Hpres1, Hpresent.
    destruct Hgeo1 as (_&_&_&Ha&_). destruct Hgeo2 as (_&_&_&Hb&_). lia.
  - intros i Hi. rewrite Hu2, Hu1, Z.ldiff_spec, andb_true_iff, negb_true_iff in Hi.
    destruct Hi as [HU Hno].
    assert (Hne : i <> seed_id) by (intros ->; congruence).
    rewrite (Hcells2 i Hne), (Hcells1 i Hne). now apply Hkept.
Qed.

Lemma cells_kept_head (g : Growth C) : Head g -> cells_kept pe0 g.
Proof.
  induction 1 as [|g g' Hhead IH Hpos Hstep].
  - split; [exact Hcells0|]. reflexivity.
  - now apply (cells_kept_step g g').
Qed.

(** A turn of the loop returns, and if the loop goes on, the number
    of remaining planar cells has decreased. *)
Lemma growthStep_progress (g : Growth C) :
  Head g -> 0 < g_remaining g ->
  exists again g1,
    growthStep BITSET_SIZE tols g = Done (again, g1) /\
    (again = false -> g1 = g /\ too_few_candidates g) /\
    (again = true -> g_remaining g1 < g_remaining g).
Proof.
  intros Hhead Hpos.
  pose proof (cells_kept_head g Hhead) as Hkept.
  destruct (head_loop_inv g Hhead) as (Hgeo&_).
  pose proof (grid_shaped_geometry _ _ Hgeo Hshape) as Hshape_g.
  assert (HN : nr_total_cells_ (g_pe g) = nr_total_cells_ pe0) by apply Hgeo.
  unfold growthStep.
  destruct (_ <? _) eqn:Hfew.
  { exists false, g. split; [reflexivity|]. split; [|discriminate].
    intros _. split; [reflexivity|]. now apply Z.ltb_lt in Hfew. }
  destruct (selectSeed_some (cell_grid_ (g_pe g)) (getPointsFromMostFrequentBin (g_hist g)))
    as [seed_id Hsel].
  { intros c Hc. destruct (head_candidates g c Hhead Hc) as (Hrange&HU&Hm).
    destruct Hkept as [Hpresent Hkept].
    destruct (zget None (cell_grid_ (g_pe g)) c) as [cell|] eqn:Hcell.
    - exists cell. split; [reflexivity|]. rewrite (Hkept c HU) in Hcell.
      now destruct (Hself c cell Hm Hcell).
    - exfalso. apply (Hpresent c); [lia|exact Hcell]. }
  { now apply head_candidates_exist. }
  rewrite Hsel. cbn [bind].
  destruct (seed_is_first_least_error _ _ _ Hsel) as [Hcand _].
  destruct (head_candidates g seed_id Hhead Hcand) as (Hrange&HU&Hm).
  destruct (seed_in_grid (g_pe g) seed_id Hshape_g) as [Hgrid Hindex]; [lia|].
  destruct (growSeed_full_depth (g_pe g) tols (g_unassigned g) Hshape_g (proj1 Hkept)
              _ _ seed_id {| activation_map := 0; calls := [] |} Hgrid) as [fl Hfl];
    [lia|].
  fold (growFrom g tols seed_id) in Hfl. rewrite Hfl. cbn [bind].
  pose proof (seed_activated g seed_id fl Hhead Hkept Hcand Hfl) as Hseed.
  assert (Hact : forall i, Z.testbit (activation_map fl) i = true ->
            0 <= i < nr_total_cells_ pe0).
  { intros i Hbit. rewrite <- HN.
    apply (growFrom_activation g tols seed_id fl); try assumption. lia. }
  destruct (mergeActivated_total seed_id (set_bits BITSET_SIZE (activation_map fl)) g)
    as [g1 Hmerge].
  { apply (proj1 Hkept). lia. }
  { intros i Hi. apply in_set_bits in Hi. destruct Hi as [_ Hi].
    apply (proj1 Hkept). rewrite HN. now apply Hact. }
  rewrite Hmerge. cbn [bind].
  destruct (mergeActivated_state _ _ _ _ Hmerge) as (Hrem1&_&_&_&Hpres1).
  destruct (fitModel_total BITSET_SIZE seed_id (activation_map fl)
              (clear_unassigned (activation_map fl) g1)) as [g2 Hfit].
  { cbn [clear_unassigned g_pe]. apply Hpres1, (proj1 Hkept). lia. }
  rewrite Hfit. cbn [bind].
  exists true, g2. split; [reflexivity|]. split; [discriminate|]. intros _.
  destruct (fitModel_state _ _ _ _ _ Hfit) as (Hrem2&_).
  cbn [clear_unassigned g_remaining] in Hrem2. rewrite Hrem2, Hrem1.
  assert (Hin : In seed_id (set_bits BITSET_SIZE (activation_map fl))).
  { apply in_set_bits. split; [lia|exact Hseed]. }
  destruct (set_bits BITSET_SIZE (activation_map fl)); [destruct Hin|]. simpl. lia.
Qed.

Lemma growthLoop_returns (fuel : nat) : forall g : Growth C,
  Head g -> (Z.to_nat (g_remaining g) < fuel)%nat ->
  exists g', growthLoop BITSET_SIZE fuel tols g = Done g' /\ Head g' /\
             (g_remaining g' = 0 \/ too_few_candidates g').
Proof.
  induction fuel as [|fuel IH]; intros g Hhead Hfuel; [lia|]. simpl.
  destruct (Z.ltb_spec 0 (g_remaining g)) as [Hpos|Hdone].
  - destruct (growthStep_progress g Hhead Hpos) as (again&g1&Hstep&Hstop&Hgo).
    rewrite Hstep. cbn [bind fst snd]. destruct again.
    + apply IH; [now apply (head_next _ _ _ _ _ g g1)|].
      specialize (Hgo eq_refl). lia.
    + destruct (Hstop eq_refl) as [-> Hfew]. exists g. auto.
  - exists g. split; [reflexivity|]. split; [exact Hhead|]. left.
    destruct (head_loop_inv g Hhead) as (_&_&Hnd&Hsub&Hun&Hcount&_).
    assert (Hcnt : g_remaining g = bit_count BITSET_SIZE (g_unassigned g)).
    { rewrite Hcount. symmetry. apply count_after_removal; [exact Hnd| |exact Hun].
      intros i Hi. destruct (Hsub i Hi). split; [assumption|lia]. }
    unfold bit_count in Hcnt. lia.
Qed.

(** X10.  [createPlaneSegments] returns when every planar cell
    passes the test of [growSeed] against itself and has a fit error
    below [INT_MAX]: each turn of its loop then activates at least the
    seed, so the loop makes at most one turn per planar cell.  The
    state it returns in is one in which the loop starts a turn, so the
    invariants of the loop hold for the result; no planar cell
    remains, or the candidates have become too few. *)
Theorem X10_createPlaneSegments_returns (fuel : nat) :
  (Z.to_nat (bit_count BITSET_SIZE mask) < fuel)%nat ->
  exists g,
    createPlaneSegments BITSET_SIZE fuel pe0 hist mask tols = Done g /\
    LoopHead BITSET_SIZE pe0 hist mask tols g /\
    (g_remaining g = 0 \/ too_few_candidates g).
Proof.
  intros Hfuel. unfold createPlaneSegments.
  apply growthLoop_returns; [apply head_start|exact Hfuel].
Qed.
End GrowthTermination.


Lemma frame_F_seedable : seedable frame_F tols_2x8 all_unassigned.
Proof.
  intros i c Hbit Hcell.
  apply (bits_below all_unassigned 16) in Hbit; [|split; [discriminate|reflexivity]].
  assert (Hi : In i (zrange 0 16)) by now apply in_zrange.
  vm_compute in Hi.
  repeat (destruct Hi as [<-|Hi];
          [vm_compute in Hcell; injection Hcell as <-; split; vm_compute; reflexivity|]).
  destruct Hi.
Qed.

Lemma X10_createPlaneSegments_returns_witness :
  exists g,
    createPlaneSegments 64 17 frame_F (newHistogram 64 20 normals_E all_unassigned)
      all_unassigned tols_2x8 = Done g.
Proof.
  destruct (X10_createPlaneSegments_returns 64 20 normals_E all_unassigned frame_F tols_2x8)
    with (fuel := 17%nat) as (g&Hrun&_).
  - lia.
  - reflexivity.
  - reflexivity.
  - split; [reflexivity|]. split; vm_compute; discriminate.
  - vm_compute. discriminate.
  - intros i Hbit. apply (bits_below all_unassigned 16 i); [|exact Hbit].
    split; [discriminate|reflexivity].
  - vm_compute. discriminate.
  - exact frame_F_reads_zero.
  - apply cells_present_check. vm_compute. reflexivity.
  - exact frame_F_seedable.
  - vm_compute. lia.
  - now exists g.
Defined.

(** ** A flood that activates nothing *)

Lemma set_bits_0 (size : Z) : set_bits size 0 = [].
Proof.
  unfold set_bits. induction (zrange 0 size) as [|a l IH]; simpl; [reflexivity|].
  now rewrite Z.bits_0.
Qed.

Section Divergence.
Context {C : Type} `{CellSegmentOps C}.
Variable BITSET_SIZE : Z.

Lemma growFrom_rejects_seed (g : Growth C) (tols : list Q) (seed_id : Z) (c : C) :
  grid_shaped (g_pe g) -> 0 <= seed_id < nr_total_cells_ (g_pe g) ->
  zget None (cell_grid_ (g_pe g)) seed_id = Some c ->
  incompatible (g_pe g) tols c c seed_id = true ->
  exists fl, growFrom g tols seed_id = Done fl /\ activation_map fl = 0.
Proof.
  intros Hshape Hseed Hcell Hbad.
  destruct (seed_in_grid (g_pe g) seed_id Hshape Hseed) as [_ Hindex].
  unfold growFrom, grow_depth. cbn [growSeed]. rewrite Hindex.
  destruct (Z.leb_spec (nr_total_cells_ (g_pe g)) seed_id) as [Habs|_]; [lia|].
  destruct (negb _ || _); [eexists; split; reflexivity|].
  unfold deref. rewrite Hcell. cbn [bind]. rewrite Hbad.
  eexists. split; reflexivity.
Qed.

Lemma growthStep_stuck (tols : list Q) (g : Growth C) (seed_id : Z) (fl : Flood) :
  ~ too_few_candidates g ->
  selectSeed (cell_grid_ (g_pe g)) (getPointsFromMostFrequentBin (g_hist g)) None
    (inject_Z INT_MAX) = Done (Some seed_id) ->
  growFrom g tols seed_id = Done fl -> activation_map fl = 0 ->
  0 < to_size_t (minRegionGrowingCellsActivated (config_ (g_pe g))) ->
  growthStep BITSET_SIZE tols g = Done (true, g).
Proof.
  intros Hmany Hsel Hfl Hnone Hmin. unfold growthStep.
  destruct (Z.ltb_spec (Z.of_nat (length (getPointsFromMostFrequentBin (g_hist g))))
              (to_size_t (minRegionGrowingCandidateSize (config_ (g_pe g))))) as [Hfew|_];
    [contradiction|].
  rewrite Hsel. cbn [bind]. rewrite Hfl. cbn [bind]. rewrite Hnone, set_bits_0.
  cbn [mergeActivated bind]. unfold fitModel, bit_count. rewrite set_bits_0.
  cbn [clear_unassigned g_pe length]. change (Z.of_nat 0) with 0.
  apply Z.ltb_lt in Hmin. rewrite Hmin. cbn [bind].
  destruct g as [h u r s pe rm]. unfold clear_unassigned.
  cbn [g_hist g_unassigned g_remaining g_segments g_pe g_removed].
  now rewrite Z.ldiff_0_r.
Qed.

Lemma growthLoop_stuck (tols : list Q) (g : Growth C) :
  0 < g_remaining g -> growthStep BITSET_SIZE tols g = Done (true, g) ->
  forall fuel, growthLoop BITSET_SIZE fuel tols g = Timeout.
Proof.
  intros Hpos Hstep fuel. induction fuel as [|fuel IH]; [reflexivity|].
  simpl. apply Z.ltb_lt in Hpos. rewrite Hpos, Hstep. cbn [bind fst snd]. exact IH.
Qed.

(** X9.  If the cell of the selected seed fails the test of
    [growSeed] against itself (as every cell does when
    [minCosAngleForMerge] is larger than the squared length of its
    normal), the flood activates nothing; with
    [minRegionGrowingCellsActivated] positive the turn then changes
    nothing at all, neither the histogram nor the counter, and the
    loop of [createPlaneSegments] never ends. *)
Theorem X9_loop_never_ends_on_a_rejected_seed (tols : list Q) (g : Growth C)
    (seed_id : Z) (c : C) :
  grid_shaped (g_pe g) ->
  0 < g_remaining g ->
  ~ too_few_candidates g ->
  selectSeed (cell_grid_ (g_pe g)) (getPointsFromMostFrequentBin (g_hist g)) None
    (inject_Z INT_MAX) = Done (Some seed_id) ->
  0 <= seed_id < nr_total_cells_ (g_pe g) ->
  zget None (cell_grid_ (g_pe g)) seed_id = Some c ->
  incompatible (g_pe g) tols c c seed_id = true ->
  0 < to_size_t (minRegionGrowingCellsActivated (config_ (g_pe g))) ->
  growthStep BITSET_SIZE tols g = Done (true, g) /\
  forall fuel, growthLoop BITSET_SIZE fuel tols g = Timeout.
Proof.
  intros Hshape Hpos Hmany Hsel Hseed Hcell Hbad Hmin.
  destruct (growFrom_rejects_seed g tols seed_id c Hshape Hseed Hcell Hbad) as (fl&Hfl&Hnone).
  pose proof (growthStep_stuck tols g seed_id fl Hmany Hsel Hfl Hnone Hmin) as Hstep.
  split; [exact Hstep|]. now apply growthLoop_stuck.
Qed.
End Divergence.

Lemma X9_loop_never_ends_on_a_rejected_seed_witness :
  growthStep 64 tols_2x8 growth_G = Done (true, growth_G) /\
  growthLoop 64 1000 tols_2x8 growth_G = Timeout.
Proof.
  destruct (X9_loop_never_ends_on_a_rejected_seed 64 tols_2x8 growth_G 0 (plane_at 1000 10))
    as [Hstep Hloop]; [..|split; [exact Hstep|apply Hloop]].
  - split; [reflexivity|]. split; vm_compute; discriminate.
  - reflexivity.
  - vm_compute. discriminate.
  - vm_compute. reflexivity.
  - split; [discriminate|reflexivity].
  - vm_compute. reflexivity.
  - vm_compute. reflexivity.
  - reflexivity.
Defined.


(** ** The labels of plane merging *)





Section MergeLabels.
Context {C : Type} `{CellSegmentOps C}.
Variable BITSET_SIZE : Z.
Variable segs : list Z.
Variable n : Z.

Implicit Type pe : PlaneExtractor C.



End MergeLabels.


Section MergePlanes.
Context {C : Type} `{CellSegmentOps C}.
Variable BITSET_SIZE : Z.

Implicit Type pe : PlaneExtractor C.



End MergePlanes.



(** ** The coarse label image, in general *)

Section CoarseLabels.
Context {C : Type}.

Implicit Type pe : PlaneExtractor C.

(** What the loop of [coarseToLabels] does to one value of the grid. *)
Lemma coarse_value_kept (labels : list Z) (l : list Z) (v : Z) :
  ~ In v l ->
  fold_left (fun x i => if negb (zget 0 labels i =? i)
                        then (if x =? i then zget 0 labels i else x) else x) l v = v.
Proof.
  induction l as [|i l IH]; intros Hno; simpl; [reflexivity|].
  assert (Hne : (v =? i) = false) by (apply Z.eqb_neq; intros ->; apply Hno; now left).
  rewrite Hne. destruct (negb _); apply IH; intros Hin; apply Hno; now right.
Qed.

Lemma coarse_value (labels : list Z) (len v : Z) :
  (forall i, 0 <= i < len -> zget 0 labels i <= i) ->
  fold_left (fun x i => if negb (zget 0 labels i =? i)
                        then (if x =? i then zget 0 labels i else x) else x)
    (zrange 0 len) v
  = if (0 <=? v) && (v <? len) then zget 0 labels v else v.
Proof.
  intros Hle.
  destruct (Z.leb_spec 0 v) as [Hpos|Hneg]; [destruct (Z.ltb_spec v len) as [Hlt|Hge]|]; simpl.
  - rewrite (zrange_app 0 v len) by lia. rewrite fold_left_app.
    rewrite (coarse_value_kept labels (zrange 0 v) v) by (rewrite in_zrange; lia).
    rewrite zrange_cons by lia. simpl. rewrite Z.eqb_refl.
    destruct (Z.eqb_spec (zget 0 labels v) v) as [Heq|Hne]; simpl.
    + rewrite (coarse_value_kept labels (zrange (v + 1) len) v) by (rewrite in_zrange; lia).
      now rewrite Heq.
    + apply coarse_value_kept. rewrite in_zrange. specialize (Hle v). lia.
  - apply coarse_value_kept. rewrite in_zrange. lia.
  - apply coarse_value_kept. rewrite in_zrange. lia.
Qed.

Lemma fold_left_map_pointwise {X} (step : Z -> X -> Z) (l : list X) : forall grid : list Z,
  fold_left (fun m i => map (fun x => step x i) m) l grid
  = map (fun x => fold_left step l x) grid.
Proof.
  induction l as [|i l IH]; intros grid; simpl; [now rewrite map_id|].
  rewrite IH, map_map. reflexivity.
Qed.

(** X12.  Without refinement the label image has one pixel per cell.
    When no merge label is above its position (as [mergePlanes]
    guarantees), a cell of the segment map that holds [v] is shown as
    [labels[v]] if [v] is a position of [labels], and as [v]
    otherwise: the number [j + 1] that region growing writes for
    segment [j] is looked up as a position, so that the cells of
    segment [j] show the merge label of segment [j + 1], and the cells
    of the last segment keep their number. *)
Theorem X12_coarse_image_looks_up_the_stamp pe (labels : list Z) :
  (forall i, 0 <= i < Z.of_nat (length labels) -> zget 0 labels i <= i) ->
  img_rows (coarseToLabels pe labels) = nr_vertical_cells_ pe /\
  img_cols (coarseToLabels pe labels) = nr_horizontal_cells_ pe /\
  img_data (coarseToLabels pe labels)
  = map (fun v => if (0 <=? v) && (v <? Z.of_nat (length labels))
                  then zget 0 labels v else v)
      (grid_plane_seg_map_ pe).
Proof.
  intros Hle. split; [reflexivity|]. split; [reflexivity|].
  unfold coarseToLabels. cbn [img_data].
  rewrite (fold_left_ext _
             (fun m i => map (fun x => if negb (zget 0 labels i =? i)
                                       then (if x =? i then zget 0 labels i else x)
                                       else x) m)).
  - rewrite (fold_left_map_pointwise
               (fun x i => if negb (zget 0 labels i =? i)
                           then (if x =? i then zget 0 labels i else x) else x)).
    apply map_ext. intros v. now apply coarse_value.
  - intros m i. unfold replace_label. destruct (negb _); [reflexivity|].
    now rewrite map_id.
Qed.
End CoarseLabels.

Lemma X12_coarse_image_looks_up_the_stamp_witness :
  img_data (coarseToLabels frame_B [0; 0])
  = map (fun v => if (0 <=? v) && (v <? 2) then zget 0 [0; 0] v else v)
      (grid_plane_seg_map_ frame_B).
Proof.
  destruct (X12_coarse_image_looks_up_the_stamp frame_B [0; 0]) as (_&_&Hdata).
  - intros i Hi. simpl in Hi.
    assert (Hcase : i = 0 \/ i = 1) by lia.
    destruct Hcase as [-> | ->]; vm_compute; discriminate.
  - exact Hdata.
Defined.


(** ** The association matrix of the planes *)

Lemma zset_out_of_range {A} (l : list A) (i : Z) (x : A) :
  ~ 0 <= i < Z.of_nat (length l) -> zset l i x = l.
Proof.
  intros Hout. unfold zset. destruct (Z.ltb_spec i 0) as [_|Hpos]; [reflexivity|].
  apply list_insert_ge. lia.
Qed.

Lemma zget_out_of_range {A} (d : A) (l : list A) (i : Z) :
  ~ 0 <= i < Z.of_nat (length l) -> zget d l i = d.
Proof.
  intros Hout. unfold zget. destruct (Z.ltb_spec i 0) as [_|Hpos]; [reflexivity|].
  rewrite lookup_ge_None_2 by lia. reflexivity.
Qed.

Lemma length_assoc_set (m : list Z) (r c : Z) (v : bool) :
  length (assoc_set m r c v) = length m.
Proof. apply length_zset. Qed.

Lemma assoc_get_set (m : list Z) (r c a b : Z) (v : bool) :
  0 <= c ->
  assoc_get (assoc_set m r c v) a b
  = if (a =? r) && (b =? c) && (0 <=? r) && (r <? Z.of_nat (length m))
    then v else assoc_get m a b.
Proof.
  intros Hc. unfold assoc_get, assoc_set.
  destruct (Z.leb_spec 0 r) as [Hr0|Hr0]; [destruct (Z.ltb_spec r (Z.of_nat (length m)))
                                              as [Hr1|Hr1]|].
  - rewrite !andb_true_r. destruct (Z.eqb_spec a r) as [->|Hne]; simpl.
    + rewrite zget_zset_eq by lia. now rewrite testbit_assign_bit by exact Hc.
    + now rewrite zget_zset_ne by lia.
  - rewrite zset_out_of_range by lia. now rewrite !andb_false_r.
  - rewrite zset_out_of_range by lia. now rewrite andb_false_r.
Qed.

Lemma in_pairs (l1 l2 : list Z) (r c : Z) :
  In (r, c) (flat_map (fun r => map (fun c => (r, c)) l2) l1) <-> In r l1 /\ In c l2.
Proof.
  rewrite in_flat_map. split.
  - intros (r'&Hr&Hin). apply in_map_iff in Hin. destruct Hin as (c'&Heq&Hc).
    injection Heq as -> ->. now split.
  - intros [Hr Hc]. exists r. split; [exact Hr|]. apply in_map_iff. now exists c.
Qed.

Lemma NoDup_pairs (l1 l2 : list Z) :
  List.NoDup l1 -> List.NoDup l2 ->
  List.NoDup (flat_map (fun r => map (fun c => (r, c)) l2) l1).
Proof.
  intros H1 H2. induction H1 as [|r l1 Hr H1 IH]; simpl; [constructor|].
  apply List.NoDup_app; [|exact IH|].
  - clear -H2. induction H2 as [|c l2 Hc H2 IH]; simpl; constructor; [|exact IH].
    intros Hin. apply in_map_iff in Hin. destruct Hin as (c'&Heq&Hc').
    injection Heq as ->. contradiction.
  - intros [r' c'] Hin Hin'. apply in_map_iff in Hin. destruct Hin as (c''&Heq&_).
    injection Heq as -> ->. apply in_pairs in Hin'. now destruct Hin'.
Qed.

(** The second loop of [getConnectedComponents]. *)
Lemma symmetrize_fold (o : list Z) (l : list (Z * Z)) :
  List.NoDup l ->
  (forall r c, In (r, c) l -> 0 <= r < Z.of_nat (length o) /\ 0 <= c) ->
  let m := fold_left
             (fun m '(r, c) => assoc_set m r c (assoc_get m r c || assoc_get m c r)) l o in
  length m = length o /\
  forall a b,
    (In (a, b) l -> assoc_get m a b = assoc_get o a b || assoc_get o b a) /\
    (~ In (a, b) l -> assoc_get m a b = assoc_get o a b).
Proof.
  induction l as [|[r c] l IH] using rev_ind; intros Hnd Hrange; cbv zeta.
  - simpl. split; [reflexivity|]. intros a b. split; [intros []|reflexivity].
  - rewrite fold_left_app. cbn [fold_left].
    apply NoDup_remove in Hnd. rewrite app_nil_r in Hnd. destruct Hnd as [Hnd Hnew].
    destruct IH as [Hlen Hget]; [exact Hnd| |].
    { intros r' c' Hin. apply Hrange, in_app_iff. now left. }
    set (cur := fold_left _ l o) in *.
    destruct (Hrange r c) as [Hr Hc]; [apply in_app_iff; right; now left|].
    split; [now rewrite length_assoc_set|].
    assert (Hv : assoc_get cur r c || assoc_get cur c r = assoc_get o r c || assoc_get o c r).
    { rewrite (proj2 (Hget r c) Hnew).
      destruct (in_dec (fun x y : Z * Z => decide (x = y)) (c, r) l) as [Hin|Hno].
      - rewrite (proj1 (Hget c r) Hin).
        destruct (assoc_get o r c), (assoc_get o c r); reflexivity.
      - now rewrite (proj2 (Hget c r) Hno). }
    intros a b. rewrite assoc_get_set by exact Hc. rewrite Hlen.
    destruct (Z.leb_spec 0 r) as [_|Habs]; [|lia].
    destruct (Z.ltb_spec r (Z.of_nat (length o))) as [_|Habs]; [|lia].
    rewrite !andb_true_r.
    destruct (Z.eqb_spec a r) as [->|Hne_a]; [destruct (Z.eqb_spec b c) as [->|Hne_b]|]; simpl.
    + split; [intros _; exact Hv|]. intros Hno. exfalso. apply Hno, in_app_iff. right. now left.
    + split.
      * intros Hin. apply in_app_iff in Hin. destruct Hin as [Hin|[Heq|[]]].
        -- now apply Hget.
        -- injection Heq as Heq. congruence.
      * intros Hno. apply Hget. intros Hin. apply Hno, in_app_iff. now left.
    + split.
      * intros Hin. apply in_app_iff in Hin. destruct Hin as [Hin|[Heq|[]]].
        -- now apply Hget.
        -- injection Heq as Heq _. congruence.
      * intros Hno. apply Hget. intros Hin. apply Hno, in_app_iff. now left.
Qed.

Section ConnectedComponents.
Context {C : Type}.
Variable pe : PlaneExtractor C.
Variable nr_planes : Z.

(** The first loop of [getConnectedComponents]: an entry is set only
    for two different numbers that a scanned cell and its right or
    lower neighbour hold. *)
Lemma scan_sound (l : list (Z * Z)) :
  (forall r c, In (r, c) l ->
     0 <= r < nr_vertical_cells_ pe - 1 /\ 0 <= c < nr_horizontal_cells_ pe - 1) ->
  let scan (m : list Z) (rc : Z * Z) :=
    let '(row_id, col_id) := rc in
    let plane_id := cell_at pe (grid_plane_seg_map_ pe) row_id col_id in
    if 0 <? plane_id then
      let right := cell_at pe (grid_plane_seg_map_ pe) row_id (col_id + 1) in
      let m := if (0 <? right) && negb (plane_id =? right)
               then assoc_set m (plane_id - 1) (right - 1) true else m in
      let down := cell_at pe (grid_plane_seg_map_ pe) (row_id + 1) col_id in
      if (0 <? down) && negb (plane_id =? down)
      then assoc_set m (plane_id - 1) (down - 1) true else m
    else m in
  let m := fold_left scan l (filled nr_planes 0) in
  length m = Z.to_nat nr_planes /\
  forall a b, assoc_get m a b = true ->
    a <> b /\ scanned_adjacent pe (a + 1) (b + 1).
Proof.
  intros Hrange scan. cbv zeta.
  apply (fold_left_preserves
           (fun m => length m = Z.to_nat nr_planes /\
                     forall a b, assoc_get m a b = true ->
                       a <> b /\ scanned_adjacent pe (a + 1) (b + 1))).
  - split; [apply repeat_length|]. intros a b. unfold assoc_get.
    rewrite zget_filled_default, Z.bits_0. discriminate.
  - intros m [r c] Hin [Hlen Hsound]. destruct (Hrange r c Hin) as [Hr Hc].
    subst scan. cbv beta iota zeta.
    set (p := cell_at pe (grid_plane_seg_map_ pe) r c).
    set (right := cell_at pe (grid_plane_seg_map_ pe) r (c + 1)).
    set (down := cell_at pe (grid_plane_seg_map_ pe) (r + 1) c).
    destruct (Z.ltb_spec 0 p) as [Hp|_]; [|now split].
    assert (Hstep : forall (m0 : list Z) q,
              (q = right \/ q = down) ->
              (length m0 = Z.to_nat nr_planes /\
               forall a b, assoc_get m0 a b = true ->
                 a <> b /\ scanned_adjacent pe (a + 1) (b + 1)) ->
              let m1 := if (0 <? q) && negb (p =? q)
                        then assoc_set m0 (p - 1) (q - 1) true else m0 in
              length m1 = Z.to_nat nr_planes /\
              forall a b, assoc_get m1 a b = true ->
                a <> b /\ scanned_adjacent pe (a + 1) (b + 1)).
    { intros m0 q Hq [Hlen0 Hsound0]. cbv zeta.
      destruct (Z.ltb_spec 0 q) as [Hq0|_]; [|now split].
      destruct (Z.eqb_spec p q) as [_|Hpq]; [now split|]. simpl.
      split; [now rewrite length_assoc_set|].
      intros a b. rewrite assoc_get_set by lia.
      destruct (_ && _) eqn:Hhit; [|apply Hsound0]. intros _.
      rewrite !andb_true_iff in Hhit. destruct Hhit as [[[Ha Hb] _] _].
      apply Z.eqb_eq in Ha, Hb. subst a b. split; [lia|].
      exists r, c. split; [exact Hr|]. split; [exact Hc|].
      replace (p - 1 + 1) with p by lia. replace (q - 1 + 1) with q by lia.
      split; [reflexivity|]. destruct Hq as [-> | ->]; [now left|now right]. }
    apply (Hstep _ down); [now right|].
    apply (Hstep _ right); [now left|]. now split.
Qed.

(** X15.  The matrix that [getConnectedComponents] returns is
    symmetric on the planes and has an empty diagonal, and it is
    sound: an entry for the planes [a] and [b] is set only if [a] and
    [b] are different and some scanned cell of the segment map and
    its right or lower neighbour hold the numbers of the two planes,
    [a + 1] and [b + 1], in one order or the other. *)
Theorem X15_association_matrix_is_sound :
  let m := getConnectedComponents pe nr_planes in
  (forall a b, 0 <= a < nr_planes -> 0 <= b < nr_planes ->
     assoc_get m a b = assoc_get m b a) /\
  (forall a, assoc_get m a a = false) /\
  (forall a b, assoc_get m a b = true ->
     a <> b /\
     (scanned_adjacent pe (a + 1) (b + 1) \/ scanned_adjacent pe (b + 1) (a + 1))).
Proof.
  unfold getConnectedComponents. cbv zeta.
  match goal with
  | |- context [fold_left ?f ?l (filled nr_planes 0)] =>
      destruct (scan_sound l) as [Hlen Hsound];
        [|set (o := fold_left f l (filled nr_planes 0)) in *]
  end.
  { intros r c Hin. apply in_pairs in Hin. now rewrite !in_zrange in Hin. }
  destruct (symmetrize_fold o
              (flat_map (fun r => map (fun c => (r, c)) (zrange 0 (Z.of_nat (length o))))
                 (zrange 0 (Z.of_nat (length o))))) as [Hlen' Hget].
  { apply NoDup_pairs; apply sorted_NoDup, zrange_sorted. }
  { intros r c Hin. apply in_pairs in Hin. rewrite !in_zrange in Hin. lia. }
  cbv zeta in Hlen', Hget.
  set (m := fold_left _ _ o) in *.
  assert (Hin : forall a b, 0 <= a < nr_planes -> 0 <= b < nr_planes ->
            In (a, b) (flat_map (fun r => map (fun c => (r, c))
                                            (zrange 0 (Z.of_nat (length o))))
                         (zrange 0 (Z.of_nat (length o))))).
  { intros a b Ha Hb. apply in_pairs. rewrite !in_zrange. lia. }
  assert (Hall : forall a b, assoc_get m a b = true ->
            assoc_get o a b = true \/ assoc_get o b a = true).
  { intros a b Hab.
    destruct (in_dec (fun x y : Z * Z => decide (x = y)) (a, b)
                (flat_map (fun r => map (fun c => (r, c)) (zrange 0 (Z.of_nat (length o))))
                   (zrange 0 (Z.of_nat (length o))))) as [Hyes|Hno].
    - rewrite (proj1 (Hget a b) Hyes) in Hab. now apply orb_true_iff in Hab.
    - rewrite (proj2 (Hget a b) Hno) in Hab. now left. }
  split; [|split].
  - intros a b Ha Hb.
    rewrite (proj1 (Hget a b) (Hin a b Ha Hb)), (proj1 (Hget b a) (Hin b a Hb Ha)).
    apply orb_comm.
  - intros a. destruct (assoc_get m a a) eqn:Haa; [|reflexivity].
    destruct (Hall a a Haa) as [Ho|Ho]; destruct (Hsound a a Ho) as [Hne _];
      now contradiction Hne.
  - intros a b Hab. destruct (Hall a b Hab) as [Ho|Ho]; destruct (Hsound _ _ Ho) as [Hne Hadj].
    + split; [exact Hne|now left].
    + split; [congruence|now right].
Qed.
End ConnectedComponents.


(** ** The rule of [refineCells] *)

Lemma fold_left_flat_map {A X Y} (f : A -> Y -> A) (g : X -> list Y) (l : list X) :
  forall a, fold_left f (flat_map g l) a = fold_left (fun a x => fold_left f (g x) a) l a.
Proof.
  induction l as [|x l IH]; intros a; simpl; [reflexivity|].
  now rewrite fold_left_app, IH.
Qed.

Lemma sorted_app (l1 l2 : list Z) :
  StronglySorted Z.lt l1 -> StronglySorted Z.lt l2 ->
  (forall x y, In x l1 -> In y l2 -> x < y) ->
  StronglySorted Z.lt (l1 ++ l2).
Proof.
  intros H1 H2 Hlt. induction H1 as [|a l1 H1 IH Ha]; simpl; [exact H2|].
  constructor.
  - apply IH. intros x y Hx Hy. apply Hlt; [now right|exact Hy].
  - apply List.Forall_forall. intros x Hx. apply in_app_iff in Hx. destruct Hx as [Hx|Hx].
    + rewrite List.Forall_forall in Ha. now apply Ha.
    + apply Hlt; [now left|exact Hx].
Qed.

(** The points of the cells selected by [keep], block by block. *)
Lemma blocks_sorted (keep : Z -> bool) (npc : Z) (l : list Z) :
  0 <= npc -> StronglySorted Z.lt l ->
  StronglySorted Z.lt
    (flat_map (fun j => if keep j then zrange (j * npc) (j * npc + npc) else []) l).
Proof.
  intros Hnpc Hl. induction Hl as [|j l Hl IH Hj]; simpl; [constructor|].
  apply sorted_app; [destruct (keep j); [apply zrange_sorted|constructor]|exact IH|].
  intros x y Hx Hy. apply in_flat_map in Hy. destruct Hy as (j'&Hj'&Hy).
  rewrite List.Forall_forall in Hj. specialize (Hj j' Hj').
  destruct (keep j); [|destruct Hx]. destruct (keep j'); [|destruct Hy].
  apply in_zrange in Hx, Hy. nia.
Qed.

Lemma in_blocks (keep : Z -> bool) (npc n pt : Z) :
  0 < npc ->
  In pt (flat_map (fun j => if keep j then zrange (j * npc) (j * npc + npc) else [])
           (zrange 0 n))
  <-> 0 <= pt < n * npc /\ keep (pt / npc) = true.
Proof.
  intros Hnpc. rewrite in_flat_map. split.
  - intros (j&Hj&Hpt). apply in_zrange in Hj.
    destruct (keep j) eqn:Hkeep; [|destruct Hpt]. apply in_zrange in Hpt.
    assert (Hdiv : pt / npc = j).
    { symmetry. apply (Z.div_unique pt npc j (pt - j * npc)); lia. }
    rewrite Hdiv. split; [nia|exact Hkeep].
  - intros [Hpt Hkeep]. exists (pt / npc).
    pose proof (Z.div_mod pt npc) as Hdm. pose proof (Z.mod_pos_bound pt npc Hnpc).
    split.
    + apply in_zrange. split; [apply Z.div_pos; lia|].
      apply Z.div_lt_upper_bound; lia.
    + rewrite Hkeep. apply in_zrange. lia.
Qed.

Section RefineCells.
Context {C : Type} `{CellSegmentOps C}.

Implicit Type pe : PlaneExtractor C.

Lemma refine_points_spec (plane : C) (label : Z) (max_dist : Q) (pcd : Matrix)
    (pts : list Z) :
  List.NoDup pts ->
  forall seg dists,
    let r := fold_left (refine_point plane label max_dist pcd) pts (seg, dists) in
    length (fst r) = length seg /\
    (forall pt, ~ In pt pts ->
       zget 0 (fst r) pt = zget 0 seg pt /\ zget 0%Q (snd r) pt = zget 0%Q dists pt) /\
    (forall pt, In pt pts -> 0 <= pt < Z.of_nat (length seg) ->
       zget 0 (fst r) pt
       = if Qltb (residual plane pcd pt) max_dist
            && Qltb (residual plane pcd pt) (zget 0%Q dists pt)
         then label else zget 0 seg pt).
Proof.
  induction 1 as [|pt0 pts Hnew Hnd IH]; intros seg dists; cbv zeta.
  - simpl. split; [reflexivity|]. split; [now split|intros pt []].
  - cbn [fold_left].
    set (s1 := refine_point plane label max_dist pcd (seg, dists) pt0).
    assert (Hs1 : s1 = (fst s1, snd s1)) by now destruct s1.
    assert (Hlen1 : length (fst s1) = length seg).
    { subst s1. cbn [refine_point]. destruct (_ && _); [apply length_zset|reflexivity]. }
    assert (Hother : forall pt, pt <> pt0 ->
              zget 0 (fst s1) pt = zget 0 seg pt /\ zget 0%Q (snd s1) pt = zget 0%Q dists pt).
    { intros pt Hne. subst s1. cbn [refine_point].
      destruct (_ && _); cbn [fst snd]; [|now split].
      split; apply zget_zset_ne; congruence. }
    rewrite Hs1. destruct (IH (fst s1) (snd s1)) as (Hlen&Hout&Hin). cbv zeta in Hlen, Hout, Hin.
    split; [now rewrite Hlen|]. split.
    + intros pt Hno. destruct (Hout pt) as [Hseg Hd]; [intros Habs; apply Hno; now right|].
      destruct (Hother pt) as [Hseg1 Hd1]; [intros ->; apply Hno; now left|].
      split; congruence.
    + intros pt [->|Hpt] Hrange.
      * destruct (Hout pt Hnew) as [Hseg _]. rewrite Hseg.
        subst s1. cbn [refine_point]. destruct (_ && _); cbn [fst]; [|reflexivity].
        now apply zget_zset_eq.
      * assert (Hne : pt <> pt0) by (intros ->; contradiction).
        destruct (Hother pt Hne) as [Hseg1 Hd1].
        rewrite (Hin pt Hpt) by (rewrite Hlen1; exact Hrange).
        now rewrite Hseg1, Hd1.
Qed.

Lemma refineCells_fold pe (plane : C) (label : Z) (mask : list Z) (pcd : Matrix) :
  grid_shaped pe ->
  seg_map_stacked_ (refineCells pe plane label mask pcd)
  = fst (fold_left
           (refine_point plane label (refinementMultiplierCoeff (config_ pe) * getMSE plane)
              pcd)
           (flat_map (fun j => if negb (zget 0 mask j =? 0)
                               then zrange (j * nr_pts_per_cell_ pe)
                                      (j * nr_pts_per_cell_ pe + nr_pts_per_cell_ pe)
                               else [])
              (zrange 0 (nr_total_cells_ pe)))
           (seg_map_stacked_ pe,
            filled (image_width_ pe * image_height_ pe) MAXFLOAT)).
Proof.
  intros Hshape. unfold refineCells.
  rewrite (grid_cells_enum pe Hshape).
  set (rp := refine_point plane label (refinementMultiplierCoeff (config_ pe) * getMSE plane)
               pcd).
  rewrite (fold_left_ext _
             (fun st rc =>
                ((if cell_at pe mask (fst rc) (snd rc) =? 0 then fst st
                  else fold_left rp
                         (zrange (snd st * nr_pts_per_cell_ pe)
                            (snd st * nr_pts_per_cell_ pe + nr_pts_per_cell_ pe))
                         (fst st)),
                 snd st + 1))).
  2:{ intros [[seg dists] id] [r c]. cbn [fst snd].
      destruct (cell_at pe mask r c =? 0); [reflexivity|].
      subst rp. unfold refine_point.
      destruct (fold_left _ _ (seg, dists)) as [seg' dists']. reflexivity. }
  rewrite (fold_left_counter
             (fun (s : list Z * list Q) j (rc : Z * Z) =>
                if cell_at pe mask (fst rc) (snd rc) =? 0 then s
                else fold_left rp
                       (zrange (j * nr_pts_per_cell_ pe)
                          (j * nr_pts_per_cell_ pe + nr_pts_per_cell_ pe)) s));
    [|destruct Hshape as (HN&HW&HH); nia].
  cbn [fst snd].
  rewrite (fold_left_ext _
             (fun s j =>
                fold_left rp
                  (if negb (zget 0 mask j =? 0)
                   then zrange (j * nr_pts_per_cell_ pe)
                          (j * nr_pts_per_cell_ pe + nr_pts_per_cell_ pe)
                   else []) s)).
  2:{ intros s j. unfold cell_at. rewrite cell_index_enum.
      destruct (zget 0 mask j =? 0); reflexivity. }
  rewrite <- (fold_left_flat_map rp
                (fun j => if negb (zget 0 mask j =? 0)
                          then zrange (j * nr_pts_per_cell_ pe)
                                 (j * nr_pts_per_cell_ pe + nr_pts_per_cell_ pe)
                          else [])).
  destruct (fold_left rp _ _) as [seg dists]. reflexivity.
Qed.

(** X13.  [refineCells] decides each point of a cell of the mask on
    its own: the point receives the label if and only if its squared
    residual is below [refinementMultiplierCoeff * MSE] of the plane
    (and below [MAXFLOAT]); all other entries of [seg_map_stacked_]
    are left as they are.  The buffer [distances_stacked] is created
    by the call and every point is visited once, so that the second
    test of the source never refers to the residual of another
    plane: a label written for an earlier plane is overwritten
    whatever its residual was. *)
Theorem X13_refineCells_decides_each_point_alone pe (plane : C) (label : Z)
    (mask : list Z) (pcd : Matrix) (pt : Z) :
  grid_shaped pe -> 0 < nr_pts_per_cell_ pe ->
  nr_total_cells_ pe * nr_pts_per_cell_ pe <= image_width_ pe * image_height_ pe ->
  0 <= pt < Z.of_nat (length (seg_map_stacked_ pe)) ->
  zget 0 (seg_map_stacked_ (refineCells pe plane label mask pcd)) pt
  = if (pt <? nr_total_cells_ pe * nr_pts_per_cell_ pe)
       && negb (zget 0 mask (pt / nr_pts_per_cell_ pe) =? 0)
       && Qltb (residual plane pcd pt) (refinementMultiplierCoeff (config_ pe) * getMSE plane)
       && Qltb (residual plane pcd pt) MAXFLOAT
    then label
    else zget 0 (seg_map_stacked_ pe) pt.
Proof.
  intros Hshape Hnpc Hfit Hpt. rewrite (refineCells_fold pe plane label mask pcd Hshape).
  set (pts := flat_map _ (zrange 0 (nr_total_cells_ pe))).
  destruct (refine_points_spec plane label
              (refinementMultiplierCoeff (config_ pe) * getMSE plane) pcd pts)
    with (seg := seg_map_stacked_ pe)
         (dists := filled (image_width_ pe * image_height_ pe) MAXFLOAT)
    as (_&Hout&Hin).
  { apply sorted_NoDup. subst pts. apply blocks_sorted; [lia|apply zrange_sorted]. }
  cbv zeta in Hout, Hin.
  assert (Hmem : In pt pts <-> 0 <= pt < nr_total_cells_ pe * nr_pts_per_cell_ pe /\
                               negb (zget 0 mask (pt / nr_pts_per_cell_ pe) =? 0) = true).
  { subst pts. apply (in_blocks (fun j => negb (zget 0 mask j =? 0))). exact Hnpc. }
  destruct (Z.ltb_spec pt (nr_total_cells_ pe * nr_pts_per_cell_ pe)) as [Hlt|Hge].
  - destruct (negb (zget 0 mask (pt / nr_pts_per_cell_ pe) =? 0)) eqn:Hmask; cbn [andb].
    + rewrite (Hin pt) by (try apply Hmem; try split; try lia; auto).
      rewrite zget_filled by lia. reflexivity.
    + apply Hout. rewrite Hmem. intros [_ Habs]. discriminate.
  - cbn [andb]. apply Hout. rewrite Hmem. lia.
Qed.
End RefineCells.

Lemma X13_refineCells_decides_each_point_alone_witness :
  zget 0 (seg_map_stacked_
            (refineCells frame_A (plane_at 1030 25) 2
               (boundaryMask frame_A (planeMask frame_A [0; 7] [0; 1] 1)) cloud_A)) 12
  = if (12 <? nr_total_cells_ frame_A * nr_pts_per_cell_ frame_A)
       && negb (zget 0 (boundaryMask frame_A (planeMask frame_A [0; 7] [0; 1] 1))
                  (12 / nr_pts_per_cell_ frame_A) =? 0)
       && Qltb (residual (plane_at 1030 25) cloud_A 12)
            (refinementMultiplierCoeff (config_ frame_A) * getMSE (plane_at 1030 25))
       && Qltb (residual (plane_at 1030 25) cloud_A 12) MAXFLOAT
    then 2
    else zget 0 (seg_map_stacked_ frame_A) 12.
Proof.
  apply (X13_refineCells_decides_each_point_alone frame_A).
  - split; [reflexivity|]. split; discriminate.
  - reflexivity.
  - discriminate.
  - split; [discriminate|reflexivity].
Defined.


(** ** The pixels of the label image *)

Lemma fold_left_map {A X Y} (f : A -> Y -> A) (g : X -> Y) (l : list X) : forall a,
  fold_left f (map g l) a = fold_left (fun a x => f a (g x)) l a.
Proof. induction l as [|x l IH]; intros a; simpl; [reflexivity|apply IH]. Qed.

(** Nested loops over rows and columns visit the pairs in row-major
    order. *)
Lemma fold_left_rows {A} (h : A -> Z -> Z -> A) (rows cols : list Z) (a : A) :
  fold_left (fun a r => fold_left (fun a c => h a r c) cols a) rows a
  = fold_left (fun a rc => h a (fst rc) (snd rc))
      (flat_map (fun r => map (fun c => (r, c)) cols) rows) a.
Proof.
  rewrite fold_left_flat_map. apply fold_left_ext. intros s r.
  now rewrite fold_left_map.
Qed.

Lemma rect_enum (r0 c0 w h : Z) :
  0 <= w -> 0 <= h ->
  flat_map (fun r => map (fun c => (r, c)) (zrange c0 (c0 + w))) (zrange r0 (r0 + h))
  = map (fun j => (r0 + j / w, c0 + j mod w)) (zrange 0 (h * w)).
Proof.
  intros Hw. revert h. apply natlike_ind.
  - rewrite Z.add_0_r, (zrange_nil r0 r0) by lia. reflexivity.
  - intros h Hh IH. unfold Z.succ. rewrite Z.add_assoc.
    rewrite zrange_snoc by lia. rewrite flat_map_app, IH. simpl. rewrite app_nil_r.
    rewrite (zrange_app 0 (h * w) ((h + 1) * w)) by nia. rewrite map_app. f_equal.
    replace (zrange c0 (c0 + w)) with (zrange (0 + c0) (w + c0)) by (f_equal; lia).
    replace (zrange (h * w) ((h + 1) * w)) with (zrange (0 + h * w) (w + h * w))
      by (f_equal; lia).
    rewrite !zrange_shift, !map_map.
    apply map_ext_in. intros k Hk. apply in_zrange in Hk.
    rewrite Z.div_add, Z.mod_add by lia.
    rewrite Z.div_small, Z.mod_small by lia. f_equal; lia.
Qed.

(** Among the turns of a loop, one changes the observed value and the
    others do not. *)
Lemma fold_left_one {S X} `{EqDecision X} (Inv : S -> Prop) (get : S -> Z) (f : S -> X -> S)
    (F : Z -> Z) (x : X) (l : list X) :
  List.NoDup l -> In x l ->
  (forall s y, Inv s -> Inv (f s y)) ->
  (forall s y, Inv s -> In y l -> y <> x -> get (f s y) = get s) ->
  (forall s, Inv s -> get (f s x) = F (get s)) ->
  forall s0, Inv s0 -> get (fold_left f l s0) = F (get s0).
Proof.
  intros Hnd Hin Hinv Hother Hself.
  assert (Hrest : forall l', (forall y, In y l' -> In y l /\ y <> x) ->
            forall s, Inv s -> get (fold_left f l' s) = get s).
  { induction l' as [|b l' IHl]; intros Hl' s Hs; simpl; [reflexivity|].
    rewrite IHl.
    - destruct (Hl' b (or_introl eq_refl)). now apply Hother.
    - intros y Hy. apply Hl'. now right.
    - now apply Hinv. }
  revert Hin Hother. induction Hnd as [|a l Ha Hnd IH]; intros Hin Hother s0 Hs0;
    [destruct Hin|].
  simpl. destruct (decide (a = x)) as [->|Hne].
  - rewrite Hrest; [now apply Hself| |now apply Hinv].
    intros y Hy. split; [now right|]. intros ->. contradiction.
  - destruct Hin as [Heq|Hin]; [contradiction|].
    assert (Hrest' : forall l', (forall y, In y l' -> In y l /\ y <> x) ->
              forall s, Inv s -> get (fold_left f l' s) = get s).
    { intros l' Hl'. apply Hrest. intros y Hy. destruct (Hl' y Hy). split; [now right|auto]. }
    rewrite IH.
    + f_equal. apply Hother; [exact Hs0|now left|exact Hne].
    + intros l' Hl'. apply Hrest'. exact Hl'.
    + exact Hin.
    + intros s y Hs Hy. apply Hother; [exact Hs|now right].
    + now apply Hinv.
Qed.

Lemma fillRect_inside (width : Z) (out : list Z) (x y w h v r c : Z) :
  y <= r < y + h -> x <= c < x + w ->
  0 <= r * width + c < Z.of_nat (length out) ->
  zget 0 (fillRect width out x y w h v) (r * width + c) = v.
Proof.
  intros Hr Hc Hbuf. unfold fillRect.
  rewrite (fold_left_rows (fun out r c => zset out (r * width + c) v)).
  rewrite <- (fold_left_map (fun out (p : Z * Z) => zset out (fst p) (snd p))
                (fun rc : Z * Z => (fst rc * width + snd rc, v))).
  apply fold_writes_get; [| |exact Hbuf].
  - apply in_map_iff. exists (r, c). split; [reflexivity|].
    apply in_pairs. now rewrite !in_zrange.
  - intros v' Hin. apply in_map_iff in Hin. destruct Hin as (rc&Heq&_). congruence.
Qed.

Section CopyCell.
Context {C : Type}.
Variable pe : PlaneExtractor C.

Lemma copyCell_writes (out : list Z) (r0 c0 w h idx : Z) :
  0 <= w -> 0 <= h ->
  copyCell pe out r0 (r0 + h) c0 (c0 + w) idx
  = fold_left (fun out p => zset out (fst p) (snd p))
      (flat_map (fun j =>
                   if 0 <? zget 0 (seg_map_stacked_ pe) j
                   then [((r0 + (j - idx) / w) * image_width_ pe + (c0 + (j - idx) mod w),
                          zget 0 (seg_map_stacked_ pe) j)]
                   else [])
         (zrange idx (idx + h * w)))
      out.
Proof.
  intros Hw Hh. unfold copyCell.
  rewrite (fold_left_ext _
             (fun st r =>
                fold_left
                  (fun st c =>
                     ((if 0 <? zget 0 (seg_map_stacked_ pe) (snd st)
                       then zset (fst st) (r * image_width_ pe + c)
                              (zget 0 (seg_map_stacked_ pe) (snd st))
                       else fst st), snd st + 1))
                  (zrange c0 (c0 + w)) st)).
  2:{ intros st r. apply fold_left_ext. intros [o i] c. reflexivity. }
  rewrite (fold_left_rows
             (fun st r c =>
                ((if 0 <? zget 0 (seg_map_stacked_ pe) (snd st)
                  then zset (fst st) (r * image_width_ pe + c)
                         (zget 0 (seg_map_stacked_ pe) (snd st))
                  else fst st), snd st + 1))).
  rewrite rect_enum by assumption.
  replace (zrange 0 (h * w)) with (zrange (idx + - idx) (idx + h * w + - idx))
    by (f_equal; lia).
  rewrite zrange_shift, map_map.
  rewrite (fold_left_counter
             (fun (o : list Z) j (rc : Z * Z) =>
                if 0 <? zget 0 (seg_map_stacked_ pe) j
                then zset o (fst rc * image_width_ pe + snd rc)
                       (zget 0 (seg_map_stacked_ pe) j)
                else o)
             (fun j => (r0 + (j + - idx) / w, c0 + (j + - idx) mod w)));
    [|nia].
  cbn [fst snd]. rewrite fold_left_flat_map. apply fold_left_ext. intros o j.
  replace (j + - idx) with (j - idx) by lia.
  destruct (0 <? zget 0 (seg_map_stacked_ pe) j); reflexivity.
Qed.

Lemma copyCell_inside (out : list Z) (r0 c0 w h idx r c : Z) :
  r0 <= r < r0 + h -> c0 <= c < c0 + w ->
  0 <= c0 -> c0 + w <= image_width_ pe ->
  0 <= r * image_width_ pe + c < Z.of_nat (length out) ->
  let s := zget 0 (seg_map_stacked_ pe) (idx + (r - r0) * w + (c - c0)) in
  zget 0 (copyCell pe out r0 (r0 + h) c0 (c0 + w) idx) (r * image_width_ pe + c)
  = if 0 <? s then s else zget 0 out (r * image_width_ pe + c).
Proof.
  intros Hr Hc Hc0 Hfit Hbuf s. rewrite copyCell_writes by lia.
  set (j0 := idx + (r - r0) * w + (c - c0)) in *.
  assert (Hw : 0 < w) by lia.
  assert (Hj0 : In j0 (zrange idx (idx + h * w))) by (apply in_zrange; subst j0; nia).
  assert (Hdecode : forall j, In j (zrange idx (idx + h * w)) ->
            (r0 + (j - idx) / w) * image_width_ pe + (c0 + (j - idx) mod w)
            = r * image_width_ pe + c -> j = j0).
  { intros j Hj Heq. apply in_zrange in Hj.
    pose proof (Z.mod_pos_bound (j - idx) w Hw) as Hm.
    pose proof (Z.div_mod (j - idx) w) as Hdm.
    assert (Hd : 0 <= (j - idx) / w) by (apply Z.div_pos; lia).
    apply radix_inj in Heq; [|lia|lia]. destruct Heq as [Hrow Hcol].
    subst j0. nia. }
  destruct (Z.ltb_spec 0 s) as [Hpos|Hzero].
  - apply fold_writes_get; [| |exact Hbuf].
    + apply in_flat_map. exists j0. split; [exact Hj0|]. fold s.
      apply Z.ltb_lt in Hpos. rewrite Hpos. left. f_equal.
      subst j0. replace (idx + (r - r0) * w + (c - c0) - idx) with ((r - r0) * w + (c - c0))
        by lia.
      rewrite Z.div_add_l, Z.div_small by lia.
      rewrite (Z.add_comm ((r - r0) * w) (c - c0)), Z.mod_add, Z.mod_small by lia. lia.
    + intros v' Hin. apply in_flat_map in Hin. destruct Hin as (j&Hj&Hin).
      destruct (0 <? zget 0 (seg_map_stacked_ pe) j); [|destruct Hin].
      destruct Hin as [Heq|[]]. injection Heq as Hpos' <-.
      now rewrite (Hdecode j Hj Hpos').
  - apply fold_writes_other. intros v' Hin. apply in_flat_map in Hin.
    destruct Hin as (j&Hj&Hin).
    destruct (Z.ltb_spec 0 (zget 0 (seg_map_stacked_ pe) j)) as [Hpos'|_]; [|destruct Hin].
    destruct Hin as [Heq|[]]. injection Heq as Hpos'' _.
    rewrite (Hdecode j Hj Hpos'') in Hpos'. fold s in Hpos'. lia.
Qed.
End CopyCell.

Lemma fillRect_length (width : Z) (out : list Z) (x y w h v : Z) :
  length (fillRect width out x y w h v) = length out.
Proof.
  unfold fillRect.
  apply (fold_left_preserves (fun o => length o = length out)); [reflexivity|].
  intros o r _ Ho.
  apply (fold_left_preserves (fun o => length o = length out)); [exact Ho|].
  intros o' c' _ Ho'. now rewrite length_zset.
Qed.

Lemma copyCell_length {C} (pe : PlaneExtractor C) (out : list Z) (r0 c0 w h idx : Z) :
  0 <= w -> 0 <= h ->
  length (copyCell pe out r0 (r0 + h) c0 (c0 + w) idx) = length out.
Proof. intros Hw Hh. rewrite copyCell_writes by assumption. apply fold_writes_length. Qed.

Section ToLabels.
Context {C : Type}.
Variable pe : PlaneExtractor C.
Hypothesis Hsized : well_sized pe.

Lemma grid_cells_NoDup : List.NoDup (grid_cells pe).
Proof. apply NoDup_pairs; apply sorted_NoDup, zrange_sorted. Qed.

(** X14.  A pixel inside the area that the cells cover shows the
    number of its cell in the eroded segment map if there is one;
    otherwise it shows the entry of [seg_map_stacked_] at
    [nr_pts_per_cell_ * cell + local_r * patchSize + local_c] if this
    is positive, and 0 if not.  With [nr_pts_per_cell_ = patchSize^2]
    this position is the row [cell_shift r c] that [organizeByCell]
    gives the point of the pixel: [toLabels] undoes the cell-major
    order. *)
Theorem X14_toLabels_reads_the_row_of_the_pixel (r c : Z) :
  let P := patchSize (config_ pe) in
  0 <= r < nr_vertical_cells_ pe * P -> 0 <= c < nr_horizontal_cells_ pe * P ->
  let idx := nr_pts_per_cell_ pe * (r / P) * nr_horizontal_cells_ pe
             + nr_pts_per_cell_ pe * (c / P) + (r mod P) * P + c mod P in
  let eroded := cell_at pe (grid_plane_seg_map_eroded_ pe) (r / P) (c / P) in
  let stacked := zget 0 (seg_map_stacked_ pe) idx in
  pixel (toLabels pe) r c
  = (if 0 <? eroded then eroded else if 0 <? stacked then stacked else 0) /\
  (nr_pts_per_cell_ pe = P * P -> idx = cell_shift pe r c).
Proof.
  intros P Hr Hc idx eroded stacked.
  destruct Hsized as (HP&HH&HW&HWc&HHc). fold P in HP, HWc, HHc.
  pose proof (covered_width pe Hsized) as Hcw. fold P in Hcw.
  assert (Hch : nr_vertical_cells_ pe * P <= image_height_ pe).
  { rewrite HHc. rewrite Z.quot_div_nonneg by lia.
    pose proof (Z.mul_div_le (image_height_ pe) P HP). lia. }
  pose proof (Z.div_mod r P) as Hrdm. pose proof (Z.mod_pos_bound r P HP) as Hrm.
  pose proof (Z.div_mod c P) as Hcdm. pose proof (Z.mod_pos_bound c P HP) as Hcm.
  assert (Hcr : 0 <= r / P < nr_vertical_cells_ pe).
  { split; [apply Z.div_pos; lia|apply Z.div_lt_upper_bound; lia]. }
  assert (Hcc : 0 <= c / P < nr_horizontal_cells_ pe).
  { split; [apply Z.div_pos; lia|apply Z.div_lt_upper_bound; lia]. }
  split.
  2:{ intros Hnpc. subst idx. unfold cell_shift. cbv zeta. fold P.
      rewrite !Z.quot_div_nonneg, !Z.rem_mod_nonneg by lia. rewrite Hnpc. ring. }
  unfold pixel, toLabels. cbn [img_cols img_data].
  set (k := r * image_width_ pe + c).
  assert (Hk : 0 <= k < image_height_ pe * image_width_ pe) by (subst k; nia).
  etransitivity.
  - apply (fold_left_one
             (fun out => length out = Z.to_nat (image_height_ pe * image_width_ pe))
             (fun out => zget 0 out k) _
             (fun old => if 0 <? eroded then eroded
                         else if 0 <? stacked then stacked else old)
             (r / P, c / P)).
    + apply grid_cells_NoDup.
    + now apply in_grid_cells.
    + intros out [cr cc] Hlen. fold P.
      destruct (0 <? cell_at pe (grid_plane_seg_map_eroded_ pe) cr cc).
      * now rewrite fillRect_length.
      * now rewrite copyCell_length by lia.
    + intros out [cr cc] _ Hin Hne. apply in_grid_cells in Hin. destruct Hin as [Hcr' Hcc'].
      fold P.
      assert (Hapart : forall r' c', cr * P <= r' < cr * P + P -> cc * P <= c' < cc * P + P ->
                r' * image_width_ pe + c' <> k).
      { intros r' c' Hr' Hc' Heq. subst k.
        assert (r' = r /\ c' = c) as [-> ->].
        { apply (radix_inj (image_width_ pe)); [nia|nia|exact Heq]. }
        apply Hne. f_equal.
        - apply (Z.div_unique r P cr (r - cr * P)); lia.
        - apply (Z.div_unique c P cc (c - cc * P)); lia. }
      destruct (0 <? cell_at pe (grid_plane_seg_map_eroded_ pe) cr cc).
      * now apply fillRect_elsewhere.
      * now apply copyCell_elsewhere.
    + intros out Hlen. fold P. fold eroded.
      assert (Hbuf : 0 <= k < Z.of_nat (length out)) by (rewrite Hlen; lia).
      destruct (0 <? eroded).
      * apply fillRect_inside; [lia|lia|exact Hbuf].
      * subst k. rewrite copyCell_inside; [|lia|lia|nia|nia|exact Hbuf].
        replace (nr_pts_per_cell_ pe * (r / P) * nr_horizontal_cells_ pe
                 + nr_pts_per_cell_ pe * (c / P) + (r - r / P * P) * P + (c - c / P * P))
          with idx by (subst idx; lia).
        reflexivity.
    + unfold filled. apply repeat_length.
  - cbv beta. rewrite zget_filled by exact Hk. reflexivity.
Qed.
End ToLabels.

Lemma X14_toLabels_reads_the_row_of_the_pixel_witness :
  nr_pts_per_cell_ frame_A * (1 / 2) * nr_horizontal_cells_ frame_A
  + nr_pts_per_cell_ frame_A * (6 / 2) + 1 mod 2 * 2 + 6 mod 2
  = cell_shift frame_A 1 6.
Proof.
  destruct (X14_toLabels_reads_the_row_of_the_pixel frame_A) with (r := 1) (c := 6)
    as [_ Hidx].
  - split; [reflexivity|]. split; [discriminate|]. split; [discriminate|].
    split; reflexivity.
  - split; [discriminate|reflexivity].
  - split; [discriminate|reflexivity].
  - apply Hidx. reflexivity.
Defined.
